(** * Cloudflare to MyDNS synchronisation: a shallow embedding

    The development embeds the reconciliation scripts of [contrib/]:
    - [sync_cloudflare_records.py]: configuration parsing, the database
      host selector, the Cloudflare API client and the single-credential
      sync engine;
    - [sync_cloudflare_records_multi_user.py]: the credential loader and
      the multi-user sync engine;
    - [sync_pools_direct.py]: its configuration parser.

    Definitions come first, grouped in one module per concern; the
    theorems about them follow. *)

From stdpp Require Import base option list strings gmap pretty.
From Stdlib Require Import Ascii ZArith Lia.

Set Warnings "-register-all".

(** ** Python values and exceptions *)

Module Py.

(** JSON documents as [json.loads] returns them. Numbers are integers
    (floating point values are outside the model); a dict is kept as
    the association list of its items. *)
Inductive json : Type :=
  | JNull
  | JBool (b : bool)
  | JNum (z : Z)
  | JStr (s : string)
  | JArr (items : list json)
  | JObj (fields : list (string * json)).

Definition dict : Type := list (string * json).

(** Python truthiness, as used by [if x], [not x] and [x or y]. *)
Definition truthy (j : json) : bool :=
  match j with
  | JNull => false
  | JBool b => b
  | JNum z => negb (z =? 0)%Z
  | JStr s => negb (String.eqb s EmptyString)
  | JArr l => match l with [] => false | _ => true end
  | JObj o => match o with [] => false | _ => true end
  end.

(** [==] on documents. *)
Fixpoint json_eqb (a b : json) {struct a} : bool :=
  match a, b with
  | JNull, JNull => true
  | JBool x, JBool y => Bool.eqb x y
  | JNum x, JNum y => (x =? y)%Z
  | JStr x, JStr y => String.eqb x y
  | JArr xs, JArr ys =>
      (fix all2 (xs ys : list json) {struct xs} : bool :=
         match xs, ys with
         | [], [] => true
         | x :: xs', y :: ys' => json_eqb x y && all2 xs' ys'
         | _, _ => false
         end) xs ys
  | JObj xs, JObj ys =>
      (fix all2 (xs ys : list (string * json)) {struct xs} : bool :=
         match xs, ys with
         | [], [] => true
         | (k, x) :: xs', (k', y) :: ys' =>
             String.eqb k k' && json_eqb x y && all2 xs' ys'
         | _, _ => false
         end) xs ys
  | _, _ => false
  end.

(** [d.get(k)]: [None] stands for an absent key. *)
Fixpoint get (d : dict) (k : string) : option json :=
  match d with
  | [] => None
  | (k', v) :: d' => if String.eqb k' k then Some v else get d' k
  end.

(** [d.get(k)] as a Python value: an absent key yields [None], which
    Python does not tell apart from a JSON [null]. *)
Definition get_or_none (d : dict) (k : string) : json :=
  default JNull (get d k).

(** [d.get(k, dflt)]. *)
Definition get_default (d : dict) (k : string) (dflt : json) : json :=
  default dflt (get d k).

(** [a or b]. *)
Definition por (a b : json) : json := if truthy a then a else b.

(** The exceptions the scripts raise or let through. A
    [CloudflareError] keeps the pieces its message is formatted from. *)
Inductive cf_failure : Type :=
  | RequestFailed (exc : string)
      (* f"Request failed: {exc}" *)
  | InvalidResponse (snippet : string)
      (* f"Cloudflare invalid response: {snippet}" *)
  | ApiError (status_code : Z) (message : json)
      (* f"Cloudflare API error {resp.status_code}: {message}" *).

Inductive exn : Type :=
  | ConfigError (msg : string)
  | CloudflareError (why : cf_failure)
  | AttributeError (msg : string)
  | TypeError (msg : string)
  | ValueError (msg : string)
  | KeyError (key : string).

(** The result of a call: a value or a raised exception. *)
Definition result (A : Type) : Type := exn + A.

Definition is_cloudflare_error (e : exn) : bool :=
  match e with CloudflareError _ => true | _ => false end.

(** [s[:n]] *)
Fixpoint str_take (n : nat) (s : string) : string :=
  match n, s with
  | S n', String c s' => String c (str_take n' s')
  | _, _ => EmptyString
  end.
#[global] Arguments str_take : simpl never.

End Py.

(** ** Configuration files *)

Module Config.

(** [str.isspace] on the code points below 256. *)
Definition is_space (c : ascii) : bool :=
  let n := nat_of_ascii c in
  ((9 <=? n) && (n <=? 13)) || ((28 <=? n) && (n <=? 32))
  || (n =? 133) || (n =? 160).

Definition is_empty (s : string) : bool :=
  match s with EmptyString => true | _ => false end.

(** [s.lstrip(...)] and [s.rstrip(...)], for the characters satisfying [p]. *)
Fixpoint lstrip_by (p : ascii → bool) (s : string) : string :=
  match s with
  | EmptyString => EmptyString
  | String c s' => if p c then lstrip_by p s' else s
  end.

Fixpoint rstrip_by (p : ascii → bool) (s : string) : string :=
  match s with
  | EmptyString => EmptyString
  | String c s' =>
      let r := rstrip_by p s' in
      if p c && is_empty r then EmptyString else String c r
  end.

Definition strip_by (p : ascii → bool) (s : string) : string :=
  rstrip_by p (lstrip_by p s).

(** [s.strip()] *)
Definition strip (s : string) : string := strip_by is_space s.

(** The double quote character. *)
Definition dquote : ascii := "034".

(** [s.strip(c)] for a single character [c]. *)
Definition strip_char (c : ascii) (s : string) : string :=
  strip_by (Ascii.eqb c) s.

(** [s.startswith(c)] *)
Definition startswith (c : ascii) (s : string) : bool :=
  match s with
  | String c' _ => Ascii.eqb c' c
  | EmptyString => false
  end.

(** [c in s] *)
Fixpoint contains (c : ascii) (s : string) : bool :=
  match s with
  | EmptyString => false
  | String c' s' => Ascii.eqb c' c || contains c s'
  end.

(** [s.split(c, 1)[0]]: the text before the first [c], all of [s] when
    there is none. *)
Fixpoint before (c : ascii) (s : string) : string :=
  match s with
  | EmptyString => EmptyString
  | String c' s' => if Ascii.eqb c' c then EmptyString else String c' (before c s')
  end.

(** [s.split(c, 1)[1]]: the text after the first [c]; only used when
    [c in s]. *)
Fixpoint after (c : ascii) (s : string) : string :=
  match s with
  | EmptyString => EmptyString
  | String c' s' => if Ascii.eqb c' c then s' else after c s'
  end.

(** The body of the [for raw in handle] loop, shared word for word by
    [parse_simple_config] and [parse_config_file]. *)
Definition parse_line (data : gmap string string) (raw : string)
    : gmap string string :=
  let line := strip raw in
  if is_empty line || startswith "#" line then data
  else
    let line := if contains "#" line then strip (before "#" line) else line in
    if negb (contains "=" line) then data
    else
      let key := before "=" line in
      let value := after "=" line in
      <[strip key := strip_char "'" (strip_char dquote (strip value))]> data.

(** A path as the parsers meet it: whether [os.path.isfile] holds for
    it, and what [open] and the iteration over the handle do. [opened]
    is the exception [open] raises (an [OSError]), or the lines the
    iteration yields together with the exception that ends it early (a
    [UnicodeDecodeError], an [OSError]) when there is one. *)
Record file : Type := {
  isfile : bool;
  opened : Py.result (list string * option Py.exn)
}.

(** A regular file that is read to its end. *)
Definition readable (lines : list string) : file :=
  {| isfile := true; opened := inr (lines, None) |}.

(** [parse_simple_config] of [sync_cloudflare_records.py]. Nothing
    catches what [open] or the iteration raises. *)
Definition parse_simple_config (f : file) : Py.result (gmap string string) :=
  if negb (isfile f) then inl (Py.ConfigError "Config file not found")
  else
    match opened f with
    | inl e => inl e
    | inr (lines, Some e) => inl e
    | inr (lines, None) => inr (foldl parse_line ∅ lines)
    end.

(** [parse_config_file] of [sync_pools_direct.py]: the [try] around
    [open] and the loop reports any exception and the function returns
    what was parsed up to it. *)
Definition parse_config_file (f : file) : gmap string string :=
  match opened f with
  | inl e => ∅
  | inr (lines, _) => foldl parse_line ∅ lines
  end.

End Config.

(** ** The database host selector *)

Module Hosts.

Definition host : Type := string * Z.

Definition VALID_POLICIES : list string :=
  ["sequential"; "round-robin"; "roundrobin"; "rr";
   "least-used"; "least_used"; "least"].

Record DatabaseConfig : Type := {
  user : string;
  password : string;
  database : string;
  hosts : list host;
  policy : string
}.

(** The pseudo random generator is modelled by the tape of raw draws it
    will hand out; each draw is reduced into the requested range, and an
    exhausted tape keeps yielding 0. *)
Definition tape : Type := list nat.

(** [random.randint(a, b)]: a value in [a..b]. *)
Definition randint (a b : nat) (t : tape) : nat :=
  a + hd 0 t `mod` (b - a + 1).

(** [x[i], x[j] = x[j], x[i]] *)
Definition swap {A} (x : list A) (i j : nat) : list A :=
  match x !! i, x !! j with
  | Some xi, Some xj => <[j:=xi]> (<[i:=xj]> x)
  | _, _ => x
  end.

(** [random.shuffle(x)]: the loop
    [for i in reversed(range(1, len(x))): j = randbelow(i + 1); swap]. *)
Fixpoint shuffle_from {A} (i : nat) (x : list A) (t : tape) : list A :=
  match i with
  | 0 => x
  | S i' => shuffle_from i' (swap x i (hd 0 t `mod` (i + 1))) (tl t)
  end.

Definition shuffle {A} (x : list A) (t : tape) : list A :=
  shuffle_from (length x - 1) x t.

(** [policy in (...)] *)
Definition str_in (s : string) (l : list string) : bool :=
  existsb (String.eqb s) l.

(** [DatabaseConnectionManager.ordered_hosts] *)
Definition ordered_hosts (config : DatabaseConfig) (t : tape) : list host :=
  let hs := hosts config in
  let policy := policy config in
  if str_in policy ["round-robin"; "roundrobin"; "rr"]
     && negb (bool_decide (hs = []))
  then
    let start := randint 0 (length hs - 1) t in
    drop start hs ++ take start hs
  else if str_in policy ["least-used"; "least_used"; "least"]
  then shuffle hs t
  else hs.

(** What [pymysql.connect] does for a candidate: the server accepts, or
    the call raises with some message. *)
Inductive dial : Type :=
  | Accepts
  | Refuses (err : string).

#[global] Instance dial_eq_dec : EqDecision dial.
Proof. solve_decision. Defined.

(** The log lines of [connect]. *)
Inductive log_line : Type :=
  | Attempting (h : host)
  | Connected (h : host)
  | Failed (h : host) (err : string).

(** The [for host, port in self.ordered_hosts()] loop of [connect]: the
    lines logged so far are threaded through, and the result is the host
    the returned connection is bound to. *)
Fixpoint connect_loop (net : host → dial) (candidates : list host)
    (last_error : option string) (log : list log_line)
    : list log_line * Py.result host :=
  match candidates with
  | [] =>
      (log, inl (Py.ConfigError
                   ("Unable to connect to any DB host: "
                    +:+ default "None" last_error)))
  | h :: rest =>
      match net h with
      | Accepts => (log ++ [Attempting h; Connected h], inr h)
      | Refuses err =>
          connect_loop net rest (Some err) (log ++ [Attempting h; Failed h err])
      end
  end.

(** [DatabaseConnectionManager.connect] *)
Definition connect (config : DatabaseConfig) (t : tape) (net : host → dial)
    : list log_line * Py.result host :=
  connect_loop net (ordered_hosts config t) None [].

(** The number of connection attempts recorded in a log. *)
Definition is_attempt (l : log_line) : bool :=
  match l with Attempting _ => true | _ => false end.

Definition attempts (log : list log_line) : nat :=
  length (filter (λ l, is_attempt l) log).

End Hosts.

(** ** The Cloudflare API client *)

Module Client.
Import Py.

(** The request paths the client builds. *)
Inductive path : Type :=
  | Zones                            (* "/zones" *)
  | DnsRecords (zone_id : json)      (* f"/zones/{zone_id}/dns_records" *)
  | LoadBalancers (zone_id : json)   (* f"/zones/{zone_id}/load_balancers" *).

Record http_request : Type := {
  method : string;
  url_path : path;
  query : gmap string string
}.

(** What [requests.request] does: it raises a [RequestException], or
    returns a response with a status code, its text, and the document
    [resp.json()] decodes from it ([None] when that raises
    [ValueError]). *)
Inductive http_reply : Type :=
  | NoReply (exc : string)
  | Reply (status_code : Z) (text : string) (body : option json).

(** The provider as the client sees it. *)
Definition http : Type := http_request → http_reply.

(** [CloudflareClient.request]. Only GET requests are issued, so
    [method.upper()] is left out. *)
Definition request (w : http) (method : string) (p : path)
    (params : gmap string string) : result dict :=
  match w {| method := method; url_path := p; query := params |} with
  | NoReply exc => inl (CloudflareError (RequestFailed exc))
  | Reply status_code text None =>
      inl (CloudflareError (InvalidResponse (str_take 200 text)))
  | Reply status_code text (Some (JObj decoded)) =>
      if (400 <=? status_code)%Z
         || negb (truthy (get_default decoded "success" (JBool false)))
      then
        let message :=
          por (por (get_or_none decoded "errors")
                   (get_or_none decoded "messages"))
              (JStr (str_take 200 text)) in
        inl (CloudflareError (ApiError status_code message))
      else inr decoded
  | Reply status_code text (Some _) =>
      inl (AttributeError "object has no attribute 'get'")
  end.

(** The characters of a string, as iterating over it yields them. *)
Fixpoint chars (s : string) : list json :=
  match s with
  | EmptyString => []
  | String c s' => JStr (String c EmptyString) :: chars s'
  end.

(** The items [results.extend(batch)] appends, for
    [batch = decoded.get("result") or []]. *)
Definition batch_of (decoded : dict) : result (list json) :=
  match por (get_or_none decoded "result") (JArr []) with
  | JArr items => inr items
  | JStr s => inr (chars s)
  | JObj fields => inr (JStr <$> fields.*1)
  | _ => inl (TypeError "object is not iterable")
  end.

(** [info.get("total_pages") or 0] for
    [info = decoded.get("result_info") or {}]. *)
Definition total_pages_of (decoded : dict) : result json :=
  match por (get_or_none decoded "result_info") (JObj []) with
  | JObj info => inr (por (get_or_none info "total_pages") (JNum 0))
  | _ => inl (AttributeError "object has no attribute 'get'")
  end.

Definition is_digit (c : ascii) : bool :=
  let n := nat_of_ascii c in (48 <=? n) && (n <=? 57).

(** The digits of a decimal literal, single underscores allowed between
    digits. *)
Fixpoint digits_value (acc : Z) (after_digit : bool) (s : string) : option Z :=
  match s with
  | EmptyString => if after_digit then Some acc else None
  | String c s' =>
      if is_digit c
      then digits_value (10 * acc + Z.of_nat (nat_of_ascii c - 48)) true s'
      else if Ascii.eqb c "_" && after_digit then digits_value acc false s'
      else None
  end.

(** The white space [int] skips around a literal, on the code points
    below 256: the ASCII white space and the two spaces beyond it. The
    separators U+001C to U+001F, which [str.strip] removes, are no
    white space for [int]. *)
Definition is_int_space (c : ascii) : bool :=
  let n := nat_of_ascii c in
  ((9 <=? n) && (n <=? 13)) || (n =? 32) || (n =? 133) || (n =? 160).

Fixpoint count_digits (s : string) : nat :=
  match s with
  | EmptyString => 0
  | String c s' => (if is_digit c then 1 else 0) + count_digits s'
  end.

(** [sys.get_int_max_str_digits()], as Python sets it. *)
Definition int_max_str_digits : nat := 4300.

(** [int(s)] for a string: [None] stands for the [ValueError] of a
    text that is no literal, or of one with more digits than
    [int_max_str_digits]. *)
Definition int_of_str (s : string) : option Z :=
  let literal := Config.strip_by is_int_space s in
  let digits :=
    match literal with
    | String "-" ds => ds
    | String "+" ds => ds
    | ds => ds
    end in
  if int_max_str_digits <? count_digits digits then None
  else
    match literal with
    | String "-" ds => Z.opp <$> digits_value 0 false ds
    | String "+" ds => digits_value 0 false ds
    | ds => digits_value 0 false ds
    end.

(** [int(x)] *)
Definition int (x : json) : result Z :=
  match x with
  | JNum z => inr z
  | JBool b => inr (if b then 1 else 0)%Z
  | JStr s =>
      match int_of_str s with
      | Some z => inr z
      | None => inl (ValueError "invalid literal for int() with base 10")
      end
  | _ => inl (TypeError "int() argument must be a string or a number")
  end.

(** The query of one page: [{"page": str(page), "per_page":
    str(per_page)}], updated with [params]. *)
Definition page_params (params : gmap string string) (per_page page : nat)
    : gmap string string :=
  params ∪ {[ "page" := pretty page; "per_page" := pretty per_page ]}.

(** The [while True] loop of [paginated_get]. The requests issued are
    returned along with the outcome; [None] stands for a loop that has
    not ended within [fuel] iterations. *)
Fixpoint paginated_loop (fuel : nat) (w : http) (p : path)
    (params : gmap string string) (per_page page : nat)
    (results : list json) (sent : list http_request)
    : list http_request * option (result (list json)) :=
  match fuel with
  | 0 => (sent, None)
  | S fuel' =>
      let q := page_params params per_page page in
      let sent := sent ++ [{| method := "GET"; url_path := p; query := q |}] in
      match request w "GET" p q with
      | inl e => (sent, Some (inl e))
      | inr decoded =>
          match batch_of decoded with
          | inl e => (sent, Some (inl e))
          | inr batch =>
              let results := results ++ batch in
              match total_pages_of decoded with
              | inl e => (sent, Some (inl e))
              | inr total_pages =>
                  if negb (truthy total_pages) then (sent, Some (inr results))
                  else
                    match int total_pages with
                    | inl e => (sent, Some (inl e))
                    | inr n =>
                        if (n <=? Z.of_nat page)%Z
                        then (sent, Some (inr results))
                        else paginated_loop fuel' w p params per_page
                               (page + 1) results sent
                    end
              end
          end
      end
  end.

(** [CloudflareClient.paginated_get] *)
Definition paginated_get (fuel : nat) (w : http) (p : path)
    (params : gmap string string) (per_page : nat)
    : list http_request * option (result (list json)) :=
  paginated_loop fuel w p params per_page 1 [] [].

(** [CloudflareClient.list_zones] *)
Definition list_zones (fuel : nat) (w : http) (account_id : string) :=
  paginated_get fuel w Zones {[ "account.id" := account_id ]} 50.

(** [CloudflareClient.list_records] *)
Definition list_records (fuel : nat) (w : http) (zone_id : json) :=
  paginated_get fuel w (DnsRecords zone_id) ∅ 100.

(** [CloudflareClient.list_load_balancers]: a [CloudflareError] is
    logged and replaced by the empty list. *)
Definition list_load_balancers (fuel : nat) (w : http) (zone_id : json) :=
  match paginated_get fuel w (LoadBalancers zone_id) ∅ 50 with
  | (sent, Some (inl (CloudflareError _))) => (sent, Some (inr []))
  | r => r
  end.

End Client.

(** ** Database connections and the effects of the sync scripts *)

Module Db.
Import Py.

(** A connection opened with [autocommit=False]: statements change the
    working copy, [commit] publishes it, [rollback] and [close] drop
    what was not committed. *)
Record conn (D : Type) : Type := Conn {
  committed : D;
  working : D
}.
#[global] Arguments Conn {D} _ _.
#[global] Arguments committed {D} _.
#[global] Arguments working {D} _.

Definition open {D} (d : D) : conn D := Conn d d.

(** Code that acts on a state (a connection, or a connection and local
    variables) and may raise: an exception leaves the state as it was
    when it was raised. *)
Definition M (S A : Type) : Type := S → S * result A.

Definition ret {D A} (a : A) : M D A := λ c, (c, inr a).

Definition raise {D A} (e : exn) : M D A := λ c, (c, inl e).

Definition bind {D A B} (m : M D A) (k : A → M D B) : M D B :=
  λ c, match m c with
       | (c', inr a) => k a c'
       | (c', inl e) => (c', inl e)
       end.

(** A call that does not touch the connection. *)
Definition lift {D A} (r : result A) : M D A := λ c, (c, r).

(** [cursor.execute] of a statement that writes. *)
Definition execute {D} (f : D → D) : M (conn D) unit :=
  λ c, (Conn (committed c) (f (working c)), inr ()).

(** [cursor.execute] of a query, or of a statement whose result is read
    back ([cursor.lastrowid]). *)
Definition query {D A} (f : D → D * A) : M (conn D) A :=
  λ c, let '(d, a) := f (working c) in (Conn (committed c) d, inr a).

Definition commit {D} : M (conn D) unit :=
  λ c, (Conn (working c) (working c), inr ()).

Definition rollback {D} : M (conn D) unit :=
  λ c, (Conn (committed c) (committed c), inr ()).

(** [try: m except E: h], for the exceptions selected by [catches]. *)
Definition try_except {D A} (m : M D A) (catches : exn → bool)
    (h : exn → M D A) : M D A :=
  λ c, match m c with
       | (c', inl e) => if catches e then h e c' else (c', inl e)
       | r => r
       end.

(** [for x in xs: body], threading the local variables [s]. *)
Fixpoint for_each {D A S} (xs : list A) (body : A → S → M D S) (s : S)
    : M D S :=
  match xs with
  | [] => ret s
  | x :: xs' => bind (body x s) (for_each xs' body)
  end.

End Db.

Notation "'let*' x ':=' m 'in' k" := (Db.bind m (λ x, k))
  (at level 10, x binder, m at level 200, k at level 200).
Notation "m ';;' k" := (Db.bind m (λ _, k))
  (at level 100, right associativity).

(** ** The single-credential sync engine *)

Module Engine.
Import Py Db.

(** *** The tables, by the columns the scripts write *)

Record account_row : Type := {
  a_id : nat;
  a_cf_account_id : json;
  a_name : json;
  a_updated_at : option nat
}.

Record zone_row : Type := {
  z_id : nat;
  z_account_id : nat;
  z_cf_zone_id : json;
  z_name : json;
  z_status : json;
  z_paused : bool;
  z_zone_type : json;
  z_plan_name : json;
  z_last_synced : option nat;
  z_updated_at : option nat
}.

(** [r_data] and [lb_data] hold the document that [json.dumps]
    serialises into the [data] column. *)
Record record_row : Type := {
  r_zone_id : nat;
  r_cf_record_id : json;
  r_record_type : json;
  r_name : json;
  r_content : json;
  r_ttl : json;
  r_proxied : option bool;
  r_priority : json;
  r_data : dict;
  r_modified_on : option string;
  r_comment : json;
  r_tags : option string
}.

Record lb_row : Type := {
  lb_zone_id : nat;
  lb_cf_lb_id : json;
  lb_name : json;
  lb_proxied : option bool;
  lb_enabled : option bool;
  lb_fallback_pool : json;
  lb_default_pools : option json;
  lb_steering_policy : json;
  lb_data : dict
}.

(** A row of [cloudflare_lb_pool_origins]; the table is written by
    [sync_pools_direct.py] only. *)
Record origin_row : Type := {
  o_pool_id : nat;
  o_name : json;
  o_address : json;
  o_enabled : bool;
  o_weight : json;
  o_port : json;
  o_header_host : json
}.

(** The tables. A row of [cloudflare_records] and of
    [cloudflare_load_balancers] is stored under an id of its own, which
    no [INSERT] of the scripts names and [sync_pools_direct.py] reads
    back as the [lb_id] of a pool: the database numbers the rows as
    they are inserted, from a counter per table, as it does for the
    accounts and the zones ([cursor.lastrowid]). The counters are kept
    with the tables, so that a transaction that is dropped hands its
    ids back; a database that leaves a gap instead gives later rows
    larger ids, never smaller ones. *)
Record db : Type := {
  accounts : list account_row;
  next_account_id : nat;
  zones : list zone_row;
  next_zone_id : nat;
  record_table : list (nat * record_row);
  next_record_id : nat;
  lb_table : list (nat * lb_row);
  next_lb_id : nat;
  origins : list origin_row
}.

(** The rows of the two tables by their columns, without the ids. *)
Definition records (d : db) : list record_row := (record_table d).*2.

Definition load_balancers (d : db) : list lb_row := (lb_table d).*2.

Definition set_accounts (l : list account_row) (n : nat) (d : db) : db :=
  {| accounts := l; next_account_id := n; zones := zones d;
     next_zone_id := next_zone_id d;
     record_table := record_table d; next_record_id := next_record_id d;
     lb_table := lb_table d; next_lb_id := next_lb_id d;
     origins := origins d |}.

Definition set_zones (l : list zone_row) (n : nat) (d : db) : db :=
  {| accounts := accounts d; next_account_id := next_account_id d; zones := l;
     next_zone_id := n;
     record_table := record_table d; next_record_id := next_record_id d;
     lb_table := lb_table d; next_lb_id := next_lb_id d;
     origins := origins d |}.

Definition set_records (l : list (nat * record_row)) (n : nat) (d : db) : db :=
  {| accounts := accounts d; next_account_id := next_account_id d;
     zones := zones d; next_zone_id := next_zone_id d;
     record_table := l; next_record_id := n;
     lb_table := lb_table d; next_lb_id := next_lb_id d;
     origins := origins d |}.

Definition set_load_balancers (l : list (nat * lb_row)) (n : nat) (d : db) : db :=
  {| accounts := accounts d; next_account_id := next_account_id d;
     zones := zones d; next_zone_id := next_zone_id d;
     record_table := record_table d; next_record_id := next_record_id d;
     lb_table := l; next_lb_id := n;
     origins := origins d |}.

(** The rows of one [INSERT], numbered from [n] on in the order they
    are given. *)
Definition numbered {A} (n : nat) (rows : list A) : list (nat * A) :=
  zip (seq n (length rows)) rows.

(** The row an [INSERT ... ON DUPLICATE KEY UPDATE] collides with is
    the first one that carries the key, and it is updated in place. *)
Fixpoint update_first {A} (p : A → bool) (f : A → A) (l : list A) : list A :=
  match l with
  | [] => []
  | x :: l' => if p x then f x :: l' else x :: update_first p f l'
  end.

(** *** What the engine is given *)

(** The three list methods of [CloudflareClient], as the outcome each
    call has against the provider's state during the run. *)
Record CloudflareClient : Type := {
  list_zones : string → result (list json);
  list_records : json → result (list json);
  list_load_balancers : json → result (list json)
}.

Record summary : Type := {
  s_zones : nat;
  s_records : nat;
  s_load_balancers : nat
}.

(** [x.get(...)] on a value that is not a dict raises. *)
Definition as_dict (j : json) : result dict :=
  match j with
  | JObj d => inr d
  | _ => inl (AttributeError "object has no attribute 'get'")
  end.

(** [candidate[:-1] + "+00:00"] when [candidate.endswith("Z")]. *)
Fixpoint utc_suffix (candidate : string) : string :=
  match candidate with
  | EmptyString => EmptyString
  | String c EmptyString =>
      if Ascii.eqb c "Z" then "+00:00" else String c EmptyString
  | String c rest => String c (utc_suffix rest)
  end.

(** [",".join(tags_list)] *)
Definition join_tags (tags_list : list json) : result string :=
  match mapM (λ j, match j with JStr s => Some s | _ => None end) tags_list with
  | Some l => inr (String.concat "," l)
  | None => inl (TypeError "sequence item: expected str instance")
  end.

Section WithRuntime.

(** [now] is what [NOW()] yields during the run. [fromisoformat] stands
    for [datetime.fromisoformat] followed by [strftime]: the formatted
    date, or [None] when the text is not an ISO date. *)
Variable now : nat.
Variable fromisoformat : string → option string.
Variable cf_client : CloudflareClient.

(** [parse_timestamp] *)
Definition parse_timestamp (value : json) : result (option string) :=
  if negb (truthy value) then inr None
  else match value with
       | JStr s =>
           let candidate := Config.strip s in
           if Config.is_empty candidate then inr None
           else inr (fromisoformat (utc_suffix candidate))
       | _ => inl (AttributeError "object has no attribute 'strip'")
       end.

(** [upsert_account]. The unique key of [cloudflare_accounts] is the
    provider's account id; the schema is not among the sources, and a
    null id is matched here like any other value. *)
Definition upsert_account (cf_account_id name : json) : M (conn db) nat :=
  query (λ d,
    let hit r := json_eqb (a_cf_account_id r) cf_account_id in
    match List.find hit (accounts d) with
    | Some r =>
        let upd r := {| a_id := a_id r; a_cf_account_id := a_cf_account_id r;
                        a_name := name; a_updated_at := Some now |} in
        (set_accounts (update_first hit upd (accounts d)) (next_account_id d) d,
         a_id r)
    | None =>
        let r := {| a_id := next_account_id d; a_cf_account_id := cf_account_id;
                    a_name := name; a_updated_at := None |} in
        (set_accounts (accounts d ++ [r]) (S (next_account_id d)) d,
         next_account_id d)
    end).

(** The values [upsert_zone] binds to its statement. *)
Definition zone_values (zone : dict) : result (json * json * json * bool * json * json) :=
  match por (get_or_none zone "plan") (JObj []) with
  | JObj plan =>
      inr (get_or_none zone "id", get_or_none zone "name",
           get_or_none zone "status", truthy (get_or_none zone "paused"),
           get_or_none zone "type", get_or_none plan "name")
  | _ => inl (AttributeError "object has no attribute 'get'")
  end.

(** [upsert_zone]. The unique key of [cloudflare_zones] is the
    provider's zone id. *)
Definition upsert_zone (account_id : nat) (zone : dict) : M (conn db) nat :=
  let* '(cf_zone_id, name, status, paused, zone_type, plan_name) :=
    lift (zone_values zone) in
  query (λ d,
    let hit r := json_eqb (z_cf_zone_id r) cf_zone_id in
    match List.find hit (zones d) with
    | Some r =>
        let upd r := {| z_id := z_id r; z_account_id := account_id;
                        z_cf_zone_id := z_cf_zone_id r; z_name := name;
                        z_status := status; z_paused := paused;
                        z_zone_type := zone_type; z_plan_name := plan_name;
                        z_last_synced := z_last_synced r;
                        z_updated_at := Some now |} in
        (set_zones (update_first hit upd (zones d)) (next_zone_id d) d, z_id r)
    | None =>
        let r := {| z_id := next_zone_id d; z_account_id := account_id;
                    z_cf_zone_id := cf_zone_id; z_name := name;
                    z_status := status; z_paused := paused;
                    z_zone_type := zone_type; z_plan_name := plan_name;
                    z_last_synced := None; z_updated_at := None |} in
        (set_zones (zones d ++ [r]) (S (next_zone_id d)) d, next_zone_id d)
    end).

(** [None if key not in d else int(bool(d.get(key)))] *)
Definition flag (d : dict) (key : string) : option bool :=
  truthy <$> get d key.

(** The tuple appended to [payloads] for one record. *)
Definition record_payload (zone_id : nat) (record : json) : result record_row :=
  match as_dict record with
  | inl e => inl e
  | inr r =>
      let tags_str :=
        match get_default r "tags" (JArr []) with
        | JArr tags_list =>
            match join_tags tags_list with
            | inl e => inl e
            | inr joined => inr (Some joined)
            end
        | _ => inr None
        end in
      match tags_str with
      | inl e => inl e
      | inr tags_str =>
          match parse_timestamp (get_or_none r "modified_on") with
          | inl e => inl e
          | inr modified_on =>
              inr {| r_zone_id := zone_id;
                     r_cf_record_id := get_or_none r "id";
                     r_record_type := get_or_none r "type";
                     r_name := get_or_none r "name";
                     r_content := get_or_none r "content";
                     r_ttl := get_or_none r "ttl";
                     r_proxied := flag r "proxied";
                     r_priority := get_or_none r "priority";
                     r_data := r;
                     r_modified_on := modified_on;
                     r_comment := get_or_none r "comment";
                     r_tags := tags_str |}
          end
      end
  end.

(** The [for record in records] loop that fills [payloads]. *)
Fixpoint record_payloads (zone_id : nat) (records : list json)
    : result (list record_row) :=
  match records with
  | [] => inr []
  | record :: rest =>
      match record_payload zone_id record with
      | inl e => inl e
      | inr row =>
          match record_payloads zone_id rest with
          | inl e => inl e
          | inr rows => inr (row :: rows)
          end
      end
  end.

Definition delete_zone_records (zone_id : nat) (d : db) : db :=
  set_records
    (List.filter (λ r, negb (r_zone_id r.2 =? zone_id)) (record_table d))
    (next_record_id d) d.

Definition insert_records (rows : list record_row) (d : db) : db :=
  set_records (record_table d ++ numbered (next_record_id d) rows)
    (next_record_id d + length rows) d.

(** [replace_zone_records] *)
Definition replace_zone_records (zone_id : nat) (records : list json)
    : M (conn db) nat :=
  execute (delete_zone_records zone_id);;
  match records with
  | [] => ret 0
  | _ =>
      let* payloads := lift (record_payloads zone_id records) in
      execute (insert_records payloads);;
      ret (length records)
  end.

(** The tuple appended to [payloads] for one load balancer. *)
Definition balancer_payload (zone_id : nat) (balancer : json) : result lb_row :=
  match as_dict balancer with
  | inl e => inl e
  | inr b =>
      inr {| lb_zone_id := zone_id;
             lb_cf_lb_id := get_or_none b "id";
             lb_name := get_or_none b "name";
             lb_proxied := flag b "proxied";
             lb_enabled := flag b "enabled";
             lb_fallback_pool := get_or_none b "fallback_pool";
             lb_default_pools :=
               match get_or_none b "default_pools" with
               | JNull => None
               | pools => Some pools
               end;
             lb_steering_policy := get_or_none b "steering_policy";
             lb_data := b |}
  end.

Fixpoint balancer_payloads (zone_id : nat) (balancers : list json)
    : result (list lb_row) :=
  match balancers with
  | [] => inr []
  | balancer :: rest =>
      match balancer_payload zone_id balancer with
      | inl e => inl e
      | inr row =>
          match balancer_payloads zone_id rest with
          | inl e => inl e
          | inr rows => inr (row :: rows)
          end
      end
  end.

Definition delete_zone_load_balancers (zone_id : nat) (d : db) : db :=
  set_load_balancers
    (List.filter (λ r, negb (lb_zone_id r.2 =? zone_id)) (lb_table d))
    (next_lb_id d) d.

Definition insert_load_balancers (rows : list lb_row) (d : db) : db :=
  set_load_balancers (lb_table d ++ numbered (next_lb_id d) rows)
    (next_lb_id d + length rows) d.

(** [replace_zone_load_balancers] *)
Definition replace_zone_load_balancers (zone_id : nat) (balancers : list json)
    : M (conn db) nat :=
  execute (delete_zone_load_balancers zone_id);;
  match balancers with
  | [] => ret 0
  | _ =>
      let* payloads := lift (balancer_payloads zone_id balancers) in
      execute (insert_load_balancers payloads);;
      ret (length balancers)
  end.

(** [UPDATE cloudflare_zones SET last_synced = NOW(), updated_at = NOW()
    WHERE id = %s] *)
Definition mark_synced (local_zone_id : nat) (d : db) : db :=
  set_zones
    (map (λ r, if z_id r =? local_zone_id
               then {| z_id := z_id r; z_account_id := z_account_id r;
                       z_cf_zone_id := z_cf_zone_id r; z_name := z_name r;
                       z_status := z_status r; z_paused := z_paused r;
                       z_zone_type := z_zone_type r;
                       z_plan_name := z_plan_name r;
                       z_last_synced := Some now; z_updated_at := Some now |}
               else r) (zones d))
    (next_zone_id d) d.

(** [zone["id"]] *)
Definition zone_id_of (zone : dict) : result json :=
  match get zone "id" with
  | Some v => inr v
  | None => inl (KeyError "id")
  end.

(** [sync_zone] *)
Definition sync_zone (account_id : nat) (zone : dict) : M (conn db) (nat * nat) :=
  let* zid := lift (zone_id_of zone) in
  let* records := lift (list_records cf_client zid) in
  let* balancers := lift (list_load_balancers cf_client zid) in
  let* local_zone_id := upsert_zone account_id zone in
  let* record_count := replace_zone_records local_zone_id records in
  let* lb_count := replace_zone_load_balancers local_zone_id balancers in
  execute (mark_synced local_zone_id);;
  commit;;
  ret (record_count, lb_count).

(** The body of [for zone in zones] in [sync_accounts]. *)
Definition sync_accounts_zone (account_id : string) (zone : json)
    (s : summary) : M (conn db) summary :=
  let* z := lift (as_dict zone) in
  let zone_id := get_or_none z "id" in
  if negb (truthy zone_id) then ret s
  else
    let* account_data :=
      lift (as_dict (por (get_or_none z "account")
                         (JObj [("id", JStr account_id);
                                ("name", JStr "Cloudflare")]))) in
    let* db_account_id :=
      upsert_account (get_default account_data "id" (JStr account_id))
                     (por (get_or_none account_data "name")
                          (JStr "Cloudflare account")) in
    commit;;
    try_except
      (let* '(record_count, lb_count) := sync_zone db_account_id z in
       ret {| s_zones := s_zones s + 1;
              s_records := s_records s + record_count;
              s_load_balancers := s_load_balancers s + lb_count |})
      is_cloudflare_error
      (λ _, rollback;; ret s).

(** The body of [for account_id in account_ids] in [sync_accounts]. *)
Definition sync_accounts_account (account_id : string) (s : summary)
    : M (conn db) summary :=
  let* listed :=
    try_except
      (let* zones := lift (list_zones cf_client account_id) in ret (Some zones))
      is_cloudflare_error
      (λ _, ret None) in
  match listed with
  | None => ret s
  | Some zones => for_each zones (sync_accounts_zone account_id) s
  end.

(** [sync_accounts] *)
Definition sync_accounts (account_ids : list string) : M (conn db) summary :=
  for_each account_ids sync_accounts_account
    {| s_zones := 0; s_records := 0; s_load_balancers := 0 |}.

End WithRuntime.

Record CloudflareConfig : Type := {
  base_url : string;
  email : option string;
  api_key : option string;
  api_token : option string;
  account_ids : list string
}.

(** [value.replace("\n", ",").split(",")] *)
Fixpoint split_list (current : string) (value : string) : list string :=
  match value with
  | EmptyString => [current]
  | String c rest =>
      if Ascii.eqb c "," || Ascii.eqb c "010"
      then current :: split_list EmptyString rest
      else split_list (current +:+ String c EmptyString) rest
  end.

(** [parse_account_list] *)
Definition parse_account_list (value : string) : list string :=
  if Config.is_empty value then []
  else List.filter (λ candidate, negb (Config.is_empty candidate))
         (Config.strip <$> split_list EmptyString value).

(** [main]. [loaded] is the outcome of the two [load_..._config] calls,
    [accounts] the [--accounts] argument, [api] the provider as seen
    with the configured credentials, and [server] the database behind
    the configured hosts. The result is the exit status of the process
    and the database it leaves. *)
Definition main (now : nat) (fromisoformat : string → option string)
    (loaded : result (CloudflareConfig * Hosts.DatabaseConfig))
    (accounts : option string)
    (api : CloudflareConfig → CloudflareClient)
    (t : Hosts.tape) (net : Hosts.host → Hosts.dial) (server : db)
    : Z * db :=
  match loaded with
  | inl _ => (1%Z, server)
  | inr (cf_cfg, db_cfg) =>
      let ids :=
        match accounts with
        | Some a => if Config.is_empty a then account_ids cf_cfg
                    else parse_account_list a
        | None => account_ids cf_cfg
        end in
      match ids with
      | [] => (1%Z, server)
      | _ =>
          match (Hosts.connect db_cfg t net).2 with
          | inl _ => (1%Z, server)
          | inr _ =>
              let '(c, r) :=
                sync_accounts now fromisoformat (api cf_cfg) ids (open server) in
              (* finally: conn.close() *)
              match r with
              | inr _ => (0%Z, committed c)
              | inl _ => (1%Z, committed c)
              end
          end
      end
  end.

End Engine.

(** ** The multi-user sync script *)

Module MultiUser.
Import Py Db.

(** *** The tables, by the columns the script names *)

Record account_row : Type := {
  a_id : nat;
  a_cf_account_id : string;
  a_name : string
}.

Record zone_row : Type := {
  z_id : nat;
  z_cf_zone_id : json;
  z_cf_account_id : nat;
  z_name : json;
  z_status : json;
  z_created_at : nat;
  z_updated_at : nat
}.

Record record_row : Type := {
  r_cf_record_id : json;
  r_cf_zone_id : nat;
  r_name : json;
  r_type : json;
  r_content : json;
  r_ttl : json;
  r_proxied : json;
  r_priority : json;
  r_created_at : nat;
  r_updated_at : nat
}.

(** A row of [dnsmanager_cloudflare_credentials]. [c_last_sync_error]
    holds the exception whose text [str(e)] is stored. *)
Record credential_row : Type := {
  c_id : nat;
  c_user_id : nat;
  c_account_id : nat;
  c_cf_email : string;
  c_cf_api_key : string;
  c_cf_account_id : string;
  c_cf_domain : option string;
  c_cf_api_url : option string;
  c_enabled : bool;
  c_auto_sync : bool;
  c_last_sync_at : option nat;
  c_last_sync_status : option string;
  c_last_sync_error : option exn
}.

Record db : Type := {
  accounts : list account_row;
  next_account_id : nat;
  zones : list zone_row;
  next_zone_id : nat;
  records : list record_row;
  credentials : list credential_row
}.

Definition set_accounts (l : list account_row) (n : nat) (d : db) : db :=
  {| accounts := l; next_account_id := n; zones := zones d;
     next_zone_id := next_zone_id d; records := records d;
     credentials := credentials d |}.

Definition set_zones (l : list zone_row) (n : nat) (d : db) : db :=
  {| accounts := accounts d; next_account_id := next_account_id d; zones := l;
     next_zone_id := n; records := records d; credentials := credentials d |}.

Definition set_records (l : list record_row) (d : db) : db :=
  {| accounts := accounts d; next_account_id := next_account_id d;
     zones := zones d; next_zone_id := next_zone_id d; records := l;
     credentials := credentials d |}.

Definition set_credentials (l : list credential_row) (d : db) : db :=
  {| accounts := accounts d; next_account_id := next_account_id d;
     zones := zones d; next_zone_id := next_zone_id d; records := records d;
     credentials := l |}.

(** *** Decryption of stored API keys *)

Definition hex_value (c : ascii) : option Z :=
  let n := nat_of_ascii c in
  if (48 <=? n) && (n <=? 57) then Some (Z.of_nat (n - 48))
  else if (97 <=? n) && (n <=? 102) then Some (Z.of_nat (n - 87))
  else if (65 <=? n) && (n <=? 70) then Some (Z.of_nat (n - 55))
  else None.

Definition is_ascii_space (c : ascii) : bool :=
  let n := nat_of_ascii c in ((9 <=? n) && (n <=? 13)) || (n =? 32).

(** [bytes.fromhex]: two hexadecimal digits per byte, white space
    allowed between bytes; [None] when it raises [ValueError]. *)
Fixpoint fromhex (s : string) : option (list Z) :=
  match s with
  | EmptyString => Some []
  | String c rest =>
      if is_ascii_space c then fromhex rest
      else
        match rest with
        | String c' rest' =>
            match hex_value c, hex_value c' with
            | Some hi, Some lo => cons (16 * hi + lo)%Z <$> fromhex rest'
            | _, _ => None
            end
        | EmptyString => None
        end
  end.

(** [s.split(":")] *)
Fixpoint split_colon (current : string) (s : string) : list string :=
  match s with
  | EmptyString => [current]
  | String c rest =>
      if Ascii.eqb c ":" then current :: split_colon EmptyString rest
      else split_colon (current +:+ String c EmptyString) rest
  end.

Section WithRuntime.

(** [now] is what [NOW()] yields during the run. [ENCRYPTION_KEY] is
    the module constant. [decrypt_and_verify key iv encrypted auth_tag]
    stands for AES-GCM decryption under [key] followed by UTF-8
    decoding: the plain text, or [None] when the tag does not verify or
    either step raises. [api] is the provider as seen with a given set
    of credentials. *)
Variable now : nat.
Variable ENCRYPTION_KEY : string.
Variable decrypt_and_verify : string → list Z → list Z → list Z → option string.
Variable api : Engine.CloudflareConfig → Engine.CloudflareClient.

(** [decrypt_api_key]: every failure is logged and raised again. *)
Definition decrypt_api_key (encrypted_data : string) : result string :=
  match split_colon EmptyString encrypted_data with
  | [p0; p1; p2] =>
      match fromhex p0, fromhex p1, fromhex p2 with
      | Some iv, Some auth_tag, Some encrypted =>
          match decrypt_and_verify ENCRYPTION_KEY iv encrypted auth_tag with
          | Some plain => inr plain
          | None => inl (ValueError "MAC check failed")
          end
      | _, _, _ => inl (ValueError "non-hexadecimal number found in fromhex()")
      end
  | _ => inl (ValueError "Invalid encrypted data format")
  end.

(** [UserCloudflareCredential] *)
Record UserCloudflareCredential : Type := {
  id : nat;
  user_id : nat;
  account_id : nat;
  cf_email : string;
  cf_api_key : string;
  cf_account_id : string;
  cf_domain : option string;
  cf_api_url : string;
  enabled : bool;
  auto_sync : bool
}.

Definition DEFAULT_CF_API : string := "https://api.cloudflare.com/client/v4".

Inductive log_line : Type :=
  | LoadedCredential (credential_id : nat)
  | FailedToLoadCredential (credential_id : nat) (e : exn).

(** The [for row in cursor.fetchall()] loop of [load_user_credentials]. *)
Fixpoint load_rows (rows : list credential_row)
    : list UserCloudflareCredential * list log_line :=
  match rows with
  | [] => ([], [])
  | row :: rest =>
      let '(creds, log) := load_rows rest in
      match decrypt_api_key (c_cf_api_key row) with
      | inr decrypted_api_key =>
          ({| id := c_id row; user_id := c_user_id row;
              account_id := c_account_id row; cf_email := c_cf_email row;
              cf_api_key := decrypted_api_key;
              cf_account_id := c_cf_account_id row;
              cf_domain := c_cf_domain row;
              cf_api_url :=
                match c_cf_api_url row with
                | Some url => if Config.is_empty url then DEFAULT_CF_API else url
                | None => DEFAULT_CF_API
                end;
              enabled := c_enabled row; auto_sync := c_auto_sync row |}
             :: creds,
           LoadedCredential (c_id row) :: log)
      | inl e => (creds, FailedToLoadCredential (c_id row) e :: log)
      end
  end.

(** [load_user_credentials] *)
Definition load_user_credentials (d : db)
    : list UserCloudflareCredential * list log_line :=
  load_rows (List.filter (λ row, c_enabled row && c_auto_sync row)
               (credentials d)).

(** [update_credential_sync_status] *)
Definition update_credential_sync_status (credential_id : nat)
    (status : string) (error : option exn) : M (conn db) unit :=
  execute (λ d,
    set_credentials
      (map (λ row,
              if c_id row =? credential_id
              then {| c_id := c_id row; c_user_id := c_user_id row;
                      c_account_id := c_account_id row;
                      c_cf_email := c_cf_email row;
                      c_cf_api_key := c_cf_api_key row;
                      c_cf_account_id := c_cf_account_id row;
                      c_cf_domain := c_cf_domain row;
                      c_cf_api_url := c_cf_api_url row;
                      c_enabled := c_enabled row;
                      c_auto_sync := c_auto_sync row;
                      c_last_sync_at := Some now;
                      c_last_sync_status := Some status;
                      c_last_sync_error := error |}
              else row) (credentials d)) d);;
  commit.

(** The local counters of [sync_cloudflare_account]. *)
Record counters : Type := {
  zones_synced : nat;
  records_synced : nat;
  errors : nat
}.

Definition frame : Type := conn db * counters.

Definition count_zone (k : counters) : counters :=
  {| zones_synced := zones_synced k + 1; records_synced := records_synced k;
     errors := errors k |}.

Definition count_record (k : counters) : counters :=
  {| zones_synced := zones_synced k; records_synced := records_synced k + 1;
     errors := errors k |}.

Definition count_error (k : counters) : counters :=
  {| zones_synced := zones_synced k; records_synced := records_synced k;
     errors := errors k + 1 |}.

(** The account row is looked up and created when missing. *)
Definition get_or_create_account (cf_account_id : string) : M (conn db) nat :=
  let* row :=
    query (λ d, (d, List.find (λ r, String.eqb (a_cf_account_id r) cf_account_id)
                      (accounts d))) in
  match row with
  | Some r => ret (a_id r)
  | None =>
      let* account_db_id :=
        query (λ d,
          (set_accounts
             (accounts d ++
              [{| a_id := next_account_id d; a_cf_account_id := cf_account_id;
                  a_name := "Account " +:+ str_take 8 cf_account_id |}])
             (S (next_account_id d)) d,
           next_account_id d)) in
      commit;;
      ret account_db_id
  end.

(** [INSERT INTO cloudflare_zones ... ON DUPLICATE KEY UPDATE]; the
    unique key is the provider's zone id. *)
Definition upsert_zone (zone_id : json) (account_db_id : nat)
    (zone_name status : json) (d : db) : db :=
  let hit r := json_eqb (z_cf_zone_id r) zone_id in
  match List.find hit (zones d) with
  | Some _ =>
      let upd r := {| z_id := z_id r; z_cf_zone_id := z_cf_zone_id r;
                      z_cf_account_id := z_cf_account_id r;
                      z_name := zone_name; z_status := status;
                      z_created_at := z_created_at r; z_updated_at := now |} in
      set_zones (Engine.update_first hit upd (zones d)) (next_zone_id d) d
  | None =>
      set_zones
        (zones d ++
         [{| z_id := next_zone_id d; z_cf_zone_id := zone_id;
             z_cf_account_id := account_db_id; z_name := zone_name;
             z_status := status; z_created_at := now; z_updated_at := now |}])
        (S (next_zone_id d)) d
  end.

(** [INSERT INTO cloudflare_records ... ON DUPLICATE KEY UPDATE]; the
    unique key is the provider's record id. *)
Definition upsert_record (record_id : json) (zone_db_id : nat)
    (name type content ttl proxied priority : json) (d : db) : db :=
  let hit r := json_eqb (r_cf_record_id r) record_id in
  match List.find hit (records d) with
  | Some _ =>
      let upd r := {| r_cf_record_id := r_cf_record_id r;
                      r_cf_zone_id := r_cf_zone_id r;
                      r_name := name; r_type := type; r_content := content;
                      r_ttl := ttl; r_proxied := proxied;
                      r_priority := priority;
                      r_created_at := r_created_at r; r_updated_at := now |} in
      set_records (Engine.update_first hit upd (records d)) d
  | None =>
      set_records
        (records d ++
         [{| r_cf_record_id := record_id; r_cf_zone_id := zone_db_id;
             r_name := name; r_type := type; r_content := content;
             r_ttl := ttl; r_proxied := proxied; r_priority := priority;
             r_created_at := now; r_updated_at := now |}]) d
  end.

(** Statements run on the connection of a frame, and updates of its
    counters. *)
Definition on_conn {A} (m : M (conn db) A) : M frame A :=
  λ f, let '(c, r) := m f.1 in ((c, f.2), r).

Definition count (g : counters → counters) : M frame unit :=
  λ f, ((f.1, g f.2), inr ()).

(** The body of [for record in records]. *)
Definition sync_record (zone_id : json) (record : json) (_ : unit)
    : M frame unit :=
  try_except
    (let* r := lift (Engine.as_dict record) in
     let record_id := get_or_none r "id" in
     let record_name := get_or_none r "name" in
     let record_type := get_or_none r "type" in
     let record_content := get_or_none r "content" in
     if negb (truthy record_id && truthy record_name
              && truthy record_type && truthy record_content)
     then count count_error
     else
       let* zone_db_row :=
         on_conn (query (λ d,
           (d, List.find (λ z, json_eqb (z_cf_zone_id z) zone_id) (zones d)))) in
       match zone_db_row with
       | None => count count_error
       | Some z =>
           on_conn (execute
             (upsert_record record_id (z_id z) record_name record_type
                record_content (get_default r "ttl" (JNum 1))
                (get_default r "proxied" (JBool false))
                (get_default r "priority" (JNum 0))));;
           on_conn commit;;
           count count_record
       end)
    (λ _, true)
    (λ _,
       (* the log line formats [record.get('id')] *)
       lift (Engine.as_dict record);;
       count count_error).

(** The body of [for zone in zones]. *)
Definition sync_zone (account_db_id : nat) (cf_client : Engine.CloudflareClient)
    (cf_domain : option string) (zone : json) (_ : unit) : M frame unit :=
  let* skip :=
    match cf_domain with
    | Some domain =>
        if Config.is_empty domain then ret false
        else
          let* z := lift (Engine.as_dict zone) in
          ret (negb (json_eqb (get_or_none z "name") (JStr domain)))
    | None => ret false
    end in
  if skip : bool then ret ()
  else
    try_except
      (let* z := lift (Engine.as_dict zone) in
       let zone_id := get_or_none z "id" in
       let zone_name := get_or_none z "name" in
       if negb (truthy zone_id) || negb (truthy zone_name)
       then count count_error
       else
         on_conn (execute
           (upsert_zone zone_id account_db_id zone_name
              (get_default z "status" (JStr "active"))));;
         on_conn commit;;
         count count_zone;;
         let* records := lift (Engine.list_records cf_client zone_id) in
         for_each records (sync_record zone_id) ())
      (λ _, true)
      (λ _,
         (* the log line formats [zone.get('name')] *)
         lift (Engine.as_dict zone);;
         count count_error).

(** [if credential_id:] *)
Definition has_credential (credential_id : option nat) : option nat :=
  match credential_id with
  | Some 0 => None
  | other => other
  end.

(** [sync_cloudflare_account] *)
Definition sync_cloudflare_account (cf_client : Engine.CloudflareClient)
    (cf_account_id : string) (cf_domain : option string)
    (credential_id : option nat) (user_id : option nat)
    : M (conn db) (nat * nat * nat) :=
  λ c,
    let '((c', _), r) :=
      try_except
        (let* account_db_id := on_conn (get_or_create_account cf_account_id) in
         let* zones := lift (Engine.list_zones cf_client cf_account_id) in
         for_each zones (sync_zone account_db_id cf_client cf_domain) ();;
         λ f, (f, inr (zones_synced f.2, records_synced f.2, errors f.2)))
        (λ _, true)
        (λ e,
           count count_error;;
           match has_credential credential_id with
           | Some cid => on_conn (update_credential_sync_status cid "failed" (Some e))
           | None => ret ()
           end;;
           raise e)
        (c, {| zones_synced := 0; records_synced := 0; errors := 0 |}) in
    (c', r).

(** The running totals of [main]. *)
Record totals : Type := {
  total_zones : nat;
  total_records : nat;
  total_errors : nat
}.

Definition add_totals (r : nat * nat * nat) (t : totals) : totals :=
  {| total_zones := total_zones t + r.1.1;
     total_records := total_records t + r.1.2;
     total_errors := total_errors t + r.2 |}.

Definition add_error (t : totals) : totals :=
  {| total_zones := total_zones t; total_records := total_records t;
     total_errors := total_errors t + 1 |}.

Definition on_db {A} (m : M (conn db) A) : M (conn db * totals) A :=
  λ f, let '(c, r) := m f.1 in ((c, f.2), r).

Definition tally (g : totals → totals) : M (conn db * totals) unit :=
  λ f, ((f.1, g f.2), inr ()).

Definition is_config_or_cloudflare_error (e : exn) : bool :=
  match e with
  | ConfigError _ | CloudflareError _ => true
  | _ => false
  end.

(** The global credentials part of [main]; [cf_config] is the outcome
    of [load_cloudflare_config]. *)
Definition sync_global (cf_config : result Engine.CloudflareConfig)
    : M (conn db * totals) unit :=
  try_except
    (let* cfg := lift cf_config in
     let cf_client := api cfg in
     for_each (Engine.account_ids cfg)
       (λ cf_account_id _,
          let* r := on_db (sync_cloudflare_account cf_client cf_account_id
                             None None None) in
          tally (add_totals r))
       ())
    is_config_or_cloudflare_error
    (λ _, tally add_error).

(** The body of [for cred in user_creds] in [main]. *)
Definition sync_user (cred : UserCloudflareCredential) (_ : unit)
    : M (conn db * totals) unit :=
  try_except
    (let cf_config :=
       {| Engine.base_url := cf_api_url cred;
          Engine.email := Some (cf_email cred);
          Engine.api_key := Some (cf_api_key cred);
          Engine.api_token := None;
          Engine.account_ids := [cf_account_id cred] |} in
     let cf_client := api cf_config in
     let* r := on_db (sync_cloudflare_account cf_client (cf_account_id cred)
                        (cf_domain cred) (Some (id cred))
                        (Some (user_id cred))) in
     tally (add_totals r);;
     let status := if r.2 =? 0 then "success" else "partial" in
     on_db (update_credential_sync_status (id cred) status None))
    (λ _, true)
    (λ e,
       on_db (update_credential_sync_status (id cred) "failed" (Some e));;
       tally add_error).

(** [main]. [connected] is the outcome of loading the database
    configuration and connecting, [server] the database reached,
    [cf_config_file] the outcome of [load_cloudflare_config] when the
    file exists. The result is the exit status of the process and the
    database it leaves. *)
Definition main (connected : result Hosts.host) (server : db)
    (skip_global skip_users : bool)
    (cf_config_file : option (result Engine.CloudflareConfig))
    : Z * db :=
  match connected with
  | inl _ => (1%Z, server)
  | inr _ =>
      let run : M (conn db * totals) unit :=
        match cf_config_file with
        | Some cf_config => if skip_global then ret () else sync_global cf_config
        | None => ret ()
        end;;
        if skip_users then ret ()
        else
          let* user_creds := λ f, (f, inr (load_user_credentials (working f.1)).1) in
          for_each user_creds sync_user () in
      let '((c, t), r) :=
        run (open server,
             {| total_zones := 0; total_records := 0; total_errors := 0 |}) in
      match r with
      | inr _ => (if total_errors t =? 0 then 0%Z else 1%Z, committed c)
      | inl _ => (1%Z, committed c)
      end
  end.

End WithRuntime.

End MultiUser.

(** ** Loading the configuration files *)

Module Loader.
Import Py.

Definition DEFAULT_CF_API : string := "https://api.cloudflare.com/client/v4".

Definition HOST_KEYS : list string := ["db-host"; "db-host2"; "db-host3"; "db-host4"].

(** [s.count(c)] *)
Fixpoint count (c : ascii) (s : string) : nat :=
  match s with
  | EmptyString => 0
  | String c' s' => (if Ascii.eqb c' c then 1 else 0) + count c s'
  end.

(** [s.find(c)] and [s.rfind(c)]: the first and the last position of
    [c], -1 when there is none. *)
Fixpoint find (c : ascii) (s : string) : Z :=
  match s with
  | EmptyString => -1
  | String c' s' =>
      if Ascii.eqb c' c then 0
      else let i := find c s' in if (i <? 0)%Z then -1 else (1 + i)%Z
  end.

Fixpoint rfind (c : ascii) (s : string) : Z :=
  match s with
  | EmptyString => -1
  | String c' s' =>
      let i := rfind c s' in
      if (0 <=? i)%Z then (1 + i)%Z
      else if Ascii.eqb c' c then 0 else -1
  end.

(** [s.index(c)], used where [c in s]. *)
Fixpoint index (c : ascii) (s : string) : nat :=
  match s with
  | EmptyString => 0
  | String c' s' => if Ascii.eqb c' c then 0 else S (index c s')
  end.

(** [s[i:]] *)
Fixpoint str_drop (i : nat) (s : string) : string :=
  match i, s with
  | S i', String _ s' => str_drop i' s'
  | _, _ => s
  end.

(** [s[i:j]] *)
Definition slice (i j : nat) (s : string) : string :=
  str_drop i (str_take j s).

(** [int(text)] inside [try: ... except ValueError], with the value kept
    when it raises. *)
Definition int_or (text : string) (port : Z) : Z :=
  default port (Client.int_of_str text).

(** [parse_host_entry] *)
Definition parse_host_entry (entry : string) : string * Z :=
  let entry := Config.strip entry in
  let port := 3306%Z in
  let host := entry in
  if Config.startswith "[" entry && Config.contains "]" entry then
    let idx := index "]" entry in
    let host := slice 1 idx entry in
    if (idx + 1 <? String.length entry)
       && bool_decide (String.get (idx + 1) entry = Some ":"%char)
    then (host, int_or (str_drop (idx + 2) entry) port)
    else (host, port)
  else if (count ":" entry =? 1) && (find ":" entry =? rfind ":" entry)%Z then
    let host_part := Config.before ":" entry in
    let port_part := Config.after ":" entry in
    let host := if Config.is_empty host_part then host else host_part in
    if Config.is_empty port_part then (host, port)
    else (host, int_or port_part 3306)
  else (host, port).

(** [x or y] on values that are a string or [None]. *)
Definition filled (x : option string) : bool :=
  match x with
  | Some s => negb (Config.is_empty s)
  | None => false
  end.

Definition or_else (x y : option string) : option string :=
  if filled x then x else y.

(** [str.lower] on the code points below 256. *)
Definition lower_char (c : ascii) : ascii :=
  let n := nat_of_ascii c in
  if ((65 <=? n) && (n <=? 90))
     || ((192 <=? n) && (n <=? 222) && negb (n =? 215))
  then ascii_of_nat (n + 32) else c.

Fixpoint lower (s : string) : string :=
  match s with
  | EmptyString => EmptyString
  | String c s' => String (lower_char c) (lower s')
  end.

(** The hosts named by the keys of [HOST_KEYS] that have a value. *)
Definition keyed_hosts (raw : gmap string string) : list Hosts.host :=
  HOST_KEYS ≫= λ key,
    let val := raw !! key in
    if filled val then [parse_host_entry (default EmptyString val)] else [].

(** [load_db_config], from the configuration [parse_simple_config] read. *)
Definition db_config_of (raw : gmap string string) : result Hosts.DatabaseConfig :=
  let user := or_else (raw !! "db-user") (raw !! "mysql-user") in
  let password :=
    or_else (or_else (raw !! "db-password") (raw !! "mysql-password"))
            (raw !! "mysql-pass") in
  let database := raw !! "database" in
  if negb (filled user) || bool_decide (password = None) || negb (filled database)
  then inl (ConfigError "database connection details missing")
  else
    let hosts := keyed_hosts raw in
    let hosts :=
      match hosts with
      | [] =>
          let legacy := or_else (raw !! "mysql-host") (raw !! "db-host") in
          if filled legacy
          then hosts ++ [parse_host_entry (default EmptyString legacy)]
          else hosts
      | _ => hosts
      end in
    let hosts :=
      match hosts with
      | [] => hosts ++ [("localhost", 3306%Z)]
      | _ => hosts
      end in
    let policy :=
      lower (Config.strip (default "sequential" (raw !! "db-host-policy"))) in
    let policy :=
      if Hosts.str_in policy Hosts.VALID_POLICIES then policy
      else "sequential" in
    inr {| Hosts.user := default EmptyString user;
           Hosts.password := default EmptyString password;
           Hosts.database := default EmptyString database;
           Hosts.hosts := hosts; Hosts.policy := policy |}.

Definition load_db_config (file : Config.file)
    : result Hosts.DatabaseConfig :=
  match Config.parse_simple_config file with
  | inl e => inl e
  | inr raw => db_config_of raw
  end.

(** [load_cloudflare_config], from the configuration
    [parse_simple_config] read. *)
Definition cloudflare_config_of (raw : gmap string string)
    : result Engine.CloudflareConfig :=
  let account_ids :=
    Engine.parse_account_list (default EmptyString (raw !! "cf_account_ids")) in
  match account_ids with
  | [] => inl (ConfigError "cf_account_ids missing")
  | _ =>
      let api_base :=
        Config.rstrip_by (Ascii.eqb "/") (default DEFAULT_CF_API (raw !! "api")) in
      let email := raw !! "email" in
      let api_key := raw !! "api_key" in
      let api_token := raw !! "api_token" in
      if negb (filled api_token) && (negb (filled email) || negb (filled api_key))
      then inl (ConfigError "Cloudflare credentials incomplete")
      else inr {| Engine.base_url := api_base; Engine.email := email;
                  Engine.api_key := api_key; Engine.api_token := api_token;
                  Engine.account_ids := account_ids |}
  end.

Definition load_cloudflare_config (file : Config.file)
    : result Engine.CloudflareConfig :=
  match Config.parse_simple_config file with
  | inl e => inl e
  | inr raw => cloudflare_config_of raw
  end.

(** [CloudflareClient.__init__]: [self.base] *)
Definition base (config : Engine.CloudflareConfig) : string :=
  Config.rstrip_by (Ascii.eqb "/") (Engine.base_url config).

(** [CloudflareClient.headers]; [x or ""] is the text of [x], empty
    when [x] is [None]. *)
Definition headers (config : Engine.CloudflareConfig) : gmap string string :=
  let headers : gmap string string := {[ "Content-Type" := "application/json" ]} in
  if filled (Engine.api_token config)
  then <["Authorization" :=
           "Bearer " +:+ default EmptyString (Engine.api_token config)]> headers
  else
    <["X-Auth-Key" := default EmptyString (Engine.api_key config)]>
      (<["X-Auth-Email" := default EmptyString (Engine.email config)]> headers).

(** The [url] of [CloudflareClient.request]:
    ["{}/{}".format(self.base, path.lstrip("/"))]. *)
Definition url (config : Engine.CloudflareConfig) (path : string) : string :=
  base config +:+ "/" +:+ Config.lstrip_by (Ascii.eqb "/") path.

End Loader.

(** ** The configuration of the pool sync script *)

Module Pools.
Import Py.



(** [get_cf_credentials]; [file] holds the lines of
    [/etc/mydns/cloudflare.ini]. *)
Definition get_cf_credentials (file : Config.file)
    : option string * option string :=
  let config := Config.parse_config_file file in
  (config !! "email", config !! "api_key").

End Pools.

(** * Theorems *)

(** ** Host selection and failover *)

Section HostSelector.
Import Hosts.

Lemma swap_Permutation {A} (x : list A) i j : swap x i j ≡ₚ x.
Proof.
  unfold swap.
  destruct (x !! i) as [xi|] eqn:Hi; [|done].
  destruct (x !! j) as [xj|] eqn:Hj; [|done].
  by apply Permutation_insert_swap.
Qed.

Lemma shuffle_from_Permutation {A} i (x : list A) t :
  shuffle_from i x t ≡ₚ x.
Proof.
  revert x t. induction i as [|i IH]; intros x t; simpl; [done|].
  rewrite IH. apply swap_Permutation.
Qed.

Lemma shuffle_Permutation {A} (x : list A) t : shuffle x t ≡ₚ x.
Proof. apply shuffle_from_Permutation. Qed.

Lemma rotation_Permutation {A} (x : list A) k : drop k x ++ take k x ≡ₚ x.
Proof. by rewrite Permutation_app_comm, take_drop. Qed.

Lemma randint_range a b t : a ≤ b → a ≤ randint a b t ≤ b.
Proof.
  intros Hab. unfold randint.
  pose proof (Nat.mod_upper_bound (hd 0 t) (b - a + 1)). lia.
Qed.

Lemma ordered_hosts_Permutation config t :
  ordered_hosts config t ≡ₚ hosts config.
Proof.
  unfold ordered_hosts.
  destruct (_ && _).
  - apply rotation_Permutation.
  - destruct (str_in _ _); [apply shuffle_Permutation|done].
Qed.

(** C9: whatever the policy, the order handed to [connect] is a
    permutation of the configured candidates. [sequential] keeps the
    list as configured, [round-robin] rotates it from a drawn start
    position, [least-used] shuffles it, and a policy outside
    [VALID_POLICIES] behaves like [sequential]. *)
Theorem ordered_hosts_by_policy (config : DatabaseConfig) (t : tape) :
  let hs := hosts config in
  let out := ordered_hosts config t in
  out ≡ₚ hs
  ∧ (policy config = "sequential" → out = hs)
  ∧ (policy config = "round-robin" →
       ∃ start, start ≤ length hs - 1 ∧ out = drop start hs ++ take start hs)
  ∧ (policy config = "least-used" → out = shuffle hs t ∧ out ≡ₚ hs)
  ∧ (str_in (policy config) VALID_POLICIES = false → out = hs).
Proof.
  intros hs out. split; [apply ordered_hosts_Permutation|].
  subst out; unfold ordered_hosts; fold hs.
  split; [by intros ->|].
  split.
  { intros ->. simpl. case_bool_decide as Hnil; simpl.
    - exists 0. rewrite Hnil. done.
    - exists (randint 0 (length hs - 1) t). split; [|done].
      pose proof (randint_range 0 (length hs - 1) t). lia. }
  split.
  { intros ->. simpl. split; [done|]. apply shuffle_Permutation. }
  intros Hunknown.
  destruct (policy config) as [|c p] eqn:Hp; [done|].
  unfold str_in, VALID_POLICIES in Hunknown. simpl in Hunknown.
  repeat (apply orb_false_elim in Hunknown as [? Hunknown]).
  unfold str_in. simpl.
  repeat match goal with H : _ = false |- _ => rewrite H; clear H end.
  done.
Qed.

Definition three_hosts : list host :=
  [("db1", 3306%Z); ("db2", 3306%Z); ("db3", 3307%Z)].

Definition config_with (p : string) : DatabaseConfig :=
  {| user := "mydns"; password := "secret"; database := "mydns";
     hosts := three_hosts; policy := p |}.

Lemma ordered_hosts_by_policy_witness :
  ordered_hosts (config_with "fastest") [1] = three_hosts.
Proof.
  apply (ordered_hosts_by_policy (config_with "fastest") [1]).
  reflexivity.
Defined.

(** The lines logged for candidates that all refuse. *)
Definition failure_lines (net : host → dial) (hs : list host) : list log_line :=
  hs ≫= λ h, match net h with
             | Accepts => []
             | Refuses err => [Attempting h; Failed h err]
             end.

Lemma failure_lines_cons net h hs :
  failure_lines net (h :: hs)
  = match net h with
    | Accepts => []
    | Refuses err => [Attempting h; Failed h err]
    end ++ failure_lines net hs.
Proof. done. Qed.

Lemma attempts_app l1 l2 : attempts (l1 ++ l2) = attempts l1 + attempts l2.
Proof. unfold attempts. by rewrite filter_app, length_app. Qed.

Lemma attempts_failure_lines net hs :
  Forall (λ h, net h ≠ Accepts) hs →
  attempts (failure_lines net hs) = length hs.
Proof.
  induction 1 as [|h hs Hh _ IH]; [done|].
  rewrite failure_lines_cons.
  destruct (net h) eqn:E; [done|].
  rewrite attempts_app, IH. done.
Qed.

Lemma connect_loop_exhausted net hs last log :
  Forall (λ h, net h ≠ Accepts) hs →
  ∃ msg, connect_loop net hs last log
         = (log ++ failure_lines net hs, inl (Py.ConfigError msg)).
Proof.
  intros Hall. revert last log.
  induction Hall as [|h hs Hh _ IH]; intros last log; simpl.
  - eexists. by rewrite app_nil_r.
  - destruct (net h) as [|err] eqn:E; [done|].
    destruct (IH (Some err) (log ++ [Attempting h; Failed h err])) as [msg ->].
    exists msg. by rewrite <-app_assoc.
Qed.

Lemma connect_loop_first net hs i h last log :
  list_find (λ h, net h = Accepts) hs = Some (i, h) →
  connect_loop net hs last log
  = (log ++ failure_lines net (take i hs) ++ [Attempting h; Connected h],
     inr h).
Proof.
  revert i last log. induction hs as [|h' hs IH]; intros i last log; [done|].
  simpl. case_decide as Hacc.
  - intros [= <- <-]. by rewrite Hacc.
  - destruct (list_find _ hs) as [[j x]|] eqn:Hfind; [|done].
    intros [= <- <-]. simpl.
    destruct (net h') as [|err] eqn:E; [done|].
    rewrite (IH j); [|done].
    by rewrite <-!app_assoc.
Qed.

(** C8 (amended): [connect] walks the candidates in the order selected
    by [ordered_hosts]. It returns a connection to the first candidate
    of that order that accepts, after one logged failure for each
    candidate before it; it raises only when every candidate refused,
    having attempted each exactly once. With three candidates of which
    only the last one of the selected order accepts, it connects after
    exactly three attempts. *)
Theorem connect_failover (config : DatabaseConfig) (t : tape) (net : host → dial) :
  let order := ordered_hosts config t in
  let '(log, res) := connect config t net in
  match list_find (λ h, net h = Accepts) order with
  | Some (i, h) =>
      res = inr h
      ∧ log = failure_lines net (take i order) ++ [Attempting h; Connected h]
      ∧ attempts log = S i
  | None =>
      (∃ msg, res = inl (Py.ConfigError msg))
      ∧ log = failure_lines net order
      ∧ attempts log = length order
  end
  ∧ ∀ h1 h2 h3,
      order = [h1; h2; h3] →
      net h1 ≠ Accepts → net h2 ≠ Accepts → net h3 = Accepts →
      res = inr h3 ∧ attempts log = 3.
Proof.
  intros order. unfold connect. fold order.
  destruct (connect_loop net order None []) as [log res] eqn:Hrun.
  split.
  - destruct (list_find _ order) as [[i h]|] eqn:Hfind.
    + rewrite (connect_loop_first _ _ _ _ _ _ Hfind) in Hrun.
      injection Hrun as <- <-. simpl. split; [done|]. split; [done|].
      apply list_find_Some in Hfind as (Hi & _ & Hbefore).
      rewrite attempts_app, attempts_failure_lines.
      * change (attempts [Attempting h; Connected h]) with 1.
        apply lookup_lt_Some in Hi. rewrite length_take_le; lia.
      * apply Forall_forall. intros x [j Hj]%list_elem_of_lookup.
        apply lookup_take_Some in Hj as [Hj Hlt]. by eapply Hbefore.
    + assert (Forall (λ h, net h ≠ Accepts) order) as Hall.
      { apply list_find_None in Hfind. done. }
      destruct (connect_loop_exhausted net order None [] Hall) as [msg Hmsg].
      rewrite Hmsg in Hrun. injection Hrun as <- <-. simpl.
      split; [by eexists|]. split; [done|].
      by apply attempts_failure_lines.
  - intros h1 h2 h3 Horder H1 H2 H3. rewrite Horder in Hrun. simpl in Hrun.
    destruct (net h1); [done|]. destruct (net h2); [done|].
    rewrite H3 in Hrun. injection Hrun as <- <-. done.
Qed.

(** Only the third configured host accepts connections. *)
Definition only_third (h : host) : dial :=
  if bool_decide (h = ("db3", 3307%Z)) then Accepts else Refuses "timed out".

Lemma connect_failover_witness :
  (connect (config_with "sequential") [] only_third).2 = inr ("db3", 3307%Z)
  ∧ attempts (connect (config_with "sequential") [] only_third).1 = 3.
Proof.
  pose proof (connect_failover (config_with "sequential") [] only_third) as H.
  destruct (connect _ _ _) as [log res]. simpl in *.
  destruct H as [_ H].
  apply (H ("db1", 3306%Z) ("db2", 3306%Z) ("db3", 3307%Z)); done.
Defined.

(** C8 as stated fails under the rotating policy: with three
    configured hosts of which only the third accepts, a rotation that
    starts at the third host connects at the first attempt. *)
Lemma connect_third_host_single_attempt :
  hosts (config_with "round-robin") = three_hosts
  ∧ map only_third three_hosts = [Refuses "timed out"; Refuses "timed out"; Accepts]
  ∧ (connect (config_with "round-robin") [2] only_third).2 = inr ("db3", 3307%Z)
  ∧ attempts (connect (config_with "round-robin") [2] only_third).1 = 1
  ∧ attempts (connect (config_with "round-robin") [2] only_third).1 ≠ 3.
Proof. vm_compute. repeat split; done. Qed.

End HostSelector.

(** ** Configuration parsing *)

Section ConfigParsing.
Import Config.

Lemma contains_before c s : contains c (before c s) = false.
Proof.
  induction s as [|c' s IH]; [done|]. simpl.
  destruct (Ascii.eqb c' c) eqn:E; [done|]. simpl. by rewrite E.
Qed.

Lemma contains_lstrip_by p c s :
  contains c s = false → contains c (lstrip_by p s) = false.
Proof.
  induction s as [|c' s IH]; [done|]. simpl.
  intros [? ?]%orb_false_elim. destruct (p c'); [auto|].
  simpl. by apply orb_false_intro.
Qed.

Lemma contains_rstrip_by p c s :
  contains c s = false → contains c (rstrip_by p s) = false.
Proof.
  induction s as [|c' s IH]; [done|]. simpl.
  intros [? ?]%orb_false_elim. destruct (p c' && _); [done|].
  simpl. apply orb_false_intro; auto.
Qed.

Lemma contains_strip_by p c s :
  contains c s = false → contains c (strip_by p s) = false.
Proof. intros. by apply contains_rstrip_by, contains_lstrip_by. Qed.

Lemma contains_after c d s :
  contains c s = false → contains c (after d s) = false.
Proof.
  induction s as [|c' s IH]; [done|]. simpl.
  intros [? ?]%orb_false_elim. destruct (Ascii.eqb c' d); auto.
Qed.

Lemma before_absent c s : contains c s = false → before c s = s.
Proof.
  induction s as [|c' s IH]; [done|]. simpl.
  intros [-> ?]%orb_false_elim. by rewrite IH.
Qed.

Lemma rstrip_by_idem p s : rstrip_by p (rstrip_by p s) = rstrip_by p s.
Proof.
  induction s as [|c s IH]; [done|]. simpl.
  destruct (p c) eqn:Hp; simpl.
  - destruct (rstrip_by p s) eqn:Hr; simpl; [done|].
    rewrite Hp. simpl in IH. rewrite IH. done.
  - rewrite Hp, IH. done.
Qed.

Lemma lstrip_by_stuck p s :
  match s with String c _ => p c = false | EmptyString => True end →
  lstrip_by p s = s.
Proof. destruct s as [|c s]; [done|]. simpl. by intros ->. Qed.

Lemma lstrip_by_head p s :
  match lstrip_by p s with String c _ => p c = false | EmptyString => True end.
Proof.
  induction s as [|c s IH]; [done|]. simpl.
  destruct (p c) eqn:Hp; [done|]. done.
Qed.

Lemma rstrip_by_head p s :
  match s with String c _ => p c = false | EmptyString => True end →
  match rstrip_by p s with String c _ => p c = false | EmptyString => True end.
Proof.
  destruct s as [|c s]; [done|]. simpl. intros Hc. by rewrite Hc.
Qed.

Lemma strip_by_idem p s : strip_by p (strip_by p s) = strip_by p s.
Proof.
  unfold strip_by.
  rewrite (lstrip_by_stuck p (rstrip_by p (lstrip_by p s))).
  - apply rstrip_by_idem.
  - apply rstrip_by_head, lstrip_by_head.
Qed.

Definition hash_free (data : gmap string string) : Prop :=
  map_Forall (λ k v, contains "#" k = false ∧ contains "#" v = false) data.

Lemma contains_strip c s : contains c s = false → contains c (strip s) = false.
Proof. apply contains_strip_by. Qed.

Lemma strip_idem s : strip (strip s) = strip s.
Proof. apply strip_by_idem. Qed.

Lemma startswith_contains c s : contains c s = false → startswith c s = false.
Proof. destruct s as [|c' s]; [done|]. simpl. by intros [-> _]%orb_false_elim. Qed.

Lemma parse_line_truncates data raw :
  parse_line data raw = parse_line data (before "#" (strip raw)).
Proof.
  unfold parse_line at 1.
  destruct (is_empty (strip raw) || startswith "#" (strip raw)) eqn:Hskip.
  { unfold parse_line. destruct (strip raw) as [|c l]; [done|].
    simpl in Hskip. simpl. rewrite Hskip. done. }
  destruct (contains "#" (strip raw)) eqn:Hhash.
  - unfold parse_line.
    pose proof (contains_strip _ _ (contains_before "#" (strip raw))) as Hc.
    set (line := strip (before "#" (strip raw))) in *.
    rewrite Hc, (startswith_contains _ _ Hc), orb_false_r.
    destruct line; done.
  - rewrite (before_absent _ _ Hhash). unfold parse_line.
    rewrite strip_idem, Hskip, Hhash. done.
Qed.

Lemma before_keeps_absent c d s :
  contains c s = false → contains c (before d s) = false.
Proof.
  induction s as [|c' s IH]; [done|]. simpl.
  intros [Hc ?]%orb_false_elim.
  destruct (Ascii.eqb c' d); [done|]. simpl. rewrite Hc. auto.
Qed.

Lemma parse_line_hash_free data raw :
  hash_free data → hash_free (parse_line data raw).
Proof.
  intros Hdata. rewrite parse_line_truncates. unfold parse_line.
  pose proof (contains_strip _ _ (contains_before "#" (strip raw))) as Hc.
  set (line := strip (before "#" (strip raw))) in *.
  destruct (_ || _); [done|]. rewrite Hc.
  destruct (negb _); [done|].
  apply map_Forall_insert_2; [|done]. split.
  - by apply contains_strip, before_keeps_absent.
  - by apply contains_strip_by, contains_strip_by, contains_strip, contains_after.
Qed.

Lemma parse_lines_hash_free lines data :
  hash_free data → hash_free (foldl parse_line data lines).
Proof.
  revert data. induction lines as [|raw lines IH]; intros data Hdata; [done|].
  simpl. by apply IH, parse_line_hash_free.
Qed.

Lemma parse_lines_snoc data lines raw :
  foldl parse_line data (lines ++ [raw]) = parse_line (foldl parse_line data lines) raw.
Proof. by rewrite foldl_app. Qed.

(** The entry a line leaves: its key and its value are read from the
    line as cut at its first '#'. *)
Lemma parse_line_entry data raw :
  let line := strip (before "#" (strip raw)) in
  is_empty (strip raw) = false → startswith "#" (strip raw) = false →
  contains "=" line = true →
  parse_line data raw !! strip (before "=" line)
  = Some (strip_char "'" (strip_char dquote (strip (after "=" line)))).
Proof.
  intros line Hne Hhash Heq. unfold parse_line. rewrite Hne, Hhash. simpl.
  assert ((if contains "#" (strip raw) then strip (before "#" (strip raw))
           else strip raw) = line) as ->.
  { subst line. destruct (contains "#" (strip raw)) eqn:Hc; [done|].
    by rewrite (before_absent _ _ Hc), strip_idem. }
  rewrite Heq. simpl. apply lookup_insert_eq.
Qed.

(** C10: both parsers cut every line at its first '#' before they look
    for '=', so parsing a line and parsing its '#'-truncated prefix give
    the same entry, also when the '#' sits inside a quoted value; no
    key or value of the configuration that [parse_simple_config] or
    [parse_config_file] returns holds a '#', and where the first
    returns, the second returns the same configuration; each of them
    handles a further line of the file by [parse_line], and a line with a
    key and a value is not refused for a '#' in it: its entry is stored,
    with the value read from the text before the '#'. *)
Theorem config_values_hash_free (f : file) (lines : list string) (raw : string) :
  let line := strip (before "#" (strip raw)) in
  (∀ data raw, parse_line data raw = parse_line data (before "#" (strip raw)))
  ∧ hash_free (parse_config_file f)
  ∧ match parse_simple_config f with
    | inr data => hash_free data ∧ parse_config_file f = data
    | inl e =>
        isfile f = false ∨ opened f = inl e
        ∨ ∃ read, opened f = inr (read, Some e)
    end
  ∧ parse_config_file (readable (lines ++ [raw]))
    = parse_line (parse_config_file (readable lines)) raw
  ∧ parse_simple_config (readable (lines ++ [raw]))
    = inr (parse_line (parse_config_file (readable lines)) raw)
  ∧ (is_empty (strip raw) = false → startswith "#" (strip raw) = false →
     contains "=" line = true →
     parse_config_file (readable (lines ++ [raw])) !! strip (before "=" line)
     = Some (strip_char "'" (strip_char dquote (strip (after "=" line)))))
  ∧ parse_config_file (readable ["db-password = 's3cr#t pw'  # main"])
    = {["db-password" := "s3cr"]}
  ∧ parse_simple_config (readable ["db-password = 's3cr#t pw'  # main"])
    = inr {["db-password" := "s3cr"]}.
Proof.
  intros line.
  split; [apply parse_line_truncates|].
  split.
  { unfold parse_config_file. destruct (opened f) as [e|[read failure]].
    - apply map_Forall_empty.
    - apply parse_lines_hash_free, map_Forall_empty. }
  split.
  { unfold parse_simple_config, parse_config_file.
    destruct (isfile f); simpl; [|by left].
    destruct (opened f) as [e|[read [e|]]].
    - right. by left.
    - right. right. by exists read.
    - split; [|done]. apply parse_lines_hash_free, map_Forall_empty. }
  split; [apply parse_lines_snoc|].
  split; [unfold parse_simple_config; simpl; by rewrite parse_lines_snoc|].
  split.
  { intros Hne Hhash Heq. unfold parse_config_file. simpl.
    rewrite parse_lines_snoc. by apply parse_line_entry. }
  split; by vm_compute.
Qed.

End ConfigParsing.

(** ** The API client: error classification and pagination *)

Section ApiClient.
Import Py Client.

Lemma str_take_length n s : String.length (str_take n s) ≤ n.
Proof.
  revert s. induction n as [|n IH]; intros [|c s]; simpl; try lia.
  specialize (IH s). lia.
Qed.

(** C7 (amended): [request] raises a [CloudflareError] exactly when the
    transport fails, the body is not JSON, or the body is a JSON object
    and the status is 400 or above or its success flag is false or
    missing; it returns the decoded object unchanged exactly when the
    status is below 400 and the success flag is true. The error holds
    the status code only in the last of the three cases, with the
    provider's errors or messages as its message, or else the first 200
    characters of the body. *)
Theorem request_classification (w : http) (m : string) (p : path)
    (q : gmap string string) :
  let reply := w {| method := m; url_path := p; query := q |} in
  let out := request w m p q in
  ((∃ why, out = inl (CloudflareError why)) ↔
     (∃ exc, reply = NoReply exc)
     ∨ (∃ st text, reply = Reply st text None)
     ∨ (∃ st text d, reply = Reply st text (Some (JObj d))
          ∧ ((400 ≤ st)%Z
             ∨ truthy (get_default d "success" (JBool false)) = false)))
  ∧ (∀ d, out = inr d ↔
       ∃ st text, reply = Reply st text (Some (JObj d))
         ∧ (st < 400)%Z
         ∧ truthy (get_default d "success" (JBool false)) = true)
  ∧ (∀ why, out = inl (CloudflareError why) →
       match why with
       | RequestFailed exc => reply = NoReply exc
       | InvalidResponse snippet =>
           String.length snippet ≤ 200
           ∧ ∃ st text, reply = Reply st text None ∧ snippet = str_take 200 text
       | ApiError st message =>
           ∃ text d, reply = Reply st text (Some (JObj d))
             ∧ message = por (por (get_or_none d "errors")
                                  (get_or_none d "messages"))
                             (JStr (str_take 200 text))
       end).
Proof.
  intros reply out. subst out. unfold request. fold reply.
  destruct reply as [exc|st text [body|]].
  - split; [|split].
    + split; [intros _; left; by eexists|intros _; by eexists].
    + intros d. split; [done|]. by intros (? & ? & ? & _).
    + intros why [= <-]. done.
  - destruct body as [| | | |items|d];
      try (split; [|split];
           [split; [by intros [? ?]|];
            intros [[? ?]|[(? & ? & ?)|(? & ? & ? & ? & _)]]; done
           |intros d'; split; [done|]; by intros (? & ? & ? & _)
           |by intros why ?]).
    destruct (400 <=? st)%Z eqn:Hst; simpl.
    + apply Z.leb_le in Hst. split; [|split].
      * split; [intros _|intros _; by eexists].
        right; right. exists st, text, d. split; [done|]. by left.
      * intros d'. split; [done|]. intros (? & ? & [= <- <- <-] & ? & _). lia.
      * intros why [= <-]. by exists text, d.
    + apply Z.leb_gt in Hst.
      destruct (truthy (get_default d "success" (JBool false))) eqn:Hok; simpl.
      * split; [|split].
        -- split; [by intros [? ?]|].
           intros [[? ?]|[(? & ? & ?)|(? & ? & ? & [= <- <- <-] & [?|?])]];
             try done; [lia|congruence].
        -- intros d'. split.
           ++ intros [= <-]. by exists st, text.
           ++ by intros (? & ? & [= <- <- <-] & _).
        -- by intros why ?.
      * split; [|split].
        -- split; [intros _|intros _; by eexists].
           right; right. exists st, text, d. split; [done|]. by right.
        -- intros d'. split; [done|].
           intros (? & ? & [= <- <- <-] & _ & ?). congruence.
        -- intros why [= <-]. by exists text, d.
  - split; [|split].
    + split; [intros _|intros _; by eexists].
      right; left. by exists st, text.
    + intros d. split; [done|]. by intros (? & ? & ? & _).
    + intros why [= <-]. split; [apply str_take_length|]. by exists st, text.
Qed.

(** A provider that answers every request with "304 Not Modified" and
    a body that reports success. *)
Definition not_modified : http :=
  λ _, Reply 304 "{success: true}" (Some (JObj [("success", JBool true)])).

(** C7 as stated fails for a status outside 2xx and below 400: the
    decoded body is returned and no error is raised. A transport
    failure, for its part, raises an error that holds no status code. *)
Lemma request_not_modified_returns :
  request not_modified "GET" Zones ∅ = inr [("success", JBool true)]
  ∧ ¬ (200 ≤ 304 < 300)%Z
  ∧ request (λ _, NoReply "connection reset") "GET" Zones ∅
    = inl (CloudflareError (RequestFailed "connection reset")).
Proof. split; [done|]. split; [lia|done]. Qed.

(** The request [paginated_get] sends for page [k]. *)
Definition page_request (p : path) (params : gmap string string)
    (per_page k : nat) : http_request :=
  {| method := "GET"; url_path := p; query := page_params params per_page k |}.

Lemma batch_of_array d items :
  get d "result" = Some (JArr items) → batch_of d = inr items.
Proof.
  intros H. unfold batch_of, get_or_none. rewrite H. simpl.
  by destruct items.
Qed.

Lemma total_pages_of_num d info n :
  get d "result_info" = Some (JObj info) →
  get info "total_pages" = Some (JNum n) →
  total_pages_of d = inr (JNum n).
Proof.
  intros Hd Hinfo. unfold total_pages_of, get_or_none. rewrite Hd.
  destruct info as [|kv info]; [done|].
  change (por (default JNull (Some (JObj (kv :: info)))) (JObj []))
    with (JObj (kv :: info)).
  cbv beta match. rewrite Hinfo. unfold por. simpl.
  by destruct (n =? 0)%Z eqn:E; [apply Z.eqb_eq in E as ->|].
Qed.

(** A reply for page [k] of [total] pages that holds [items]. *)
Definition page_ok (w : http) (p : path) (params : gmap string string)
    (per_page k : nat) (items : list json) (total : Z) : Prop :=
  ∃ d info,
    request w "GET" p (page_params params per_page k) = inr d
    ∧ get d "result" = Some (JArr items)
    ∧ get d "result_info" = Some (JObj info)
    ∧ get info "total_pages" = Some (JNum total).

(** A reply for page [k] whose page count is absent or zero. *)
Definition page_single (w : http) (p : path) (params : gmap string string)
    (per_page k : nat) (items : list json) : Prop :=
  ∃ d,
    request w "GET" p (page_params params per_page k) = inr d
    ∧ get d "result" = Some (JArr items)
    ∧ (get d "result_info" = None
       ∨ ∃ info, get d "result_info" = Some (JObj info)
           ∧ (get info "total_pages" = None
              ∨ get info "total_pages" = Some (JNum 0))).

Lemma total_pages_of_single d :
  (get d "result_info" = None
   ∨ ∃ info, get d "result_info" = Some (JObj info)
       ∧ (get info "total_pages" = None
          ∨ get info "total_pages" = Some (JNum 0))) →
  total_pages_of d = inr (JNum 0).
Proof.
  unfold total_pages_of, get_or_none.
  intros [->|(info & -> & Hinfo)]; [done|].
  destruct info as [|kv info]; [done|].
  change (por (default JNull (Some (JObj (kv :: info)))) (JObj []))
    with (JObj (kv :: info)).
  cbv beta match. by destruct Hinfo as [-> | ->].
Qed.

Lemma paginated_loop_pages w p params per_page (b : nat → list json) n :
  ∀ fuel k results sent,
    0 < k →
    n < fuel →
    (∀ i, k ≤ i ≤ k + n → page_ok w p params per_page i (b i) (Z.of_nat (k + n))) →
    paginated_loop fuel w p params per_page k results sent
    = (sent ++ (page_request p params per_page <$> seq k (S n)),
       Some (inr (results ++ concat (b <$> seq k (S n))))).
Proof.
  induction n as [|n IH]; intros fuel k results sent Hk Hfuel Hpages.
  - destruct fuel as [|fuel]; [lia|]. simpl.
    destruct (Hpages k) as (d & info & -> & Hres & Hinfo & Htot); [lia|].
    rewrite (batch_of_array _ _ Hres), (total_pages_of_num _ _ _ Hinfo Htot).
    simpl. rewrite Nat.add_0_r.
    destruct (Z.of_nat k =? 0)%Z eqn:E; [apply Z.eqb_eq in E; lia|]. simpl.
    rewrite Z.leb_refl, app_nil_r. done.
  - destruct fuel as [|fuel]; [lia|]. simpl.
    destruct (Hpages k) as (d & info & -> & Hres & Hinfo & Htot); [lia|].
    rewrite (batch_of_array _ _ Hres), (total_pages_of_num _ _ _ Hinfo Htot).
    simpl.
    destruct (Z.of_nat (k + S n) =? 0)%Z eqn:E; [apply Z.eqb_eq in E; lia|].
    simpl.
    destruct (Z.of_nat (k + S n) <=? Z.of_nat k)%Z eqn:E'; [apply Z.leb_le in E'; lia|].
    rewrite (IH fuel (k + 1)); [|lia|lia|].
    + rewrite Nat.add_1_r, <-!app_assoc. done.
    + intros i Hi. replace (k + 1 + n) with (k + S n) by lia.
      apply Hpages. lia.
Qed.

(** C6 (amended): when each of the pages 1..N answers successfully and
    reports N as the page count, [paginated_get] sends exactly the N
    page requests, in order and with the same page size, and returns
    the result arrays concatenated in page order. When the first answer
    has no page count or a zero one, it sends that one request and
    returns its result array. *)
Theorem paginated_get_pages (w : http) (p : path) (params : gmap string string)
    (per_page : nat) (fuel N : nat) (b : nat → list json) :
  N ≤ fuel →
  (1 ≤ N →
   (∀ k, 1 ≤ k ≤ N → page_ok w p params per_page k (b k) (Z.of_nat N)) →
   paginated_get fuel w p params per_page
   = (page_request p params per_page <$> seq 1 N,
      Some (inr (concat (b <$> seq 1 N)))))
  ∧ (1 ≤ fuel →
     page_single w p params per_page 1 (b 1) →
     paginated_get fuel w p params per_page
     = ([page_request p params per_page 1], Some (inr (b 1)))).
Proof.
  intros Hfuel. split.
  - intros HN Hpages. unfold paginated_get.
    destruct N as [|n]; [lia|].
    rewrite (paginated_loop_pages w p params per_page b n); [done|lia|lia|].
    intros i Hi. replace (1 + n) with (S n) by lia. apply Hpages. lia.
  - intros Hone (d & Hreq & Hres & Hinfo). unfold paginated_get.
    destruct fuel as [|fuel']; [lia|]. simpl.
    rewrite Hreq, (batch_of_array _ _ Hres), (total_pages_of_single _ Hinfo).
    done.
Qed.

(** A provider with three pages of records. *)
Definition page_body (items : list json) (total : Z) : json :=
  JObj [("success", JBool true); ("result", JArr items);
        ("result_info", JObj [("total_pages", JNum total)])].

Definition three_pages : http :=
  λ r, match query r !! "page" with
       | Some "1" => Reply 200 "page 1" (Some (page_body [JStr "a"; JStr "b"] 3))
       | Some "2" => Reply 200 "page 2" (Some (page_body [JStr "c"] 3))
       | _ => Reply 200 "page 3" (Some (page_body [JStr "d"] 3))
       end.

Definition three_batches (k : nat) : list json :=
  match k with
  | 1 => [JStr "a"; JStr "b"]
  | 2 => [JStr "c"]
  | _ => [JStr "d"]
  end.

Lemma paginated_get_pages_witness :
  paginated_get 5 three_pages (DnsRecords (JStr "z1")) ∅ 100
  = (page_request (DnsRecords (JStr "z1")) ∅ 100 <$> [1; 2; 3],
     Some (inr [JStr "a"; JStr "b"; JStr "c"; JStr "d"])).
Proof.
  apply (paginated_get_pages three_pages (DnsRecords (JStr "z1")) ∅ 100 5 3
           three_batches); [lia|lia|].
  intros k Hk.
  assert (k = 1 ∨ k = 2 ∨ k = 3) as [->|[->| ->]] by lia;
    eexists _, _; (split; [vm_compute; reflexivity|]);
    repeat split; reflexivity.
Defined.

(** A provider whose first answer announces three pages and whose
    second answer carries no page count. *)
Definition shrinking_pages : http :=
  λ r, match query r !! "page" with
       | Some "1" => Reply 200 "page 1" (Some (page_body [JStr "a"] 3))
       | _ => Reply 200 "page 2"
                (Some (JObj [("success", JBool true); ("result", JArr [JStr "b"])]))
       end.

(** C6 as stated fails: the page count is read again from every
    answer, so after a first answer announcing three pages a second
    answer without a page count ends the listing after two requests. *)
Lemma paginated_get_stops_early :
  request shrinking_pages "GET" Zones (page_params ∅ 50 1)
  = inr [("success", JBool true); ("result", JArr [JStr "a"]);
         ("result_info", JObj [("total_pages", JNum 3)])]
  ∧ paginated_get 10 shrinking_pages Zones ∅ 50
    = (page_request Zones ∅ 50 <$> [1; 2], Some (inr [JStr "a"; JStr "b"]))
  ∧ length (paginated_get 10 shrinking_pages Zones ∅ 50).1 ≠ 3.
Proof. split; [|split]; by vm_compute. Qed.

End ApiClient.

(** ** Facts about documents, tables and the effect monad *)

Section Basics.
Import Py Db.

Lemma json_eqb_eq : ∀ a b, json_eqb a b = true ↔ a = b.
Proof.
  fix IH 1. intros [|x|x|x|xs|xs] [|y|y|y|ys|ys]; simpl; try (split; done).
  - rewrite Bool.eqb_true_iff. split; congruence.
  - rewrite Z.eqb_eq. split; congruence.
  - rewrite String.eqb_eq. split; congruence.
  - revert ys. induction xs as [|x xs IHxs]; intros [|y ys]; try (split; done).
    rewrite andb_true_iff, IH.
    specialize (IHxs ys). split.
    + intros [-> H]. apply IHxs in H. congruence.
    + intros [= -> ->]. split; [done|]. by apply IHxs.
  - revert ys.
    induction xs as [|[k x] xs IHxs]; intros [|[k' y] ys]; try (split; done).
    rewrite !andb_true_iff, IH, String.eqb_eq.
    specialize (IHxs ys). split.
    + intros [[-> ->] H]. apply IHxs in H. congruence.
    + intros [= -> -> ->]. split; [done|]. by apply IHxs.
Qed.

Lemma json_eqb_refl a : json_eqb a a = true.
Proof. by apply json_eqb_eq. Qed.

Lemma update_first_elem {A} (p : A → bool) (f : A → A) l x :
  List.find p l = Some x → f x ∈ Engine.update_first p f l.
Proof.
  induction l as [|y l IH]; [done|]. simpl.
  destruct (p y).
  - intros [= ->]. apply elem_of_cons. by left.
  - intros H. apply elem_of_cons. right. by apply IH.
Qed.

Lemma for_each_app {S A T} (xs ys : list A) (body : A → T → M S T) (t : T) (s : S) :
  for_each (xs ++ ys) body t s
  = bind (for_each xs body t) (for_each ys body) s.
Proof.
  revert t s. induction xs as [|x xs IH]; intros t s; simpl; [done|].
  unfold bind in *. destruct (body x t s) as [s' [e|t']]; [done|].
  apply IH.
Qed.

Lemma numbered_rows {A} n (rows : list A) : (Engine.numbered n rows).*2 = rows.
Proof.
  unfold Engine.numbered. apply snd_zip. by rewrite length_seq.
Qed.

Lemma numbered_ids {A} n (rows : list A) :
  (Engine.numbered n rows).*1 = seq n (length rows).
Proof.
  unfold Engine.numbered. apply fst_zip. by rewrite length_seq.
Qed.

Lemma filter_rows {A} (f : A → bool) (l : list (nat * A)) :
  (List.filter (λ r, f r.2) l).*2 = List.filter f l.*2.
Proof.
  induction l as [|[i r] l IH]; [done|].
  rewrite fmap_cons. cbn [List.filter snd].
  destruct (f r); [rewrite fmap_cons; cbn [snd]; by rewrite IH|exact IH].
Qed.

Lemma records_delete zid d :
  Engine.records (Engine.delete_zone_records zid d)
  = List.filter (λ r, negb (Engine.r_zone_id r =? zid)) (Engine.records d).
Proof.
  unfold Engine.records, Engine.delete_zone_records. simpl.
  apply (filter_rows (λ r, negb (Engine.r_zone_id r =? zid))).
Qed.

Lemma records_insert rows d :
  Engine.records (Engine.insert_records rows d) = Engine.records d ++ rows.
Proof.
  unfold Engine.records, Engine.insert_records. simpl.
  by rewrite fmap_app, numbered_rows.
Qed.

Lemma load_balancers_delete zid d :
  Engine.load_balancers (Engine.delete_zone_load_balancers zid d)
  = List.filter (λ r, negb (Engine.lb_zone_id r =? zid)) (Engine.load_balancers d).
Proof.
  unfold Engine.load_balancers, Engine.delete_zone_load_balancers. simpl.
  apply (filter_rows (λ r, negb (Engine.lb_zone_id r =? zid))).
Qed.

Lemma load_balancers_insert rows d :
  Engine.load_balancers (Engine.insert_load_balancers rows d)
  = Engine.load_balancers d ++ rows.
Proof.
  unfold Engine.load_balancers, Engine.insert_load_balancers. simpl.
  by rewrite fmap_app, numbered_rows.
Qed.

Lemma records_mark_synced now local d :
  Engine.records (Engine.mark_synced now local d) = Engine.records d.
Proof. done. Qed.

Lemma load_balancers_mark_synced now local d :
  Engine.load_balancers (Engine.mark_synced now local d) = Engine.load_balancers d.
Proof. done. Qed.

Lemma insert_records_nil d : Engine.insert_records [] d = d.
Proof.
  destruct d. unfold Engine.insert_records, Engine.set_records. simpl.
  by rewrite app_nil_r, Nat.add_0_r.
Qed.

Lemma insert_load_balancers_nil d : Engine.insert_load_balancers [] d = d.
Proof.
  destruct d. unfold Engine.insert_load_balancers, Engine.set_load_balancers.
  simpl. by rewrite app_nil_r, Nat.add_0_r.
Qed.

End Basics.

(** ** Replacing the records of a zone *)

Section ReplaceSemantics.
Import Py Db.

Variable now : nat.
Variable fromisoformat : string → option string.
Variable cf_client : Engine.CloudflareClient.

Lemma record_payloads_zone zid R rows :
  Engine.record_payloads fromisoformat zid R = inr rows →
  Forall (λ r, Engine.r_zone_id r = zid) rows ∧ length rows = length R.
Proof.
  revert rows. induction R as [|record R IH]; intros rows; simpl.
  - intros [= <-]. done.
  - destruct (Engine.record_payload _ _ _) as [e|row] eqn:Hrow; [done|].
    destruct (Engine.record_payloads _ _ _) as [e|rows'] eqn:Hrows; [done|].
    intros [= <-]. destruct (IH rows' eq_refl) as [Hall Hlen].
    split; [|simpl; congruence]. constructor; [|done].
    unfold Engine.record_payload in Hrow.
    destruct (Engine.as_dict record); [done|].
    destruct (match get_default _ _ _ with JArr _ => _ | _ => _ end); [done|].
    destruct (Engine.parse_timestamp _ _); [done|].
    by injection Hrow as <-.
Qed.

Lemma filter_same_zone zid (rows : list Engine.record_row) :
  Forall (λ r, Engine.r_zone_id r = zid) rows →
  List.filter (λ r, Engine.r_zone_id r =? zid) rows = rows
  ∧ List.filter (λ r, negb (Engine.r_zone_id r =? zid)) rows = [].
Proof.
  induction 1 as [|r rows Hr _ [IH1 IH2]]; [done|]. simpl.
  rewrite Hr, Nat.eqb_refl. simpl. by rewrite IH1, IH2.
Qed.

Lemma filter_other_zone zid (rows : list Engine.record_row) :
  List.filter (λ r, Engine.r_zone_id r =? zid)
    (List.filter (λ r, negb (Engine.r_zone_id r =? zid)) rows) = []
  ∧ List.filter (λ r, negb (Engine.r_zone_id r =? zid))
      (List.filter (λ r, negb (Engine.r_zone_id r =? zid)) rows)
    = List.filter (λ r, negb (Engine.r_zone_id r =? zid)) rows.
Proof.
  induction rows as [|r rows [IH1 IH2]]; [done|]. simpl.
  destruct (Engine.r_zone_id r =? zid) eqn:E; simpl; [done|].
  rewrite E. simpl. by rewrite IH1, IH2.
Qed.

(** What [replace_zone_records] leaves in the working copy. *)
Lemma replace_zone_records_run zid R c :
  Engine.replace_zone_records fromisoformat zid R c
  = match Engine.record_payloads fromisoformat zid R with
    | inr rows =>
        (Conn (committed c)
           (Engine.insert_records rows
              (Engine.delete_zone_records zid (working c))),
         inr (length R))
    | inl e =>
        (Conn (committed c) (Engine.delete_zone_records zid (working c)), inl e)
    end.
Proof.
  unfold Engine.replace_zone_records, bind, execute, lift, ret.
  destruct R as [|record R].
  - simpl. by rewrite insert_records_nil.
  - destruct (Engine.record_payloads _ _ _) as [e|rows]; simpl; done.
Qed.

Lemma replace_zone_load_balancers_records zid B c :
  committed (Engine.replace_zone_load_balancers zid B c).1 = committed c
  ∧ Engine.records (working (Engine.replace_zone_load_balancers zid B c).1)
    = Engine.records (working c)
  ∧ Engine.zones (working (Engine.replace_zone_load_balancers zid B c).1)
    = Engine.zones (working c).
Proof.
  unfold Engine.replace_zone_load_balancers, bind, execute, lift, ret.
  destruct B as [|b B]; [done|].
  destruct (Engine.balancer_payloads _ _); done.
Qed.

Lemma upsert_zone_run account_id zone c :
  ∀ c' r, Engine.upsert_zone now account_id zone c = (c', r) →
    committed c' = committed c
    ∧ Engine.records (working c') = Engine.records (working c)
    ∧ ∀ local, r = inr local →
        ∃ zr, zr ∈ Engine.zones (working c')
          ∧ Engine.z_id zr = local
          ∧ Engine.z_cf_zone_id zr = get_or_none zone "id".
Proof.
  intros c' r. unfold Engine.upsert_zone, bind, lift, query.
  destruct (Engine.zone_values zone) as [e|[[[[[cf name] status] paused] ty] plan]] eqn:Hv.
  { intros [= <- <-]. done. }
  assert (cf = get_or_none zone "id") as ->.
  { unfold Engine.zone_values in Hv. destruct (por _ _); try done. by injection Hv. }
  destruct (List.find _ (Engine.zones (working c))) as [zr|] eqn:Hfind.
  - intros [= <- <-]. simpl. split; [done|]. split; [done|].
    intros local [= <-].
    eexists. split; [by eapply update_first_elem|]. simpl. split; [done|].
    apply find_some in Hfind as [_ Hhit]. by apply json_eqb_eq.
  - intros [= <- <-]. simpl. split; [done|]. split; [done|].
    intros local [= <-]. eexists.
    split; [apply elem_of_app; right; by apply list_elem_of_singleton|]. done.
Qed.

Lemma mark_synced_zone local (zs : list Engine.zone_row) zr d :
  zr ∈ Engine.zones d →
  ∃ zr', zr' ∈ Engine.zones (Engine.mark_synced now local d)
    ∧ Engine.z_id zr' = Engine.z_id zr
    ∧ Engine.z_cf_zone_id zr' = Engine.z_cf_zone_id zr.
Proof.
  intros Hin. unfold Engine.mark_synced. simpl.
  eexists. split; [by apply list_elem_of_fmap_2|].
  by destruct (Engine.z_id zr =? local).
Qed.

(** C1 (amended): one [sync_zone] of the single-credential engine that
    returns leaves, as the committed records of the zone, exactly the
    rows built from the list [R] the provider returned, in order; the
    records of the other zones are as they were; the old rows are
    deleted and the new ones inserted in the one transaction that
    [sync_zone] commits, and when [sync_zone] raises instead, nothing it
    did is committed. *)
Theorem sync_zone_replaces_records (account_id : nat) (zone : dict)
    (zid : json) (R : list json) (c c' : conn Engine.db)
    (out : result (nat * nat)) :
  Engine.zone_id_of zone = inr zid →
  Engine.list_records cf_client zid = inr R →
  Engine.sync_zone now fromisoformat cf_client account_id zone c = (c', out) →
  match out with
  | inr (record_count, _) =>
      ∃ local rows zr,
        Engine.record_payloads fromisoformat local R = inr rows
        ∧ length rows = length R
        ∧ record_count = length R
        ∧ zr ∈ Engine.zones (committed c')
        ∧ Engine.z_id zr = local
        ∧ Engine.z_cf_zone_id zr = zid
        ∧ List.filter (λ r, Engine.r_zone_id r =? local)
            (Engine.records (committed c')) = rows
        ∧ List.filter (λ r, negb (Engine.r_zone_id r =? local))
            (Engine.records (committed c'))
          = List.filter (λ r, negb (Engine.r_zone_id r =? local))
              (Engine.records (working c))
        ∧ working c' = committed c'
  | inl _ => committed c' = committed c
  end.
Proof.
  intros Hzid HR. unfold Engine.sync_zone.
  unfold bind at 1, lift at 1. rewrite Hzid.
  unfold bind at 1, lift at 1. rewrite HR.
  unfold bind at 1, lift at 1.
  destruct (Engine.list_load_balancers cf_client zid) as [e|B].
  { by intros [= <- <-]. }
  unfold bind at 1.
  destruct (Engine.upsert_zone now account_id zone c) as [c1 [e|local]] eqn:Hup.
  { intros [= <- <-]. by apply upsert_zone_run in Hup as [? _]. }
  apply upsert_zone_run in Hup as (Hc1 & Hrec1 & Hzr).
  destruct (Hzr local eq_refl) as (zr & Hzr_in & Hzr_id & Hzr_cf). clear Hzr.
  unfold bind at 1. rewrite replace_zone_records_run.
  destruct (Engine.record_payloads fromisoformat local R) as [e|rows] eqn:Hrows.
  { intros [= <- <-]. simpl. done. }
  unfold bind at 1.
  pose proof (replace_zone_load_balancers_records local B
    (Conn (committed c1)
       (Engine.insert_records rows
          (Engine.delete_zone_records local (working c1)))))
    as (Hc2 & Hrec2 & Hz2).
  destruct (Engine.replace_zone_load_balancers local B _) as [c2 [e|lb_count]].
  { intros [= <- <-]. simpl in Hc2. congruence. }
  unfold bind, execute, commit, ret. intros [= <- <-]. simpl in *.
  destruct (record_payloads_zone _ _ _ Hrows) as [Hall Hlen].
  destruct (mark_synced_zone local (Engine.zones (working c2)) zr (working c2))
    as (zr' & Hin' & Hid' & Hcf').
  { rewrite Hz2. done. }
  exists local, rows, zr'.
  split; [done|]. split; [done|]. split; [done|]. split; [done|].
  split; [congruence|]. split.
  { rewrite Hcf', Hzr_cf. unfold Engine.zone_id_of in Hzid.
    unfold get_or_none. destruct (get zone "id"); by simplify_eq. }
  rewrite !records_mark_synced, Hrec2, records_insert, records_delete,
    !List.filter_app.
  destruct (filter_same_zone _ _ Hall) as [-> ->].
  destruct (filter_other_zone local (Engine.records (working c1))) as [-> ->].
  rewrite app_nil_r, Hrec1. done.
Qed.

End ReplaceSemantics.

Section ReplaceExamples.
Import Py Db.

(** A zone that holds five records, of which the provider still lists
    three. *)
Definition dns_record (record_id content : string) : json :=
  JObj [("id", JStr record_id); ("type", JStr "A");
        ("name", JStr "www.example.org"); ("content", JStr content);
        ("ttl", JNum 300)].

Definition example_zone : dict :=
  [("id", JStr "zone-a"); ("name", JStr "example.org");
   ("status", JStr "active")].

Definition stored_record (record_id : string) : Engine.record_row :=
  {| Engine.r_zone_id := 1; Engine.r_cf_record_id := JStr record_id;
     Engine.r_record_type := JStr "A"; Engine.r_name := JStr "www.example.org";
     Engine.r_content := JStr "192.0.2.1"; Engine.r_ttl := JNum 300;
     Engine.r_proxied := None; Engine.r_priority := JNull;
     Engine.r_data := [("id", JStr record_id)];
     Engine.r_modified_on := None; Engine.r_comment := JNull;
     Engine.r_tags := None |}.

Definition store_with_five : Engine.db :=
  {| Engine.accounts :=
       [{| Engine.a_id := 1; Engine.a_cf_account_id := JStr "acct";
           Engine.a_name := JStr "Cloudflare"; Engine.a_updated_at := None |}];
     Engine.next_account_id := 2;
     Engine.zones :=
       [{| Engine.z_id := 1; Engine.z_account_id := 1;
           Engine.z_cf_zone_id := JStr "zone-a";
           Engine.z_name := JStr "example.org"; Engine.z_status := JStr "active";
           Engine.z_paused := false; Engine.z_zone_type := JNull;
           Engine.z_plan_name := JNull; Engine.z_last_synced := None;
           Engine.z_updated_at := None |}];
     Engine.next_zone_id := 2;
     Engine.record_table :=
       Engine.numbered 1 (stored_record <$> ["r1"; "r2"; "r3"; "r4"; "r5"]);
     Engine.next_record_id := 6;
     Engine.lb_table := []; Engine.next_lb_id := 1;
     Engine.origins := [] |}.

Definition three_left : list json :=
  [dns_record "r1" "192.0.2.1"; dns_record "r2" "192.0.2.2";
   dns_record "r3" "192.0.2.3"].

Definition provider_with_three : Engine.CloudflareClient :=
  {| Engine.list_zones := λ _, inr [JObj example_zone];
     Engine.list_records := λ _, inr three_left;
     Engine.list_load_balancers := λ _, inr [] |}.

Lemma sync_zone_replaces_records_witness :
  let run := Engine.sync_zone 9 (λ _, None) provider_with_three 1 example_zone
               (open store_with_five) in
  length (Engine.records store_with_five) = 5
  ∧ length (Engine.records (committed run.1)) = 3
  ∧ match run.2 with
    | inr (record_count, _) =>
        ∃ local rows zr,
          Engine.record_payloads (λ _, None) local three_left = inr rows
          ∧ length rows = length three_left
          ∧ record_count = length three_left
          ∧ zr ∈ Engine.zones (committed run.1)
          ∧ Engine.z_id zr = local
          ∧ Engine.z_cf_zone_id zr = JStr "zone-a"
          ∧ List.filter (λ r, Engine.r_zone_id r =? local)
              (Engine.records (committed run.1)) = rows
          ∧ List.filter (λ r, negb (Engine.r_zone_id r =? local))
              (Engine.records (committed run.1))
            = List.filter (λ r, negb (Engine.r_zone_id r =? local))
                (Engine.records (working (open store_with_five)))
          ∧ working run.1 = committed run.1
    | inl _ => committed run.1 = committed (open store_with_five)
    end.
Proof.
  intros run. split; [reflexivity|]. split; [reflexivity|].
  apply (sync_zone_replaces_records 9 (λ _, None) provider_with_three 1
           example_zone (JStr "zone-a") three_left (open store_with_five)).
  - reflexivity.
  - reflexivity.
  - subst run. apply surjective_pairing.
Defined.

(** The same zone in the tables of the multi-user script. *)
Definition mu_stored_record (record_id : string) : MultiUser.record_row :=
  {| MultiUser.r_cf_record_id := JStr record_id; MultiUser.r_cf_zone_id := 1;
     MultiUser.r_name := JStr "www.example.org"; MultiUser.r_type := JStr "A";
     MultiUser.r_content := JStr "192.0.2.1"; MultiUser.r_ttl := JNum 300;
     MultiUser.r_proxied := JBool false; MultiUser.r_priority := JNum 0;
     MultiUser.r_created_at := 1; MultiUser.r_updated_at := 1 |}.

Definition mu_store_with_five : MultiUser.db :=
  {| MultiUser.accounts :=
       [{| MultiUser.a_id := 1; MultiUser.a_cf_account_id := "acct";
           MultiUser.a_name := "Account acct" |}];
     MultiUser.next_account_id := 2;
     MultiUser.zones :=
       [{| MultiUser.z_id := 1; MultiUser.z_cf_zone_id := JStr "zone-a";
           MultiUser.z_cf_account_id := 1; MultiUser.z_name := JStr "example.org";
           MultiUser.z_status := JStr "active";
           MultiUser.z_created_at := 1; MultiUser.z_updated_at := 1 |}];
     MultiUser.next_zone_id := 2;
     MultiUser.records := mu_stored_record <$> ["r1"; "r2"; "r3"; "r4"; "r5"];
     MultiUser.credentials := [] |}.

(** C1 as stated fails on the multi-user script: it upserts the
    listed records one by one and deletes nothing, so the two records
    the provider no longer lists stay in the table. *)
Lemma multi_user_sync_keeps_stale_records :
  let run := MultiUser.sync_cloudflare_account 9 provider_with_three "acct"
               None None None (open mu_store_with_five) in
  run.2 = inr (1, 3, 0)
  ∧ MultiUser.r_cf_record_id <$> MultiUser.records (committed run.1)
    = JStr <$> ["r1"; "r2"; "r3"; "r4"; "r5"]
  ∧ length (List.filter (λ r, MultiUser.r_cf_zone_id r =? 1)
              (MultiUser.records (committed run.1))) ≠ 3.
Proof. vm_compute. split; [done|]. split; [done|]. lia. Qed.

End ReplaceExamples.

(** ** Failure of one zone *)

Section ZoneFailure.
Import Py Db.

Variable now : nat.
Variable fromisoformat : string → option string.
Variable cf_client : Engine.CloudflareClient.

(** The account row written for a zone, and its commit, which precede
    [sync_zone] in [sync_accounts]. *)
Definition account_step (account_id : string) (account_data : dict)
    : M (conn Engine.db) unit :=
  Engine.upsert_account now
    (get_default account_data "id" (JStr account_id))
    (por (get_or_none account_data "name") (JStr "Cloudflare account"));;
  commit.

Definition default_account (account_id : string) : json :=
  JObj [("id", JStr account_id); ("name", JStr "Cloudflare")].

Lemma account_step_tables account_id account_data c :
  let c' := (account_step account_id account_data c).1 in
  (account_step account_id account_data c).2 = inr ()
  ∧ working c' = committed c'
  ∧ Engine.zones (committed c') = Engine.zones (working c)
  ∧ Engine.records (committed c') = Engine.records (working c)
  ∧ Engine.load_balancers (committed c') = Engine.load_balancers (working c)
  ∧ Engine.origins (committed c') = Engine.origins (working c)
  ∧ Engine.record_table (committed c') = Engine.record_table (working c)
  ∧ Engine.next_record_id (committed c') = Engine.next_record_id (working c)
  ∧ Engine.lb_table (committed c') = Engine.lb_table (working c)
  ∧ Engine.next_lb_id (committed c') = Engine.next_lb_id (working c).
Proof.
  unfold account_step, Engine.upsert_account, bind, query, commit.
  destruct (List.find _ _); simpl; done.
Qed.

Lemma zone_id_of_truthy z :
  truthy (get_or_none z "id") = true →
  Engine.zone_id_of z = inr (get_or_none z "id").
Proof.
  unfold Engine.zone_id_of, get_or_none. by destruct (get z "id").
Qed.








End ZoneFailure.

Section ZoneFailureExamples.
Import Py Db.

Definition zone_named (zone_id name : string) : dict :=
  [("id", JStr zone_id); ("name", JStr name); ("status", JStr "active")].










End ZoneFailureExamples.

(** ** Invariants of effectful code *)

Section Invariants.
Import Py Db.

(** [m] keeps the property [I] of the state, whether it returns or
    raises. *)
Definition invariant {S A} (I : S → Prop) (m : M S A) : Prop :=
  ∀ s, I s → I (m s).1.

Context {S : Type} (I : S → Prop).

Lemma inv_ret {A} (a : A) : invariant I (ret a).
Proof. by intros s. Qed.

Lemma inv_raise {A} e : invariant I (@raise S A e).
Proof. by intros s. Qed.

Lemma inv_lift {A} (r : result A) : invariant I (lift r).
Proof. by intros s. Qed.

Lemma inv_bind {A B} (m : M S A) (k : A → M S B) :
  invariant I m → (∀ a, invariant I (k a)) → invariant I (bind m k).
Proof.
  intros Hm Hk s Hs. unfold bind. specialize (Hm s Hs).
  destruct (m s) as [s' [e|a]]; [done|]. by apply Hk.
Qed.

Lemma inv_try_except {A} (m : M S A) catches h :
  invariant I m → (∀ e, invariant I (h e)) → invariant I (try_except m catches h).
Proof.
  intros Hm Hh s Hs. unfold try_except. specialize (Hm s Hs).
  destruct (m s) as [s' [e|a]]; [|done].
  destruct (catches e); [by apply Hh|done].
Qed.

Lemma inv_for_each {A T} (xs : list A) (body : A → T → M S T) t :
  (∀ x t, invariant I (body x t)) → invariant I (for_each xs body t).
Proof.
  intros Hbody. revert t. induction xs as [|x xs IH]; intros t; simpl.
  - apply inv_ret.
  - apply inv_bind; [apply Hbody|apply IH].
Qed.

Lemma inv_for_each_elem {A T} (xs : list A) (body : A → T → M S T) t :
  (∀ x t, x ∈ xs → invariant I (body x t)) → invariant I (for_each xs body t).
Proof.
  revert t. induction xs as [|x xs IH]; intros t Hbody; simpl.
  - apply inv_ret.
  - apply inv_bind; [apply Hbody; by left|].
    intros t'. apply IH. intros y t'' Hy. apply Hbody. by right.
Qed.

End Invariants.

Section ConnInvariants.
Import Py Db.

Context {D X : Type} (proj : D → X) (x : X).

(** Both copies of the database project to [x]. *)
Definition both (c : conn D) : Prop :=
  proj (committed c) = x ∧ proj (working c) = x.

Lemma inv_execute (g : D → D) :
  (∀ d, proj (g d) = proj d) → invariant both (execute g).
Proof. intros Hg c [? ?]. split; simpl; [done|]. by rewrite Hg. Qed.

Lemma inv_query {A} (g : D → D * A) :
  (∀ d, proj (g d).1 = proj d) → invariant both (query g).
Proof.
  intros Hg c [? ?]. unfold query. specialize (Hg (working c)).
  destruct (g (working c)). split; simpl in *; congruence.
Qed.

Lemma inv_commit : invariant both (@commit D).
Proof. by intros c [? ?]. Qed.

Lemma inv_rollback : invariant both (@rollback D).
Proof. by intros c [? ?]. Qed.

End ConnInvariants.

(** ** Credentials that fail to decrypt *)

Section CredentialIsolation.
Import Py Db.

Variable now : nat.
Variable ENCRYPTION_KEY : string.
Variable decrypt_and_verify : string → list Z → list Z → list Z → option string.
Variable api : Engine.CloudflareConfig → Engine.CloudflareClient.

Local Abbreviation load_rows := (MultiUser.load_rows ENCRYPTION_KEY decrypt_and_verify).
Local Abbreviation decrypt_api_key :=
  (MultiUser.decrypt_api_key ENCRYPTION_KEY decrypt_and_verify).



(** The rows of the credential table that carry the id [i]. *)
Definition with_id (i : nat) (d : MultiUser.db) : list MultiUser.credential_row :=
  List.filter (λ r, MultiUser.c_id r =? i) (MultiUser.credentials d).

Section Untouched.

(** A projection [proj] of the database that depends on the credential
    table only, and that a status update leaves alone for the
    credential ids in [spared]. *)
Context {X : Type} (proj : MultiUser.db → X) (x : X) (spared : nat → Prop).

Hypothesis proj_credentials :
  ∀ d d', MultiUser.credentials d' = MultiUser.credentials d → proj d' = proj d.

Hypothesis inv_update_status :
  ∀ cid status error, spared cid →
    invariant (both proj x)
      (MultiUser.update_credential_sync_status now cid status error).

Local Abbreviation I := (both proj x).
Local Abbreviation If := (λ f : MultiUser.frame, I f.1).
Local Abbreviation It := (λ f : conn MultiUser.db * MultiUser.totals, I f.1).

Lemma inv_on_conn {A} (m : M (conn MultiUser.db) A) :
  invariant I m → invariant If (MultiUser.on_conn m).
Proof.
  intros Hm f Hf. unfold MultiUser.on_conn. specialize (Hm f.1 Hf).
  by destruct (m f.1).
Qed.

Lemma inv_count g : invariant If (MultiUser.count g).
Proof. by intros f. Qed.

Lemma inv_on_db {A} (m : M (conn MultiUser.db) A) :
  invariant I m → invariant It (MultiUser.on_db m).
Proof.
  intros Hm f Hf. unfold MultiUser.on_db. specialize (Hm f.1 Hf).
  by destruct (m f.1).
Qed.

Lemma inv_tally g : invariant It (MultiUser.tally g).
Proof. by intros f. Qed.

Lemma inv_get_or_create_account cf_account_id :
  invariant I (MultiUser.get_or_create_account cf_account_id).
Proof.
  unfold MultiUser.get_or_create_account.
  apply inv_bind; [apply inv_query; intros d; by apply proj_credentials|].
  intros [r|]; [apply inv_ret|].
  apply inv_bind; [apply inv_query; intros d; by apply proj_credentials|].
  intros ?.
  apply inv_bind; [apply inv_commit|]. intros ?. apply inv_ret.
Qed.

Lemma proj_upsert_zone zone_id account_db_id zone_name status d :
  proj (MultiUser.upsert_zone now zone_id account_db_id zone_name status d)
  = proj d.
Proof.
  apply proj_credentials. unfold MultiUser.upsert_zone.
  by destruct (List.find _ _).
Qed.

Lemma proj_upsert_record record_id zone_db_id n t c l p q d :
  proj (MultiUser.upsert_record now record_id zone_db_id n t c l p q d)
  = proj d.
Proof.
  apply proj_credentials. unfold MultiUser.upsert_record.
  by destruct (List.find _ _).
Qed.

Lemma inv_sync_record zone_id record u :
  invariant If (MultiUser.sync_record now zone_id record u).
Proof.
  unfold MultiUser.sync_record. apply inv_try_except.
  - apply inv_bind; [apply inv_lift|]. intros r.
    destruct (negb _); [apply inv_count|].
    apply inv_bind.
    { apply inv_on_conn, inv_query. intros d. by apply proj_credentials. }
    intros [z|]; [|apply inv_count].
    apply inv_bind.
    { apply inv_on_conn, inv_execute. intros d. apply proj_upsert_record. }
    intros ?. apply inv_bind; [apply inv_on_conn, inv_commit|].
    intros ?. apply inv_count.
  - intros e. apply inv_bind; [apply inv_lift|]. intros ?. apply inv_count.
Qed.

Lemma inv_sync_zone account_db_id cf_client cf_domain zone u :
  invariant If (MultiUser.sync_zone now account_db_id cf_client cf_domain zone u).
Proof.
  unfold MultiUser.sync_zone. apply inv_bind.
  { destruct cf_domain as [domain|]; [|apply inv_ret].
    destruct (Config.is_empty domain); [apply inv_ret|].
    apply inv_bind; [apply inv_lift|]. intros ?. apply inv_ret. }
  intros [|]; [apply inv_ret|].
  apply inv_try_except.
  - apply inv_bind; [apply inv_lift|]. intros z.
    destruct (_ || _); [apply inv_count|].
    apply inv_bind.
    { apply inv_on_conn, inv_execute. intros d. apply proj_upsert_zone. }
    intros ?. apply inv_bind; [apply inv_on_conn, inv_commit|].
    intros ?. apply inv_bind; [apply inv_count|].
    intros ?. apply inv_bind; [apply inv_lift|].
    intros records. apply inv_for_each. intros. apply inv_sync_record.
  - intros e. apply inv_bind; [apply inv_lift|]. intros ?. apply inv_count.
Qed.

Lemma inv_sync_cloudflare_account cf_client cf_account_id cf_domain
    credential_id user_id :
  (∀ cid, MultiUser.has_credential credential_id = Some cid → spared cid) →
  invariant I (MultiUser.sync_cloudflare_account now cf_client cf_account_id
                 cf_domain credential_id user_id).
Proof.
  intros Hcid c Hc. unfold MultiUser.sync_cloudflare_account.
  match goal with
  | |- context [try_except ?m ?p ?h ?st] =>
      assert (invariant If (try_except m p h)) as Hinv;
      [|specialize (Hinv st Hc); by destruct (try_except m p h st) as [[? ?] ?]]
  end.
  apply inv_try_except.
  - apply inv_bind; [apply inv_on_conn, inv_get_or_create_account|].
    intros ?. apply inv_bind; [apply inv_lift|].
    intros zones. apply inv_bind.
    { apply inv_for_each. intros. apply inv_sync_zone. }
    intros ? f Hf. done.
  - intros e. apply inv_bind; [apply inv_count|]. intros ?.
    apply inv_bind; [|intros; apply inv_raise].
    destruct (MultiUser.has_credential credential_id) as [cid|] eqn:E;
      [|apply inv_ret].
    apply inv_on_conn, inv_update_status. by apply Hcid.
Qed.

Lemma inv_sync_global cf_config :
  invariant It (MultiUser.sync_global now api cf_config).
Proof.
  unfold MultiUser.sync_global. apply inv_try_except.
  - apply inv_bind; [apply inv_lift|]. intros cfg.
    apply inv_for_each. intros cf_account_id ?.
    apply inv_bind; [|intros; apply inv_tally].
    apply inv_on_db, inv_sync_cloudflare_account. done.
  - intros e. apply inv_tally.
Qed.

Lemma inv_sync_user cred u :
  spared (MultiUser.id cred) →
  invariant It (MultiUser.sync_user now api cred u).
Proof.
  intros Hne. unfold MultiUser.sync_user. apply inv_try_except.
  - apply inv_bind.
    { apply inv_on_db, inv_sync_cloudflare_account. simpl.
      intros cid. destruct (MultiUser.id cred); by intros [= <-]. }
    intros r. apply inv_bind; [apply inv_tally|].
    intros ?. by apply inv_on_db, inv_update_status.
  - intros e. apply inv_bind; [|intros; apply inv_tally].
    by apply inv_on_db, inv_update_status.
Qed.

End Untouched.

Lemma update_status_with_id i x cid status error :
  cid ≠ i →
  invariant (both (with_id i) x)
    (MultiUser.update_credential_sync_status now cid status error).
Proof.
  intros Hne. unfold MultiUser.update_credential_sync_status.
  apply inv_bind; [|intros; apply inv_commit].
  apply inv_execute. intros d. unfold with_id. simpl.
  induction (MultiUser.credentials d) as [|r l IH]; [done|]. simpl.
  destruct (MultiUser.c_id r =? cid) eqn:E; simpl.
  - apply Nat.eqb_eq in E.
    destruct (MultiUser.c_id r =? i) eqn:E'; [apply Nat.eqb_eq in E'; lia|].
    done.
  - destruct (MultiUser.c_id r =? i); by rewrite IH.
Qed.

Lemma with_id_credentials i d d' :
  MultiUser.credentials d' = MultiUser.credentials d → with_id i d' = with_id i d.
Proof. unfold with_id. by intros ->. Qed.

Local Abbreviation main := (MultiUser.main now ENCRYPTION_KEY decrypt_and_verify api).
Local Abbreviation load_user_credentials :=
  (MultiUser.load_user_credentials ENCRYPTION_KEY decrypt_and_verify).


End CredentialIsolation.

Section CredentialIsolationExamples.
Import Py Db.

(** A stand-in for AES-GCM that accepts the tag [aa] only. *)
Definition toy_cipher (key : string) (iv encrypted auth_tag : list Z)
    : option string :=
  if bool_decide (auth_tag = [170%Z]) then Some "api-key-of-user" else None.

Definition credential (cid : nat) (secret : string) : MultiUser.credential_row :=
  {| MultiUser.c_id := cid; MultiUser.c_user_id := 10 + cid;
     MultiUser.c_account_id := 1;
     MultiUser.c_cf_email := "user@example.org";
     MultiUser.c_cf_api_key := secret;
     MultiUser.c_cf_account_id := "acct";
     MultiUser.c_cf_domain := None; MultiUser.c_cf_api_url := None;
     MultiUser.c_enabled := true; MultiUser.c_auto_sync := true;
     MultiUser.c_last_sync_at := None; MultiUser.c_last_sync_status := None;
     MultiUser.c_last_sync_error := None |}.

(** Two enabled credentials; the secret of the first is not of the
    form [iv:authTag:ciphertext]. *)
Definition two_credentials : MultiUser.db :=
  {| MultiUser.accounts := []; MultiUser.next_account_id := 1;
     MultiUser.zones := []; MultiUser.next_zone_id := 1;
     MultiUser.records := [];
     MultiUser.credentials :=
       [credential 1 "corrupt-secret"; credential 2 "00ff:aa:0102"] |}.

End CredentialIsolationExamples.

(** ** Exit status *)

Section ExitStatus.
Import Py Db.









Variable now : nat.
Variable api : Engine.CloudflareConfig → Engine.CloudflareClient.


(** What one user credential adds to [total_errors]: the errors its
    sync reports, or one when its sync raises. *)
Definition user_client (cred : MultiUser.UserCloudflareCredential)
    : Engine.CloudflareClient :=
  api {| Engine.base_url := MultiUser.cf_api_url cred;
         Engine.email := Some (MultiUser.cf_email cred);
         Engine.api_key := Some (MultiUser.cf_api_key cred);
         Engine.api_token := None;
         Engine.account_ids := [MultiUser.cf_account_id cred] |}.

Definition unit_errors (cred : MultiUser.UserCloudflareCredential)
    (c : conn MultiUser.db) : nat :=
  match (MultiUser.sync_cloudflare_account now (user_client cred)
           (MultiUser.cf_account_id cred) (MultiUser.cf_domain cred)
           (Some (MultiUser.id cred)) (Some (MultiUser.user_id cred)) c).2 with
  | inr r => r.2
  | inl _ => 1
  end.

Lemma sync_user_total cred u f :
  (MultiUser.sync_user now api cred u f).2 = inr ()
  ∧ MultiUser.total_errors (MultiUser.sync_user now api cred u f).1.2
    = MultiUser.total_errors f.2 + unit_errors cred f.1.
Proof.
  unfold MultiUser.sync_user, unit_errors, user_client.
  unfold try_except, bind, MultiUser.on_db, MultiUser.tally.
  destruct (MultiUser.sync_cloudflare_account _ _ _ _ _ _ f.1) as [c [e|r]];
    simpl; done.
Qed.



Variable fromisoformat : string → option string.
Variable ENCRYPTION_KEY : string.
Variable decrypt_and_verify : string → list Z → list Z → list Z → option string.

(** The global credentials part of the multi-user [main]. *)
Definition global_part (skip_global : bool)
    (cf_config_file : option (result Engine.CloudflareConfig))
    : M (conn MultiUser.db * MultiUser.totals) unit :=
  match cf_config_file with
  | Some cf_config =>
      if skip_global then ret () else MultiUser.sync_global now api cf_config
  | None => ret ()
  end.

Definition no_totals : MultiUser.totals :=
  {| MultiUser.total_zones := 0; MultiUser.total_records := 0;
     MultiUser.total_errors := 0 |}.


End ExitStatus.

Section ExitStatusExamples.
Import Py Db.




End ExitStatusExamples.

(** ** The status written for a credential *)

Section StatusStamps.
Import Py Db.

Variable now : nat.
Variable ENCRYPTION_KEY : string.
Variable decrypt_and_verify : string → list Z → list Z → list Z → option string.
Variable api : Engine.CloudflareConfig → Engine.CloudflareClient.

(** The outcomes [main] and [sync_cloudflare_account] record. *)
Definition recorded (status : string) (error : option exn) : Prop :=
  (status = "success" ∨ status = "partial") ∧ error = None
  ∨ status = "failed" ∧ ∃ e, error = Some e.

(** The row carries the time of this run and one of those outcomes. *)
Definition stamped (row : MultiUser.credential_row) : Prop :=
  MultiUser.c_last_sync_at row = Some now
  ∧ ∃ status,
      MultiUser.c_last_sync_status row = Some status
      ∧ recorded status (MultiUser.c_last_sync_error row).

Lemma update_status_stamps cid status error c :
  let c' := (MultiUser.update_credential_sync_status now cid status error c).1 in
  working c' = committed c'
  ∧ ∀ row, row ∈ with_id cid (committed c') →
      MultiUser.c_last_sync_at row = Some now
      ∧ MultiUser.c_last_sync_status row = Some status
      ∧ MultiUser.c_last_sync_error row = error.
Proof.
  unfold MultiUser.update_credential_sync_status, bind, execute, commit, with_id.
  simpl. split; [done|].
  intros row [Hin Hid]%list_elem_of_In%filter_In. apply Nat.eqb_eq in Hid.
  apply in_map_iff in Hin as (r0 & Hrow & _).
  destruct (MultiUser.c_id r0 =? cid) eqn:E.
  - by subst row.
  - subst row. apply Nat.eqb_neq in E. done.
Qed.

(** The last statement [sync_user] runs on the connection is the
    update of the credential's status. *)
Lemma sync_user_ends cred u f :
  ∃ c1 status error,
    (MultiUser.sync_user now api cred u f).1.1
    = (MultiUser.update_credential_sync_status now (MultiUser.id cred)
         status error c1).1
    ∧ recorded status error.
Proof.
  unfold MultiUser.sync_user, try_except, bind, MultiUser.on_db, MultiUser.tally.
  destruct (MultiUser.sync_cloudflare_account _ _ _ _ _ _ f.1) as [c1 [e|r]];
    simpl.
  - exists c1, "failed", (Some e). split; [done|]. right. split; [done|].
    by eexists.
  - exists c1, (if r.2 =? 0 then "success" else "partial"), None.
    split; [done|]. left. split; [|done]. destruct (r.2 =? 0); auto.
Qed.

Lemma sync_user_stamps cred u f :
  let f' := (MultiUser.sync_user now api cred u f).1 in
  working f'.1 = committed f'.1
  ∧ ∀ row, row ∈ with_id (MultiUser.id cred) (committed f'.1) → stamped row.
Proof.
  destruct (sync_user_ends cred u f) as (c1 & status & error & Hend & Hrec).
  cbv zeta. rewrite Hend.
  destruct (update_status_stamps (MultiUser.id cred) status error c1)
    as [Hsame Hrows].
  split; [done|]. intros row Hrow.
  destruct (Hrows row Hrow) as (Hat & Hstatus & Herror).
  split; [done|]. exists status. split; [done|]. by rewrite Herror.
Qed.

Lemma loop_stamps creds f :
  NoDup (MultiUser.id <$> creds) →
  let f' := (for_each creds (MultiUser.sync_user now api) () f).1 in
  ∀ cred row,
    cred ∈ creds → row ∈ with_id (MultiUser.id cred) (committed f'.1) →
    stamped row.
Proof.
  revert f. induction creds as [|c rest IH]; intros f Hnd f' cred row.
  { by intros ?%elem_of_nil. }
  rewrite fmap_cons in Hnd. apply NoDup_cons in Hnd as [Hfresh Hnd].
  subst f'. cbn [for_each]. unfold bind.
  destruct (sync_user_total now api c () f) as [Hret _].
  destruct (sync_user_stamps c () f) as [Hsame Hrows].
  destruct (MultiUser.sync_user now api c () f) as [f1 [e|[]]]; [done|].
  simpl in Hsame, Hrows.
  intros [->|Hin]%elem_of_cons; [|by apply (IH f1)].
  assert (invariant (λ f : conn MultiUser.db * MultiUser.totals,
                       both (with_id (MultiUser.id c))
                         (with_id (MultiUser.id c) (committed f1.1)) f.1)
            (for_each rest (MultiUser.sync_user now api) ())) as Hkeep.
  { apply inv_for_each_elem. intros cred u Hcred.
    apply (inv_sync_user now api (with_id (MultiUser.id c)) _
             (λ cid, cid ≠ MultiUser.id c)).
    - apply with_id_credentials.
    - intros. by apply update_status_with_id.
    - intros Heq. apply Hfresh. rewrite <-Heq.
      apply list_elem_of_fmap. by exists cred. }
  destruct (Hkeep f1) as [Hc _].
  { split; [done|]. by rewrite Hsame. }
  rewrite Hc. apply Hrows.
Qed.

Lemma load_rows_sublist rows :
  MultiUser.id <$> (MultiUser.load_rows ENCRYPTION_KEY decrypt_and_verify rows).1
  `sublist_of` MultiUser.c_id <$> rows.
Proof.
  induction rows as [|row rows IH]; [done|]. simpl.
  destruct (MultiUser.load_rows _ _ rows) as [creds log]. simpl in IH.
  destruct (MultiUser.decrypt_api_key _ _ _); simpl.
  - by apply sublist_cons.
  - by apply sublist_skip.
Qed.




Local Abbreviation load_rows := (MultiUser.load_rows ENCRYPTION_KEY decrypt_and_verify).
Local Abbreviation decrypt_api_key :=
  (MultiUser.decrypt_api_key ENCRYPTION_KEY decrypt_and_verify).
Local Abbreviation main := (MultiUser.main now ENCRYPTION_KEY decrypt_and_verify api).
Local Abbreviation load_user_credentials :=
  (MultiUser.load_user_credentials ENCRYPTION_KEY decrypt_and_verify).


End StatusStamps.

Section DecryptFailureExamples.
Import Py Db.



End DecryptFailureExamples.

(** ** Running the engine twice *)

(** *** Replacing the rows of zones, as a function on tables *)

Section ReplaceByZone.

Context {A : Type} (zone_of : A → nat).

(** One replacement: the rows of zone [e.1] are dropped and the rows
    [e.2] are appended. *)
Definition replace_rows (table : list A) (e : nat * list A) : list A :=
  List.filter (λ r, negb (zone_of r =? e.1)) table ++ e.2.

Definition owned (e : nat * list A) : Prop :=
  Forall (λ r, zone_of r = e.1) e.2.










End ReplaceByZone.

(** *** The local id of a zone *)

Section ZoneLookup.
Import Py Db.

(** The id of the first zone row that carries the provider id [key]. *)
Fixpoint zlookup (key : json) (zs : list Engine.zone_row) : option nat :=
  match zs with
  | [] => None
  | r :: zs' =>
      if json_eqb (Engine.z_cf_zone_id r) key then Some (Engine.z_id r)
      else zlookup key zs'
  end.

(** The id [upsert_zone] returns for [key]. *)
Definition local_id (key : json) (d : Engine.db) : nat :=
  default (Engine.next_zone_id d) (zlookup key (Engine.zones d)).

Lemma zlookup_find key zs :
  zlookup key zs
  = Engine.z_id <$> List.find (λ r, json_eqb (Engine.z_cf_zone_id r) key) zs.
Proof.
  induction zs as [|r zs IH]; [done|]. simpl.
  by destruct (json_eqb (Engine.z_cf_zone_id r) key).
Qed.

Lemma zlookup_update_first key p f zs :
  (∀ r, Engine.z_id (f r) = Engine.z_id r
        ∧ Engine.z_cf_zone_id (f r) = Engine.z_cf_zone_id r) →
  zlookup key (Engine.update_first p f zs) = zlookup key zs.
Proof.
  intros Hf. induction zs as [|r zs IH]; [done|]. simpl.
  destruct (p r); simpl.
  - destruct (Hf r) as [-> ->]. done.
  - by rewrite IH.
Qed.

Lemma zlookup_map key f zs :
  (∀ r, Engine.z_id (f r) = Engine.z_id r
        ∧ Engine.z_cf_zone_id (f r) = Engine.z_cf_zone_id r) →
  zlookup key (map f zs) = zlookup key zs.
Proof.
  intros Hf. induction zs as [|r zs IH]; [done|]. simpl.
  destruct (Hf r) as [-> ->]. by rewrite IH.
Qed.

Lemma zlookup_app key zs r :
  zlookup key (zs ++ [r])
  = match zlookup key zs with
    | Some i => Some i
    | None => if json_eqb (Engine.z_cf_zone_id r) key
              then Some (Engine.z_id r) else None
    end.
Proof.
  induction zs as [|r' zs IH]; [done|]. simpl.
  by destruct (json_eqb (Engine.z_cf_zone_id r') key).
Qed.

Lemma zlookup_mark_synced now local key d :
  zlookup key (Engine.zones (Engine.mark_synced now local d))
  = zlookup key (Engine.zones d).
Proof.
  unfold Engine.mark_synced. simpl. apply zlookup_map.
  intros r. by destruct (Engine.z_id r =? local).
Qed.

Lemma zone_values_id z v :
  Engine.zone_values z = inr v → v.1.1.1.1.1 = get_or_none z "id".
Proof.
  unfold Engine.zone_values. destruct (por _ _); try done. by intros [= <-].
Qed.

(** [upsert_zone] returns the local id of the zone, makes it the id
    found for the zone from then on, and moves no other lookup. *)
Lemma upsert_zone_lookup now account_id z c v :
  Engine.zone_values z = inr v →
  ∃ w,
    Engine.upsert_zone now account_id z c
    = (Conn (committed c) w, inr (local_id (get_or_none z "id") (working c)))
    ∧ zlookup (get_or_none z "id") (Engine.zones w)
      = Some (local_id (get_or_none z "id") (working c))
    ∧ (∀ key i, zlookup key (Engine.zones (working c)) = Some i →
                zlookup key (Engine.zones w) = Some i)
    ∧ Engine.records w = Engine.records (working c)
    ∧ Engine.load_balancers w = Engine.load_balancers (working c)
    ∧ Engine.origins w = Engine.origins (working c)
    ∧ Engine.record_table w = Engine.record_table (working c)
    ∧ Engine.next_record_id w = Engine.next_record_id (working c)
    ∧ Engine.lb_table w = Engine.lb_table (working c)
    ∧ Engine.next_lb_id w = Engine.next_lb_id (working c).
Proof.
  intros Hv. pose proof (zone_values_id z v Hv) as Hid.
  unfold Engine.upsert_zone, bind, lift, query. rewrite Hv.
  destruct v as [[[[[cf name] status] paused] ty] plan]. simpl in Hid. subst cf.
  unfold local_id. rewrite zlookup_find.
  destruct (List.find _ (Engine.zones (working c))) as [zr|] eqn:Hfind; simpl.
  - eexists. split; [done|]. simpl.
    split; [|split; [|done]].
    + rewrite zlookup_update_first; [|done]. by rewrite zlookup_find, Hfind.
    + intros key i. by rewrite zlookup_update_first.
  - eexists. split; [done|]. simpl.
    split; [|split; [|done]].
    + rewrite zlookup_app, zlookup_find, Hfind. simpl.
      by rewrite json_eqb_refl.
    + intros key i Hi. by rewrite zlookup_app, Hi.
Qed.

End ZoneLookup.

(** *** What one zone does to the tables *)

Section ZoneStep.
Import Py Db.

Variable fromisoformat : string → option string.
Variable cf_client : Engine.CloudflareClient.

Lemma record_payloads_shift l l' R :
  match Engine.record_payloads fromisoformat l R with
  | inl e => Engine.record_payloads fromisoformat l' R = inl e
  | inr _ => ∃ rows, Engine.record_payloads fromisoformat l' R = inr rows
  end.
Proof.
  induction R as [|record R IH]; simpl; [by eexists|].
  unfold Engine.record_payload.
  destruct (Engine.as_dict record) as [e|r]; [done|].
  destruct (match get_default r "tags" (JArr []) with JArr _ => _ | _ => _ end)
    as [e|tags]; [done|].
  destruct (Engine.parse_timestamp fromisoformat _) as [e|ts]; [done|].
  destruct (Engine.record_payloads fromisoformat l R) as [e|rows].
  - by rewrite IH.
  - destruct IH as [rows' ->]. by eexists.
Qed.

Lemma balancer_payloads_shift l l' B :
  match Engine.balancer_payloads l B with
  | inl e => Engine.balancer_payloads l' B = inl e
  | inr _ => ∃ rows, Engine.balancer_payloads l' B = inr rows
  end.
Proof.
  induction B as [|balancer B IH]; simpl; [by eexists|].
  unfold Engine.balancer_payload.
  destruct (Engine.as_dict balancer) as [e|b]; [done|].
  destruct (Engine.balancer_payloads l B) as [e|rows].
  - by rewrite IH.
  - destruct IH as [rows' ->]. by eexists.
Qed.

Lemma balancer_payloads_zone l B rows :
  Engine.balancer_payloads l B = inr rows →
  Forall (λ r, Engine.lb_zone_id r = l) rows ∧ length rows = length B.
Proof.
  revert rows. induction B as [|balancer B IH]; intros rows; simpl.
  - by intros [= <-].
  - unfold Engine.balancer_payload.
    destruct (Engine.as_dict balancer) as [e|b]; [done|].
    destruct (Engine.balancer_payloads l B) as [e|rows']; [done|].
    intros [= <-]. destruct (IH rows' eq_refl) as [Hall Hlen].
    split; [by constructor|simpl; congruence].
Qed.

(** The rows inserted for the zone with local id [l]. *)
Definition record_rows (l : nat) (R : list json) : list Engine.record_row :=
  match Engine.record_payloads fromisoformat l R with
  | inr rows => rows
  | inl _ => []
  end.

Definition balancer_rows (l : nat) (B : list json) : list Engine.lb_row :=
  match Engine.balancer_payloads l B with
  | inr rows => rows
  | inl _ => []
  end.

Lemma record_rows_owned l R : owned Engine.r_zone_id (l, record_rows l R).
Proof.
  unfold owned, record_rows. simpl.
  destruct (Engine.record_payloads fromisoformat l R) eqn:E; [constructor|].
  by apply record_payloads_zone in E as [? _].
Qed.

Lemma balancer_rows_owned l B : owned Engine.lb_zone_id (l, balancer_rows l B).
Proof.
  unfold owned, balancer_rows. simpl.
  destruct (Engine.balancer_payloads l B) eqn:E; [constructor|].
  by apply balancer_payloads_zone in E as [? _].
Qed.

(** What becomes of an exception raised inside [try: sync_zone]. *)
Definition escaping (e : exn) : option exn :=
  if is_cloudflare_error e then None else Some e.

(** The ways one zone of the provider's list can go. They depend on
    the provider's answers only, not on the database. *)
Inductive kind : Type :=
  | Halt (e : exn)
  | Skip
  | AccountOnly (account_data : dict) (escaped : option exn)
  | Sync (account_data : dict) (zone_id : json) (R B : list json).

Definition classify (account_id : string) (zone : json) : kind :=
  match zone with
  | JObj z =>
      let zone_id := get_or_none z "id" in
      if negb (truthy zone_id) then Skip
      else
        match por (get_or_none z "account") (default_account account_id) with
        | JObj account_data =>
            match Engine.list_records cf_client zone_id with
            | inl e => AccountOnly account_data (escaping e)
            | inr R =>
                match Engine.list_load_balancers cf_client zone_id with
                | inl e => AccountOnly account_data (escaping e)
                | inr B =>
                    match Engine.zone_values z with
                    | inl e => AccountOnly account_data (escaping e)
                    | inr _ =>
                        match Engine.record_payloads fromisoformat 0 R with
                        | inl e => AccountOnly account_data (escaping e)
                        | inr _ =>
                            match Engine.balancer_payloads 0 B with
                            | inl e => AccountOnly account_data (escaping e)
                            | inr _ => Sync account_data zone_id R B
                            end
                        end
                    end
                end
            end
        | _ => Halt (AttributeError "object has no attribute 'get'")
        end
  | _ => Halt (AttributeError "object has no attribute 'get'")
  end.

Lemma replace_zone_load_balancers_run zid B c :
  Engine.replace_zone_load_balancers zid B c
  = match Engine.balancer_payloads zid B with
    | inr rows =>
        (Conn (committed c)
           (Engine.insert_load_balancers rows
              (Engine.delete_zone_load_balancers zid (working c))),
         inr (length B))
    | inl e =>
        (Conn (committed c) (Engine.delete_zone_load_balancers zid (working c)),
         inl e)
    end.
Proof.
  unfold Engine.replace_zone_load_balancers, bind, execute, lift, ret.
  destruct B as [|balancer B].
  - simpl. by rewrite insert_load_balancers_nil.
  - destruct (Engine.balancer_payloads _ _) as [e|rows]; simpl; done.
Qed.

Variable now : nat.

(** [sync_zone] on a connection without pending changes. *)
Lemma sync_zone_run account_id z d :
  truthy (get_or_none z "id") = true →
  let zone_id := get_or_none z "id" in
  let out := Engine.sync_zone now fromisoformat cf_client account_id z (open d) in
  match Engine.list_records cf_client zone_id with
  | inl e => out = (open d, inl e)
  | inr R =>
      match Engine.list_load_balancers cf_client zone_id with
      | inl e => out = (open d, inl e)
      | inr B =>
          let failed e := out.2 = inl e ∧ committed out.1 = d in
          match Engine.zone_values z with
          | inl e => failed e
          | inr _ =>
              match Engine.record_payloads fromisoformat 0 R with
              | inl e => failed e
              | inr _ =>
                  match Engine.balancer_payloads 0 B with
                  | inl e => failed e
                  | inr _ =>
                      let l := local_id zone_id d in
                      ∃ d2,
                        out = (open d2, inr (length R, length B))
                        ∧ Engine.records d2
                          = replace_rows Engine.r_zone_id (Engine.records d)
                              (l, record_rows l R)
                        ∧ Engine.load_balancers d2
                          = replace_rows Engine.lb_zone_id
                              (Engine.load_balancers d) (l, balancer_rows l B)
                        ∧ Engine.origins d2 = Engine.origins d
                        ∧ zlookup zone_id (Engine.zones d2) = Some l
                        ∧ (∀ key i, zlookup key (Engine.zones d) = Some i →
                                    zlookup key (Engine.zones d2) = Some i)
                        ∧ Engine.record_table d2
                          = List.filter (λ r, negb (Engine.r_zone_id r.2 =? l))
                              (Engine.record_table d)
                            ++ Engine.numbered (Engine.next_record_id d)
                                 (record_rows l R)
                        ∧ Engine.next_record_id d2
                          = Engine.next_record_id d + length (record_rows l R)
                        ∧ Engine.lb_table d2
                          = List.filter (λ r, negb (Engine.lb_zone_id r.2 =? l))
                              (Engine.lb_table d)
                            ++ Engine.numbered (Engine.next_lb_id d)
                                 (balancer_rows l B)
                        ∧ Engine.next_lb_id d2
                          = Engine.next_lb_id d + length (balancer_rows l B)
                  end
              end
          end
      end
  end.
Proof.
  intros Hid zone_id out.
  assert (out = Engine.sync_zone now fromisoformat cf_client account_id z
                  (open d)) as Hout by done.
  clearbody out.
  unfold Engine.sync_zone, bind, lift in Hout.
  rewrite (zone_id_of_truthy _ Hid) in Hout. fold zone_id in Hout.
  destruct (Engine.list_records cf_client zone_id) as [e|R]; [done|].
  destruct (Engine.list_load_balancers cf_client zone_id) as [e|B]; [done|].
  destruct (Engine.zone_values z) as [e|v] eqn:Hv.
  { unfold Engine.upsert_zone, bind, lift in Hout. rewrite Hv in Hout.
    by subst out. }
  destruct (upsert_zone_lookup now account_id z (open d) v Hv)
    as (w & Hup & Hl & Hkeep & Hrec & Hlb & Horig & Hrt & Hrn & Hlt & Hln).
  rewrite Hup in Hout. clear Hup.
  simpl committed in *. simpl working in *. fold zone_id in Hl, Hout |- *.
  set (l := local_id zone_id d) in *.
  rewrite replace_zone_records_run in Hout.
  pose proof (record_payloads_shift 0 l R) as HR.
  destruct (Engine.record_payloads fromisoformat 0 R) as [e|rows0].
  { rewrite HR in Hout. by subst out. }
  destruct HR as [rows HR]. rewrite HR in Hout.
  rewrite replace_zone_load_balancers_run in Hout.
  pose proof (balancer_payloads_shift 0 l B) as HB.
  destruct (Engine.balancer_payloads 0 B) as [e|brows0].
  { rewrite HB in Hout. by subst out. }
  destruct HB as [brows HB]. rewrite HB in Hout.
  unfold execute, commit, ret in Hout. cbn [committed working fst snd] in Hout.
  eexists. split; [exact Hout|].
  split; [|split; [|split; [|split; [|split; [|split]]]]].
  - unfold record_rows, replace_rows. rewrite HR. cbn [fst snd]. rewrite <-Hrec.
    transitivity (Engine.records
                    (Engine.insert_records rows (Engine.delete_zone_records l w)));
      [done|].
    by rewrite records_insert, records_delete.
  - unfold balancer_rows, replace_rows. rewrite HB. cbn [fst snd]. rewrite <-Hlb.
    transitivity (Engine.load_balancers
                    (Engine.insert_load_balancers brows
                       (Engine.delete_zone_load_balancers l w)));
      [done|].
    by rewrite load_balancers_insert, load_balancers_delete.
  - simpl. done.
  - rewrite zlookup_mark_synced. exact Hl.
  - intros key i Hi. rewrite zlookup_mark_synced. by apply Hkeep.
  - unfold record_rows. rewrite HR. simpl. by rewrite Hrt, Hrn.
  - unfold record_rows, balancer_rows. rewrite HR, HB. simpl.
    by rewrite Hrn, Hlt, Hln.
Qed.

End ZoneStep.

(** *** What one step of the run does *)

Section RunSteps.
Import Py Db.

Variable fromisoformat : string → option string.
Variable cf_client : Engine.CloudflareClient.

Local Abbreviation classify := (classify fromisoformat cf_client).
Local Abbreviation record_rows := (record_rows fromisoformat).

(** The zones to sync, in the order [sync_accounts] meets them; an
    exception of [list_zones] that is not caught ends the list. *)
Inductive item : Type :=
  | ZoneItem (account_id : string) (zone : json)
  | AbortItem (e : exn).

Definition plan (account_ids : list string) : list item :=
  account_ids ≫= λ account_id,
    match Engine.list_zones cf_client account_id with
    | inr zones => ZoneItem account_id <$> zones
    | inl e => if is_cloudflare_error e then [] else [AbortItem e]
    end.

Definition kind_of (it : item) : kind :=
  match it with
  | ZoneItem account_id zone => classify account_id zone
  | AbortItem e => Halt e
  end.

(** The result of a step, which the database has no part in. *)
Definition verdict (k : kind) (s : Engine.summary) : result Engine.summary :=
  match k with
  | Halt e => inl e
  | Skip => inr s
  | AccountOnly _ None => inr s
  | AccountOnly _ (Some e) => inl e
  | Sync _ _ R B =>
      inr {| Engine.s_zones := Engine.s_zones s + 1;
             Engine.s_records := Engine.s_records s + length R;
             Engine.s_load_balancers := Engine.s_load_balancers s + length B |}
  end.

Section AtTime.

Variable now : nat.

Definition step (it : item) (s : Engine.summary) : M (conn Engine.db) Engine.summary :=
  match it with
  | ZoneItem account_id zone =>
      Engine.sync_accounts_zone now fromisoformat cf_client account_id zone s
  | AbortItem e => raise e
  end.

Lemma for_each_fmap {S A B T} (f : A → B) (xs : list A) (body : B → T → M S T)
    (t : T) (s : S) :
  for_each (f <$> xs) body t s = for_each xs (λ x, body (f x)) t s.
Proof.
  revert t s. induction xs as [|x xs IH]; intros t s; [done|]. simpl.
  unfold bind. destruct (body (f x) t s) as [s' [e|t']]; [done|]. apply IH.
Qed.

Lemma sync_accounts_plan account_ids s c :
  for_each account_ids
    (Engine.sync_accounts_account now fromisoformat cf_client) s c
  = for_each (plan account_ids) step s c.
Proof.
  revert s c. induction account_ids as [|account_id ids IH]; intros s c; [done|].
  change (plan (account_id :: ids))
    with (match Engine.list_zones cf_client account_id with
          | inr zones => ZoneItem account_id <$> zones
          | inl e => if is_cloudflare_error e then [] else [AbortItem e]
          end ++ plan ids).
  rewrite for_each_app.
  change (for_each (account_id :: ids)
            (Engine.sync_accounts_account now fromisoformat cf_client) s c)
    with (bind (Engine.sync_accounts_account now fromisoformat cf_client
                  account_id s)
               (for_each ids
                  (Engine.sync_accounts_account now fromisoformat cf_client)) c).
  assert (Engine.sync_accounts_account now fromisoformat cf_client account_id s c
          = for_each
              match Engine.list_zones cf_client account_id with
              | inr zones => ZoneItem account_id <$> zones
              | inl e => if is_cloudflare_error e then [] else [AbortItem e]
              end step s c) as Hhead.
  { unfold Engine.sync_accounts_account, try_except, bind, lift, ret.
    destruct (Engine.list_zones cf_client account_id) as [e|zones].
    - by destruct (is_cloudflare_error e).
    - by rewrite for_each_fmap. }
  unfold bind. rewrite Hhead.
  destruct (for_each _ step s c) as [c' [e|s']]; [done|]. apply IH.
Qed.

Lemma account_step_next account_id account_data c :
  Engine.next_zone_id (committed (account_step now account_id account_data c).1)
  = Engine.next_zone_id (working c).
Proof.
  unfold account_step, Engine.upsert_account, bind, query, commit.
  destruct (List.find _ _); done.
Qed.

Lemma account_step_local_id account_id account_data key c :
  local_id key (committed (account_step now account_id account_data c).1)
  = local_id key (working c).
Proof.
  unfold local_id. rewrite account_step_next.
  destruct (account_step_tables now account_id account_data c)
    as (_ & _ & -> & _). done.
Qed.

Lemma account_step_open account_id account_data c :
  (account_step now account_id account_data c).1
  = open (committed (account_step now account_id account_data c).1).
Proof.
  destruct (account_step_tables now account_id account_data c)
    as (_ & Hw & _).
  destruct (account_step now account_id account_data c).1 as [cm w].
  simpl in *. by subst.
Qed.

Lemma sync_accounts_zone_unfold account_id z account_data s c :
  truthy (get_or_none z "id") = true →
  por (get_or_none z "account") (default_account account_id) = JObj account_data →
  ∃ db_account_id,
    Engine.sync_accounts_zone now fromisoformat cf_client account_id (JObj z) s c
    = match Engine.sync_zone now fromisoformat cf_client db_account_id z
              (account_step now account_id account_data c).1 with
      | (c', inl e) =>
          if is_cloudflare_error e
          then (Conn (committed c') (committed c'), inr s)
          else (c', inl e)
      | (c', inr counts) =>
          (c', inr {| Engine.s_zones := Engine.s_zones s + 1;
                      Engine.s_records := Engine.s_records s + counts.1;
                      Engine.s_load_balancers :=
                        Engine.s_load_balancers s + counts.2 |})
      end.
Proof.
  intros Hid Hacct.
  unfold Engine.sync_accounts_zone, account_step, bind, lift.
  cbn [Engine.as_dict]. rewrite Hid. cbn [negb].
  unfold default_account in Hacct. rewrite Hacct. cbn [Engine.as_dict].
  destruct (Engine.upsert_account now _ _ c) as [c1 [e|db_account_id]] eqn:Hup.
  { unfold Engine.upsert_account, query in Hup.
    destruct (List.find _ _); by injection Hup. }
  exists db_account_id.
  unfold commit, try_except, rollback, ret. cbn [fst snd working committed].
  destruct (Engine.sync_zone _ _ _ _ _ _) as [c' [e|[record_count lb_count]]];
    [|done].
  by destruct (is_cloudflare_error e).
Qed.

(** One step from a database without pending changes. *)
Lemma step_facts (it : item) (s : Engine.summary) (d : Engine.db) :
  let out := step it s (open d) in
  let d' := committed out.1 in
  out.2 = verdict (kind_of it) s
  ∧ (∀ s', out.2 = inr s' → out.1 = open d')
  ∧ Engine.origins d' = Engine.origins d
  ∧ (∀ key i, zlookup key (Engine.zones d) = Some i →
              zlookup key (Engine.zones d') = Some i)
  ∧ match kind_of it with
    | Sync _ zone_id R B =>
        let l := local_id zone_id d in
        zlookup zone_id (Engine.zones d') = Some l
        ∧ Engine.records d'
          = replace_rows Engine.r_zone_id (Engine.records d) (l, record_rows l R)
        ∧ Engine.load_balancers d'
          = replace_rows Engine.lb_zone_id (Engine.load_balancers d)
              (l, balancer_rows l B)
    | _ =>
        Engine.records d' = Engine.records d
        ∧ Engine.load_balancers d' = Engine.load_balancers d
    end
  ∧ match kind_of it with
    | Sync _ zone_id R B =>
        let l := local_id zone_id d in
        Engine.record_table d'
        = List.filter (λ r, negb (Engine.r_zone_id r.2 =? l)) (Engine.record_table d)
          ++ Engine.numbered (Engine.next_record_id d) (record_rows l R)
        ∧ Engine.next_record_id d'
          = Engine.next_record_id d + length (record_rows l R)
        ∧ Engine.lb_table d'
          = List.filter (λ r, negb (Engine.lb_zone_id r.2 =? l)) (Engine.lb_table d)
            ++ Engine.numbered (Engine.next_lb_id d) (balancer_rows l B)
        ∧ Engine.next_lb_id d' = Engine.next_lb_id d + length (balancer_rows l B)
    | _ =>
        Engine.record_table d' = Engine.record_table d
        ∧ Engine.next_record_id d' = Engine.next_record_id d
        ∧ Engine.lb_table d' = Engine.lb_table d
        ∧ Engine.next_lb_id d' = Engine.next_lb_id d
    end.
Proof.
  intros out d'. subst d'.
  assert (out = step it s (open d)) as Hout by done. clearbody out.
  destruct it as [account_id zone|e]; [|by subst out].
  simpl in Hout |- *.
  destruct zone as [| | | | |z]; try (by subst out).
  change (classify account_id (JObj z)) with
    (let zone_id := get_or_none z "id" in
     if negb (truthy zone_id) then Skip
     else
       match por (get_or_none z "account") (default_account account_id) with
       | JObj account_data =>
           match Engine.list_records cf_client zone_id with
           | inl e => AccountOnly account_data (escaping e)
           | inr R =>
               match Engine.list_load_balancers cf_client zone_id with
               | inl e => AccountOnly account_data (escaping e)
               | inr B =>
                   match Engine.zone_values z with
                   | inl e => AccountOnly account_data (escaping e)
                   | inr _ =>
                       match Engine.record_payloads fromisoformat 0 R with
                       | inl e => AccountOnly account_data (escaping e)
                       | inr _ =>
                           match Engine.balancer_payloads 0 B with
                           | inl e => AccountOnly account_data (escaping e)
                           | inr _ => Sync account_data zone_id R B
                           end
                       end
                   end
               end
           end
       | _ => Halt (AttributeError "object has no attribute 'get'")
       end).
  cbv zeta.
  destruct (truthy (get_or_none z "id")) eqn:Hid; cbn [negb].
  2:{ subst out. unfold Engine.sync_accounts_zone, bind, lift.
      cbn [Engine.as_dict]. rewrite Hid. done. }
  destruct (por (get_or_none z "account") (default_account account_id))
    as [| | | | |account_data] eqn:Hacct;
    try (subst out; unfold Engine.sync_accounts_zone, bind, lift;
         cbn [Engine.as_dict]; rewrite Hid; cbn [negb];
         unfold default_account in Hacct; rewrite Hacct; done).
  destruct (sync_accounts_zone_unfold account_id z account_data s (open d)
              Hid Hacct) as [db_account_id Hrun].
  rewrite Hrun in Hout. clear Hrun.
  rewrite account_step_open in Hout.
  destruct (account_step_tables now account_id account_data (open d))
    as (_ & _ & Hz1 & Hr1 & Hl1 & Ho1 & Hrt1 & Hrn1 & Hlt1 & Hln1).
  pose proof (account_step_local_id account_id account_data
                (get_or_none z "id") (open d)) as Hid1.
  set (d1 := committed (account_step now account_id account_data (open d)).1)
    in *.
  simpl working in *.
  pose proof (sync_zone_run fromisoformat cf_client now db_account_id z d1 Hid)
    as Hsz.
  cbv zeta in Hsz.
  destruct (Engine.sync_zone now fromisoformat cf_client db_account_id z (open d1))
    as [c' rz].
  assert (∀ e, rz = inl e → committed c' = d1 →
            out.2 = verdict (AccountOnly account_data (escaping e)) s
            ∧ (∀ s', out.2 = inr s' → out.1 = open (committed out.1))
            ∧ Engine.origins (committed out.1) = Engine.origins d
            ∧ (∀ key i, zlookup key (Engine.zones d) = Some i →
                        zlookup key (Engine.zones (committed out.1)) = Some i)
            ∧ (Engine.records (committed out.1) = Engine.records d
               ∧ Engine.load_balancers (committed out.1)
                 = Engine.load_balancers d)
            ∧ Engine.record_table (committed out.1) = Engine.record_table d
            ∧ Engine.next_record_id (committed out.1) = Engine.next_record_id d
            ∧ Engine.lb_table (committed out.1) = Engine.lb_table d
            ∧ Engine.next_lb_id (committed out.1) = Engine.next_lb_id d) as Hfail.
  { intros e -> Hc'. unfold escaping.
    destruct (is_cloudflare_error e); subst out; simpl; rewrite Hc', ?Hz1;
      repeat split; try done; by intros. }
  destruct (Engine.list_records cf_client (get_or_none z "id")) as [e|R].
  { injection Hsz as -> ->. by apply Hfail. }
  destruct (Engine.list_load_balancers cf_client (get_or_none z "id")) as [e|B].
  { injection Hsz as -> ->. by apply Hfail. }
  destruct (Engine.zone_values z) as [e|v].
  { simpl in Hsz. destruct Hsz as [Hrz Hc']. by apply Hfail. }
  destruct (Engine.record_payloads fromisoformat 0 R) as [e|rows0].
  { simpl in Hsz. destruct Hsz as [Hrz Hc']. by apply Hfail. }
  destruct (Engine.balancer_payloads 0 B) as [e|brows0].
  { simpl in Hsz. destruct Hsz as [Hrz Hc']. by apply Hfail. }
  destruct Hsz as (d2 & [= -> ->] & Hr2 & Hl2 & Ho2 & Hz2 & Hkeep
                   & Hrt2 & Hrn2 & Hlt2 & Hln2).
  subst out. simpl.
  rewrite Hr2, Hl2, Ho2, Hz2, Hrt2, Hrn2, Hlt2, Hln2, Hid1, Hr1, Hl1,
    Hrt1, Hrn1, Hlt1, Hln1.
  repeat split; try done.
  intros key i Hi. apply Hkeep. by rewrite Hz1.
Qed.


End AtTime.

End RunSteps.

(** *** Two runs against the same provider state *)

Section Idempotence.
Import Py Db.

Variable fromisoformat : string → option string.
Variable cf_client : Engine.CloudflareClient.

Local Abbreviation step := (step fromisoformat cf_client).
Local Abbreviation kind_of := (kind_of fromisoformat cf_client).
Local Abbreviation record_rows := (record_rows fromisoformat).

(** A zone that was synced: its provider id, the local id it was given,
    and the records and load balancers listed for it. *)
Definition entry : Type := json * nat * list json * list json.

Definition entry_of (it : item) (d : Engine.db) : list entry :=
  match kind_of it with
  | Sync _ zone_id R B => [(zone_id, local_id zone_id d, R, B)]
  | _ => []
  end.

(** The zones synced by a run that starts from [d]. *)
Fixpoint trace (now : nat) (items : list item) (s : Engine.summary)
    (d : Engine.db) : list entry :=
  match items with
  | [] => []
  | it :: rest =>
      entry_of it d
      ++ match step now it s (open d) with
         | (c', inr s') => trace now rest s' (committed c')
         | (_, inl _) => []
         end
  end.

Definition record_entries (T : list entry) : list (nat * list Engine.record_row) :=
  (λ e : entry, (e.1.1.2, record_rows e.1.1.2 e.1.2)) <$> T.

Definition balancer_entries (T : list entry) : list (nat * list Engine.lb_row) :=
  (λ e : entry, (e.1.1.2, balancer_rows e.1.1.2 e.2)) <$> T.

Lemma run_cons now it rest s d :
  for_each (it :: rest) (step now) s (open d)
  = match step now it s (open d) with
    | (c', inr s') => for_each rest (step now) s' (open (committed c'))
    | (c', inl e) => (c', inl e)
    end.
Proof.
  simpl. unfold bind.
  destruct (step_facts fromisoformat cf_client now it s d) as (_ & Hopen & _).
  destruct (step now it s (open d)) as [c' [e|s']]; [done|].
  simpl in Hopen. by rewrite (Hopen s' eq_refl).
Qed.


Lemma run_tables now items s d :
  let d' := committed (for_each items (step now) s (open d)).1 in
  let T := trace now items s d in
  Engine.records d'
  = foldl (replace_rows Engine.r_zone_id) (Engine.records d) (record_entries T)
  ∧ Engine.load_balancers d'
    = foldl (replace_rows Engine.lb_zone_id) (Engine.load_balancers d)
        (balancer_entries T)
  ∧ Engine.origins d' = Engine.origins d
  ∧ (∀ key i, zlookup key (Engine.zones d) = Some i →
              zlookup key (Engine.zones d') = Some i)
  ∧ (∀ e : entry, e ∈ T → zlookup e.1.1.1 (Engine.zones d') = Some e.1.1.2).
Proof.
  revert s d. induction items as [|it rest IH]; intros s d.
  { simpl. repeat split; try done. by intros e ?%elem_of_nil. }
  cbv zeta. rewrite run_cons.
  change (trace now (it :: rest) s d)
    with (entry_of it d
          ++ match step now it s (open d) with
             | (c', inr s') => trace now rest s' (committed c')
             | (_, inl _) => []
             end).
  destruct (step_facts fromisoformat cf_client now it s d)
    as (_ & _ & Ho & Hkeep & Hkind & _).
  destruct (step now it s (open d)) as [c1 [e|s1]]; simpl in Ho, Hkeep, Hkind.
  - (* the run ends here *)
    rewrite app_nil_r. simpl fst. unfold entry_of.
    destruct (kind_of it) as [| | |account_data zone_id R B].
    1-3: destruct Hkind as [-> ->]; simpl; repeat split; try done;
         by intros e' ?%elem_of_nil.
    destruct Hkind as (Hz & -> & ->). simpl.
    repeat split; try done.
    intros e' ->%list_elem_of_singleton. done.
  - destruct (IH s1 (committed c1)) as (IHr & IHl & IHo & IHkeep & IHT).
    cbv zeta in IHr, IHl, IHo, IHkeep, IHT.
    unfold record_entries, balancer_entries. rewrite !fmap_app, !foldl_app.
    fold (record_entries (trace now rest s1 (committed c1))).
    fold (balancer_entries (trace now rest s1 (committed c1))).
    rewrite IHr, IHl, IHo, Ho.
    assert (Engine.records (committed c1)
            = foldl (replace_rows Engine.r_zone_id) (Engine.records d)
                ((λ e : entry, (e.1.1.2, record_rows e.1.1.2 e.1.2))
                 <$> entry_of it d)
            ∧ Engine.load_balancers (committed c1)
              = foldl (replace_rows Engine.lb_zone_id) (Engine.load_balancers d)
                  ((λ e : entry, (e.1.1.2, balancer_rows e.1.1.2 e.2))
                   <$> entry_of it d)
            ∧ ∀ e : entry, e ∈ entry_of it d →
                zlookup e.1.1.1 (Engine.zones (committed c1)) = Some e.1.1.2)
      as (-> & -> & Hhead).
    { unfold entry_of.
      destruct (kind_of it) as [| | |account_data zone_id R B].
      1-3: destruct Hkind as [-> ->]; repeat split; try done;
           by intros e' ?%elem_of_nil.
      destruct Hkind as (Hz & -> & ->). repeat split; try done.
      intros e' ->%list_elem_of_singleton. done. }
    repeat split; try done.
    + intros key i Hi. by apply IHkeep, Hkeep.
    + intros e' [Hin|Hin]%elem_of_app.
      * by apply IHkeep, Hhead.
      * by apply IHT.
Qed.


Lemma record_entries_owned T : Forall (owned Engine.r_zone_id) (record_entries T).
Proof.
  unfold record_entries. apply Forall_fmap, Forall_forall. intros e _.
  apply record_rows_owned.
Qed.

Lemma balancer_entries_owned T :
  Forall (owned Engine.lb_zone_id) (balancer_entries T).
Proof.
  unfold balancer_entries. apply Forall_fmap, Forall_forall. intros e _.
  apply balancer_rows_owned.
Qed.

(** *** The ids of the rows *)















End Idempotence.

Section IdempotenceExample.
Import Py Db.




End IdempotenceExample.

(** ** Host entries *)

Section HostEntries.
Import Py Config Loader.

Lemma contains_count c s : contains c s = false ↔ count c s = 0.
Proof.
  induction s as [|c' s IH]; [done|]. simpl.
  destruct (Ascii.eqb c' c); simpl; [done|]. apply IH.
Qed.

Lemma count_app c a b : count c (a +:+ b) = count c a + count c b.
Proof. induction a as [|c' a IH]; [done|]. simpl. rewrite IH. lia. Qed.

Lemma contains_app c a b : contains c (a +:+ b) = contains c a || contains c b.
Proof.
  induction a as [|c' a IH]; [done|]. simpl. by rewrite IH, orb_assoc.
Qed.

Lemma find_absent c s : count c s = 0 → find c s = (-1)%Z ∧ rfind c s = (-1)%Z.
Proof.
  induction s as [|c' s IH]; [done|]. simpl.
  destruct (Ascii.eqb c' c); simpl; [done|].
  intros [-> ->]%IH. done.
Qed.

Lemma find_bounds c s : (-1 ≤ find c s)%Z ∧ (-1 ≤ rfind c s)%Z.
Proof.
  induction s as [|c' s [IH1 IH2]]; [done|]. simpl.
  repeat case_match; lia.
Qed.

(** The second test of [parse_host_entry] on the colons follows from the
    first. *)
Lemma find_rfind_once c s : count c s = 1 → find c s = rfind c s.
Proof.
  induction s as [|c' s IH]; [done|]. simpl.
  destruct (Ascii.eqb c' c); simpl.
  - intros [= [_ ->]%find_absent]. done.
  - intros H. rewrite <-(IH H).
    destruct (find_bounds c s) as [Hb _].
    destruct (Z.ltb_spec (find c s) 0), (Z.leb_spec 0 (find c s)); try lia.
Qed.

Lemma before_app c a b :
  contains c a = false → before c (a +:+ String c b) = a.
Proof.
  induction a as [|c' a IH]; simpl.
  - by rewrite Ascii.eqb_refl.
  - intros [-> ?]%orb_false_elim. by rewrite IH.
Qed.

Lemma after_app c a b :
  contains c a = false → after c (a +:+ String c b) = b.
Proof.
  induction a as [|c' a IH]; simpl.
  - by rewrite Ascii.eqb_refl.
  - intros [-> ?]%orb_false_elim. by rewrite IH.
Qed.

(** Text without white space at either end. *)
Definition trimmed (s : string) : Prop := strip s = s.

Lemma trimmed_head s :
  trimmed s → match s with String c _ => is_space c = false | EmptyString => True end.
Proof.
  unfold trimmed, strip, strip_by. intros <-.
  apply rstrip_by_head, lstrip_by_head.
Qed.

Lemma trimmed_rstrip s : trimmed s → rstrip_by is_space s = s.
Proof.
  unfold trimmed, strip, strip_by. intros <-. apply rstrip_by_idem.
Qed.

Lemma rstrip_by_app p a b :
  rstrip_by p b ≠ EmptyString → rstrip_by p (a +:+ b) = a +:+ rstrip_by p b.
Proof.
  intros Hb. induction a as [|c a IH]; [done|].
  change (String c a +:+ ?x) with (String c (a +:+ x)).
  simpl. rewrite IH.
  destruct (a +:+ rstrip_by p b) eqn:E.
  - destruct a; simpl in E; [done|done].
  - by rewrite andb_false_r.
Qed.

Lemma trimmed_app a b :
  trimmed a → trimmed b → a ≠ EmptyString → b ≠ EmptyString → trimmed (a +:+ b).
Proof.
  intros Ha Hb Hane Hbne. unfold trimmed, strip, strip_by.
  rewrite (lstrip_by_stuck is_space (a +:+ b)).
  - rewrite rstrip_by_app; rewrite (trimmed_rstrip b Hb); done.
  - destruct a as [|c a]; [done|]. apply (trimmed_head _ Ha).
Qed.

Lemma trimmed_single c : is_space c = false → trimmed (String c EmptyString).
Proof. intros H. unfold trimmed, strip, strip_by. simpl. by rewrite H; simpl; rewrite H. Qed.

(** *** Decimal literals *)

Lemma digits_value_chars acc b s v :
  Client.digits_value acc b s = Some v →
  contains ":" s = false ∧ contains "]" s = false ∧ trimmed s
  ∧ (b = false → s ≠ EmptyString).
Proof.
  revert acc b. induction s as [|c s IH]; intros acc b; simpl.
  - destruct b; [|done]. by intros _.
  - destruct (Client.is_digit c) eqn:Hd.
    + intros (Hc & Hb & Ht & Hne)%IH.
      assert (is_space c = false ∧ Ascii.eqb c ":" = false ∧ Ascii.eqb c "]" = false)
        as (Hsp & -> & ->).
      { revert Hd. unfold Client.is_digit, is_space.
        destruct (Ascii.eqb_spec c ":") as [->|]; [done|].
        destruct (Ascii.eqb_spec c "]") as [->|]; [done|].
        intros [?%Nat.leb_le ?%Nat.leb_le]%andb_prop.
        repeat split.
        repeat (apply orb_false_intro); try apply andb_false_intro2;
          try apply Nat.leb_gt; try apply Nat.eqb_neq; lia. }
      simpl. repeat split; try done.
      destruct s as [|c' s'].
      * by apply trimmed_single.
      * apply (trimmed_app (String c EmptyString) (String c' s'));
          [by apply trimmed_single|done..].
    + destruct (Ascii.eqb_spec c "_") as [->|]; [|done].
      destruct b; [|done]. simpl.
      intros (Hc & Hb & Ht & Hne)%IH. simpl. repeat split; try done.
      specialize (Hne eq_refl). destruct s as [|c' s']; [done|].
      apply (trimmed_app "_" (String c' s')); [by apply trimmed_single|done..].
Qed.

Lemma pretty_N_char_digit d :
  (d < 10)%N →
  Client.is_digit (pretty_N_char d) = true
  ∧ Z.of_nat (nat_of_ascii (pretty_N_char d) - 48) = Z.of_N d.
Proof.
  intros Hd.
  assert (d = 0 ∨ d = 1 ∨ d = 2 ∨ d = 3 ∨ d = 4 ∨ d = 5 ∨ d = 6 ∨ d = 7
          ∨ d = 8 ∨ d = 9)%N as Hcases by lia.
  repeat (destruct Hcases as [->|Hcases]; [done|]). by subst.
Qed.

Lemma digits_value_pretty_go x b s :
  (0 < x)%N →
  Client.digits_value 0 b (pretty_N_go x s)
  = Client.digits_value (Z.of_N x) true s.
Proof.
  revert b s. induction (N.lt_wf_0 x) as [x _ IH]. intros b s Hx.
  rewrite pretty_N_go_step by done.
  destruct (pretty_N_char_digit (x `mod` 10)) as [Hd Hv]; [by apply N.mod_lt|].
  destruct (decide (x `div` 10 = 0)%N) as [Hz|Hz].
  - rewrite Hz, pretty_N_go_0. simpl. rewrite Hd, Hv.
    f_equal. rewrite (N.div_mod x 10) at 2 by done. lia.
  - rewrite IH; [|by apply N.div_lt|by apply N.neq_0_lt_0]. simpl. rewrite Hd, Hv.
    f_equal. rewrite (N.div_mod x 10) at 3 by done. lia.
Qed.

Lemma digits_value_pretty (n : N) :
  Client.digits_value 0 false (pretty n) = Some (Z.of_N n).
Proof.
  unfold pretty, pretty_N.
  destruct (decide (n = 0)%N) as [->|Hz]; [done|].
  rewrite digits_value_pretty_go by lia. done.
Qed.

(** The white space of [int] is white space for [str.strip]. *)
Lemma is_int_space_space c : Client.is_int_space c = true → is_space c = true.
Proof.
  unfold Client.is_int_space, is_space.
  rewrite !orb_true_iff, !andb_true_iff, !Nat.leb_le, !Nat.eqb_eq. lia.
Qed.

Lemma rstrip_by_weaker (p q : ascii → bool) s :
  (∀ c, q c = true → p c = true) → rstrip_by p s = s → rstrip_by q s = s.
Proof.
  intros Hqp. induction s as [|c s IH]; [done|]. simpl.
  destruct (p c && is_empty (rstrip_by p s)) eqn:E; [done|].
  intros [= Hs]. rewrite Hs in E. rewrite (IH Hs).
  destruct (q c) eqn:Hq; [|done].
  rewrite (Hqp c Hq) in E. simpl in E. by rewrite E.
Qed.

Lemma trimmed_for_int s : trimmed s → strip_by Client.is_int_space s = s.
Proof.
  intros Ht. unfold strip_by. rewrite lstrip_by_stuck.
  - apply (rstrip_by_weaker is_space); [apply is_int_space_space|].
    by apply trimmed_rstrip.
  - pose proof (trimmed_head s Ht) as Hh. destruct s as [|c s]; [done|].
    destruct (Client.is_int_space c) eqn:E; [|done].
    apply is_int_space_space in E. congruence.
Qed.

Lemma count_digits_pretty_go (k : nat) (x : N) s :
  (x < 10 ^ N.of_nat k)%N →
  Client.count_digits (pretty_N_go x s) ≤ k + Client.count_digits s.
Proof.
  revert x s. induction k as [|k IH]; intros x s Hx.
  { assert (x = 0%N) as -> by (simpl in Hx; lia). rewrite pretty_N_go_0. lia. }
  destruct (decide (x = 0)%N) as [->|Hz]; [rewrite pretty_N_go_0; lia|].
  rewrite pretty_N_go_step by lia.
  rewrite Nat2N.inj_succ, N.pow_succ_r' in Hx.
  etrans; [apply IH; by apply N.Div0.div_lt_upper_bound|].
  simpl. destruct (Client.is_digit _); lia.
Qed.

Lemma count_digits_pretty (k : nat) (n : N) :
  (n < 10 ^ N.of_nat k)%N → Client.count_digits (pretty n) ≤ S k.
Proof.
  intros Hn. unfold pretty, pretty_N.
  destruct (decide (n = 0)%N) as [->|Hz]; [simpl; lia|].
  etrans; [by apply (count_digits_pretty_go k)|]. simpl. lia.
Qed.

Lemma int_of_str_digits ds v :
  Client.count_digits ds ≤ Client.int_max_str_digits →
  Client.digits_value 0 false ds = Some v → Client.int_of_str ds = Some v.
Proof.
  intros Hfew H. unfold Client.int_of_str.
  destruct (digits_value_chars _ _ _ _ H) as (_ & _ & Ht & _).
  rewrite (trimmed_for_int _ Ht).
  assert ((Client.int_max_str_digits <? Client.count_digits ds) = false) as Hlim
    by (apply Nat.ltb_ge; lia).
  cbv zeta.
  destruct ds as [|c ds]; [done|].
  destruct (Ascii.eqb_spec c "-") as [->|]; [done|].
  destruct (Ascii.eqb_spec c "+") as [->|]; [done|].
  destruct c as [[] [] [] [] [] [] [] []];
    first [done|cbv beta iota; by rewrite Hlim].
Qed.


(** *** What [parse_host_entry] returns *)

Lemma trimmed_around c a b :
  is_space c = false → trimmed a → trimmed b → trimmed (a +:+ String c b).
Proof.
  intros Hc Ha Hb.
  assert (trimmed (String c b)) as Hcb.
  { destruct b as [|c' b']; [by apply trimmed_single|].
    apply (trimmed_app (String c EmptyString) (String c' b'));
      [by apply trimmed_single|done..]. }
  destruct a as [|c' a']; [done|]. by apply trimmed_app.
Qed.

Lemma str_take_app a b : str_take (String.length a) (a +:+ b) = a.
Proof.
  induction a as [|c a IH]; [by destruct b|].
  change (str_take (String.length a) (a +:+ b) = a) in IH.
  change (String c (str_take (String.length a) (a +:+ b)) = String c a).
  by rewrite IH.
Qed.

Lemma str_drop_app a b : str_drop (String.length a) (a +:+ b) = b.
Proof. induction a as [|c a IH]; [by destruct b|]. done. Qed.

Lemma index_app c a b :
  contains c a = false → index c (a +:+ String c b) = String.length a.
Proof.
  induction a as [|c' a IH]; simpl.
  - by rewrite Ascii.eqb_refl.
  - intros [-> ?]%orb_false_elim. by rewrite IH.
Qed.

Lemma str_length_app a b : String.length (a +:+ b) = String.length a + String.length b.
Proof. induction a as [|c a IH]; [done|]. simpl. by rewrite IH. Qed.

Lemma get_app a b : String.get (String.length a) (a +:+ b) = String.get 0 b.
Proof. induction a as [|c a IH]; [done|]. done. Qed.

Lemma pretty_facts (p : N) :
  pretty p ≠ EmptyString ∧ trimmed (pretty p)
  ∧ contains ":" (pretty p) = false
  ∧ ((p ≤ 65535)%N → Client.int_of_str (pretty p) = Some (Z.of_N p)).
Proof.
  pose proof (digits_value_pretty p) as H.
  destruct (digits_value_chars _ _ _ _ H) as (Hc & _ & Ht & Hne).
  split; [by apply Hne|]. split; [done|]. split; [done|].
  intros Hp. apply int_of_str_digits; [|done].
  etrans; [apply (count_digits_pretty 5)|].
  - change (10 ^ N.of_nat 5)%N with 100000%N. lia.
  - unfold Client.int_max_str_digits. lia.
Qed.

(** The tests of the second branch, for an entry with one colon. *)
Lemma one_colon host rest :
  contains ":" host = false → contains ":" rest = false →
  let entry := host +:+ String ":" rest in
  (count ":" entry =? 1) && (find ":" entry =? rfind ":" entry)%Z = true
  ∧ before ":" entry = host ∧ after ":" entry = rest.
Proof.
  intros Hh Hr entry.
  assert (count ":" entry = 1) as Hcount.
  { unfold entry. rewrite count_app. simpl.
    apply contains_count in Hh, Hr. lia. }
  split; [|split].
  - rewrite Hcount, (find_rfind_once _ _ Hcount), Z.eqb_refl. done.
  - by apply before_app.
  - by apply after_app.
Qed.

Lemma startswith_app c a b :
  a ≠ EmptyString → startswith c (a +:+ b) = startswith c a.
Proof. by destruct a. Qed.

Lemma not_bracketed e :
  startswith "[" e = false → startswith "[" e && contains "]" e = false.
Proof. by intros ->. Qed.

(** X1: an entry ["host:port"] is split at its colon: for a host name
    with no colon that does not open with a bracket and has no white
    space around it, and a port number up to 65535 written in decimal,
    [parse_host_entry] gives back that host and that port. *)
Theorem parse_host_entry_host_port (host : string) (p : N) :
  host ≠ EmptyString →
  strip host = host →
  contains ":" host = false →
  startswith "[" host = false →
  (p ≤ 65535)%N →
  parse_host_entry (host +:+ ":" +:+ pretty p) = (host, Z.of_N p).
Proof.
  intros Hne Ht Hc Hb Hp.
  destruct (pretty_facts p) as (Hpne & Hpt & Hpc & Hint). specialize (Hint Hp).
  unfold parse_host_entry.
  change (host +:+ ":" +:+ pretty p) with (host +:+ String ":" (pretty p)).
  rewrite (trimmed_around ":" host (pretty p) eq_refl Ht Hpt).
  rewrite not_bracketed by (by rewrite startswith_app).
  destruct (one_colon host (pretty p) Hc Hpc) as (-> & -> & ->).
  destruct host as [|c host']; [done|].
  destruct (pretty p) as [|d ds] eqn:E; [done|].
  unfold int_or. rewrite Hint. done.
Qed.

Lemma parse_host_entry_host_port_witness :
  parse_host_entry ("db.example" +:+ ":" +:+ pretty 3307%N) = ("db.example", 3307%Z).
Proof. apply (parse_host_entry_host_port "db.example" 3307%N); by vm_compute. Defined.


Lemma trimmed_between c a b :
  is_space c = false → trimmed b → b ≠ EmptyString →
  trimmed (String c (a +:+ b)).
Proof.
  intros Hc Hb Hne. unfold trimmed, strip, strip_by.
  rewrite (lstrip_by_stuck is_space (String c (a +:+ b))) by done.
  change (String c (a +:+ b)) with (String c a +:+ b).
  rewrite rstrip_by_app; rewrite (trimmed_rstrip b Hb); done.
Qed.

Lemma bracketed_shape host rest :
  contains "]" host = false →
  let entry := String "[" (host +:+ String "]" rest) in
  startswith "[" entry && contains "]" entry = true
  ∧ index "]" entry = S (String.length host)
  ∧ slice 1 (S (String.length host)) entry = host
  ∧ String.length entry = S (S (String.length host)) + String.length rest
  ∧ String.get (S (String.length host) + 1) entry = String.get 0 rest
  ∧ str_drop (S (String.length host) + 2) entry = str_drop 1 rest.
Proof.
  intros Hh entry. subst entry.
  split; [|split; [|split; [|split; [|split]]]].
  - simpl. rewrite contains_app. simpl. by rewrite orb_true_r.
  - change (index "]" (String "[" (host +:+ String "]" rest)))
      with (S (index "]" (host +:+ String "]" rest))).
    by rewrite index_app.
  - unfold slice.
    change (str_take (S (String.length host)) (String "[" (host +:+ String "]" rest)))
      with (String "[" (str_take (String.length host) (host +:+ String "]" rest))).
    by rewrite str_take_app.
  - simpl. rewrite str_length_app. simpl. lia.
  - replace (S (String.length host) + 1) with (S (S (String.length host))) by lia.
    change (String.get (S (String.length host)) (host +:+ String "]" rest)
            = String.get 0 rest).
    clear. induction host as [|c h IH]; [done|]. apply IH.
  - replace (S (String.length host) + 2) with (S (S (S (String.length host)))) by lia.
    change (str_drop (S (S (String.length host))) (host +:+ String "]" rest)
            = str_drop 1 rest).
    clear. induction host as [|c h IH]; [by destruct rest|]. apply IH.
Qed.

(** X2: a bracketed entry keeps what stands between the brackets as the
    host, colons included: ["[host]"] gets the default port 3306 and
    ["[host]:port"], for a port number up to 65535 written in decimal,
    gets that port. *)
Theorem parse_host_entry_bracketed (host : string) (p : N) :
  contains "]" host = false →
  (p ≤ 65535)%N →
  parse_host_entry ("[" +:+ host +:+ "]") = (host, 3306%Z)
  ∧ parse_host_entry ("[" +:+ host +:+ "]:" +:+ pretty p) = (host, Z.of_N p).
Proof.
  intros Hh Hp.
  destruct (pretty_facts p) as (Hpne & Hpt & Hpc & Hint). specialize (Hint Hp).
  assert (∀ rest, trimmed (String "]" rest) →
            parse_host_entry (String "[" (host +:+ String "]" rest))
            = if (S (String.length host) + 1
                  <? S (S (String.length host)) + String.length rest)
                 && bool_decide (String.get 0 rest = Some ":"%char)
              then (host, int_or (str_drop 1 rest) 3306)
              else (host, 3306%Z)) as Hrun.
  { intros rest Hrest. unfold parse_host_entry.
    pose proof (trimmed_between "[" host (String "]" rest) eq_refl Hrest) as Hs.
    unfold trimmed in Hs. rewrite !Hs by done.
    destruct (bracketed_shape host rest Hh) as (-> & -> & -> & -> & -> & ->).
    done. }
  split.
  - change ("[" +:+ host +:+ "]") with (String "[" (host +:+ String "]" EmptyString)).
    rewrite Hrun by done. simpl.
    by rewrite andb_false_r.
  - change ("[" +:+ host +:+ "]:" +:+ pretty p)
      with (String "[" (host +:+ String "]" (String ":" (pretty p)))).
    rewrite Hrun.
    + simpl String.length. simpl String.get. simpl str_drop.
      rewrite bool_decide_eq_true_2 by done.
      replace (_ <? _) with true by (symmetry; apply Nat.ltb_lt; lia).
      unfold int_or. by rewrite Hint.
    + apply (trimmed_app "]" (String ":" (pretty p))); try done.
      destruct (pretty p) as [|d ds] eqn:E; [done|].
      apply (trimmed_app ":" (String d ds)); done.
Qed.

Lemma parse_host_entry_bracketed_witness :
  parse_host_entry ("[" +:+ "fd00::1" +:+ "]") = ("fd00::1", 3306%Z)
  ∧ parse_host_entry ("[" +:+ "fd00::1" +:+ "]:" +:+ pretty 3307%N)
    = ("fd00::1", 3307%Z).
Proof. apply (parse_host_entry_bracketed "fd00::1" 3307%N); by vm_compute. Defined.


(** X3: text after the colon that is not an integer literal never makes
    the call fail and never sets the port: the port is 3306, and the
    host is the part before the colon, unless that part is empty or the
    rest holds another colon, in which case the whole entry is the
    host. *)
Theorem parse_host_entry_bad_port (host junk : string) :
  strip host = host →
  strip junk = junk →
  contains ":" host = false →
  startswith "[" host = false →
  Client.int_of_str junk = None →
  parse_host_entry (host +:+ ":" +:+ junk)
  = (if is_empty host || contains ":" junk
     then host +:+ ":" +:+ junk else host, 3306%Z).
Proof.
  intros Ht Hjt Hc Hb Hint.
  unfold parse_host_entry.
  change (host +:+ ":" +:+ junk) with (host +:+ String ":" junk).
  pose proof (trimmed_around ":" host junk eq_refl Ht Hjt) as Hs.
  unfold trimmed in Hs. rewrite !Hs.
  rewrite not_bracketed by (by destruct host).
  destruct (contains ":" junk) eqn:Hj.
  - assert ((count ":" (host +:+ String ":" junk) =? 1) = false) as ->.
    { apply Nat.eqb_neq. rewrite count_app. simpl.
      destruct (count ":" junk) eqn:E; [|lia].
      apply contains_count in E. congruence. }
    by rewrite orb_true_r.
  - destruct (one_colon host junk Hc Hj) as (-> & -> & ->).
    rewrite orb_false_r. unfold int_or. rewrite Hint.
    by destruct host, junk.
Qed.

Lemma parse_host_entry_bad_port_witness :
  parse_host_entry ("db1" +:+ ":" +:+ "33o6") = ("db1", 3306%Z).
Proof. apply (parse_host_entry_bad_port "db1" "33o6"); by vm_compute. Defined.

End HostEntries.

(** ** Loaded configurations *)

Section LoadedConfigurations.
Import Py Config Loader.

Lemma str_in_elem_of s l : Hosts.str_in s l = true → s ∈ l.
Proof.
  unfold Hosts.str_in. intros (x & Hx & ->%String.eqb_eq)%existsb_exists.
  by apply list_elem_of_In.
Qed.

Lemma filled_default x : filled x = true → default EmptyString x ≠ EmptyString.
Proof. destruct x as [[|c s]|]; done. Qed.

Lemma keyed_hosts_length raw : length (keyed_hosts raw) ≤ 4.
Proof.
  unfold keyed_hosts, HOST_KEYS. simpl.
  repeat (destruct (filled _); simpl); lia.
Qed.

(** The hosts of a configuration that [load_db_config] returned. *)
Lemma db_config_of_hosts raw config :
  db_config_of raw = inr config →
  Hosts.hosts config
  = match keyed_hosts raw with
    | [] =>
        [if filled (raw !! "mysql-host")
         then parse_host_entry (default EmptyString (raw !! "mysql-host"))
         else ("localhost", 3306%Z)]
    | hosts => hosts
    end.
Proof.
  unfold db_config_of. destruct (_ || _); [done|]. intros [= <-]. simpl.
  destruct (keyed_hosts raw) as [|h hs] eqn:Hk; [|done].
  assert (filled (raw !! "db-host") = false) as Hdb.
  { revert Hk. unfold keyed_hosts, HOST_KEYS. simpl.
    by destruct (filled (raw !! "db-host")). }
  unfold or_else.
  destruct (filled (raw !! "mysql-host")) eqn:Hm; rewrite ?Hm, ?Hdb; done.
Qed.

Lemma db_config_of_fields raw config :
  db_config_of raw = inr config →
  Hosts.user config ≠ EmptyString
  ∧ Hosts.database config ≠ EmptyString
  ∧ Hosts.policy config ∈ Hosts.VALID_POLICIES.
Proof.
  unfold db_config_of. destruct (_ || _) eqn:Hcheck; [done|].
  apply orb_false_elim in Hcheck as [[Hu _]%orb_false_elim Hd].
  apply negb_false_iff in Hu, Hd.
  set (policy := lower _).
  assert ((if Hosts.str_in policy Hosts.VALID_POLICIES then policy
           else "sequential") ∈ Hosts.VALID_POLICIES) as Hp.
  { destruct (Hosts.str_in policy _) eqn:Hp; by apply str_in_elem_of. }
  revert Hp. generalize (if Hosts.str_in policy Hosts.VALID_POLICIES
                         then policy else "sequential").
  intros p Hp [= <-]. cbn [Hosts.user Hosts.database Hosts.policy].
  split; [by apply filled_default|]. split; [by apply filled_default|]. done.
Qed.

Lemma db_config_of_error raw e :
  db_config_of raw = inl e → ∃ msg, e = ConfigError msg.
Proof.
  unfold db_config_of. destruct (_ || _); [|done]. intros [= <-]. by eexists.
Qed.

(** Opening or reading the file raises [e]. *)
Definition read_fails (f : file) (e : exn) : Prop :=
  opened f = inl e ∨ ∃ read, opened f = inr (read, Some e).

Lemma parse_simple_config_raises f e :
  parse_simple_config f = inl e →
  e = ConfigError "Config file not found" ∨ isfile f = true ∧ read_fails f e.
Proof.
  unfold parse_simple_config, read_fails.
  destruct (isfile f); simpl; [|intros [= <-]; by left].
  destruct (opened f) as [e'|[read [e'|]]]; intros [= <-]; right.
  - split; [done|]. by left.
  - split; [done|]. right. by exists read.
Qed.

Lemma parse_simple_config_fails f e :
  isfile f = true → read_fails f e → parse_simple_config f = inl e.
Proof.
  unfold parse_simple_config, read_fails. intros -> [->|[read ->]]; done.
Qed.


Lemma load_db_config_outcome_hosts file config :
  load_db_config file = inr config → 1 ≤ length (Hosts.hosts config) ≤ 4.
Proof.
  unfold load_db_config.
  destruct (parse_simple_config file) as [e|raw]; [done|].
  intros Hload. rewrite (db_config_of_hosts _ _ Hload).
  pose proof (keyed_hosts_length raw).
  destruct (keyed_hosts _); simpl in *; lia.
Qed.

(** X4: what [load_db_config] raises is a [ConfigError] of its own, or
    the exception that opening or reading the file raised, which it
    does not catch: a regular file that cannot be opened or decoded
    makes it raise that exception. A configuration it returns names a
    user and a database, holds between one and four hosts, and carries
    one of the policies of [VALID_POLICIES]. *)
Theorem load_db_config_outcome (file : Config.file) :
  match load_db_config file with
  | inl e => (∃ msg, e = ConfigError msg) ∨ isfile file = true ∧ read_fails file e
  | inr config =>
      Hosts.user config ≠ EmptyString
      ∧ Hosts.database config ≠ EmptyString
      ∧ 1 ≤ length (Hosts.hosts config) ≤ 4
      ∧ Hosts.policy config ∈ Hosts.VALID_POLICIES
  end
  ∧ ∀ e, isfile file = true → read_fails file e → load_db_config file = inl e.
Proof.
  split.
  - unfold load_db_config.
    destruct (parse_simple_config file) as [e|raw] eqn:Hraw.
    { destruct (parse_simple_config_raises _ _ Hraw) as [->|?];
        [left; by eexists|by right]. }
    destruct (db_config_of raw) as [e|config] eqn:Hload.
    + left. by eapply db_config_of_error.
    + destruct (db_config_of_fields _ _ Hload) as (Hu & Hd & Hp).
      split; [done|]. split; [done|]. split; [|done].
      rewrite (db_config_of_hosts _ _ Hload).
      pose proof (keyed_hosts_length raw).
      destruct (keyed_hosts raw); simpl in *; lia.
  - intros e Hfile Hfails. unfold load_db_config.
    by rewrite (parse_simple_config_fails _ _ Hfile Hfails).
Qed.

(** X5: the host keys take precedence. When one of [db-host], ...,
    [db-host4] has a value, the hosts are the entries of those keys, in
    that order, and [mysql-host] is not looked at; [mysql-host] is used
    only when none has, and ["localhost"] with port 3306 when it has no
    value either. *)
Theorem load_db_config_hosts (lines : list string) (config : Hosts.DatabaseConfig) :
  load_db_config (readable lines) = inr config →
  let raw := foldl parse_line ∅ lines in
  let entry key := parse_host_entry (default EmptyString (raw !! key)) in
  Hosts.hosts config
  = match List.filter (λ key, filled (raw !! key)) HOST_KEYS with
    | [] => [if filled (raw !! "mysql-host") then entry "mysql-host"
             else ("localhost", 3306%Z)]
    | keys => entry <$> keys
    end.
Proof.
  intros Hload raw entry. unfold load_db_config in Hload. simpl in Hload.
  rewrite (db_config_of_hosts _ _ Hload). fold raw.
  unfold keyed_hosts, HOST_KEYS. simpl.
  repeat (destruct (filled (raw !! _)); simpl); done.
Qed.

Definition mydns_conf : list string :=
  ["db-user = mydns"; "db-password = pw"; "database = mydns";
   "mysql-host = legacy"; "db-host4 = db4"; "db-host2 = db2:3307";
   "db-host-policy = RR"].

Lemma load_db_config_hosts_witness :
  ∃ config,
    load_db_config (readable mydns_conf) = inr config
    ∧ Hosts.hosts config = [("db2", 3307%Z); ("db4", 3306%Z)].
Proof.
  eexists. split; [by vm_compute|].
  apply (load_db_config_hosts mydns_conf). by vm_compute.
Defined.

(** X6: the password is the first non-empty value of [db-password] and
    [mysql-password], and otherwise whatever [mysql-pass] holds. So
    when the first two are missing or empty, the configuration is
    accepted exactly when the key [mysql-pass] is present, with its
    value, empty or not, as the password: an empty [db-password] is
    refused where an empty [mysql-pass] is accepted. *)
Theorem load_db_config_password (lines : list string) :
  let raw := foldl parse_line ∅ lines in
  filled (or_else (raw !! "db-user") (raw !! "mysql-user")) = true →
  filled (raw !! "database") = true →
  filled (raw !! "db-password") = false →
  filled (raw !! "mysql-password") = false →
  match load_db_config (readable lines) with
  | inl _ => raw !! "mysql-pass" = None
  | inr config => raw !! "mysql-pass" = Some (Hosts.password config)
  end.
Proof.
  intros raw Hu Hd Hp1 Hp2. unfold load_db_config. simpl. fold raw.
  assert (or_else (or_else (raw !! "db-password") (raw !! "mysql-password"))
                  (raw !! "mysql-pass") = raw !! "mysql-pass") as Hpw.
  { unfold or_else. by rewrite Hp1, Hp2. }
  unfold db_config_of. rewrite Hu, Hd, Hpw. simpl.
  destruct (raw !! "mysql-pass"); done.
Qed.

Lemma load_db_config_password_witness :
  load_db_config (readable ["db-user = mydns"; "database = mydns"; "db-password ="])
  = inl (ConfigError "database connection details missing")
  ∧ ∃ config,
      load_db_config (readable ["db-user = mydns"; "database = mydns"; "mysql-pass ="])
      = inr config
      ∧ Hosts.password config = EmptyString.
Proof.
  split; [by vm_compute|].
  pose proof (load_db_config_password
                ["db-user = mydns"; "database = mydns"; "mysql-pass ="]) as H.
  destruct (load_db_config _) as [e|config] eqn:E; [by vm_compute in E|].
  exists config. split; [done|].
  assert (Some EmptyString = Some (Hosts.password config)) as [= <-]; [|done].
  by apply H.
Defined.

Lemma connect_loop_bounds net hs last log :
  let run := Hosts.connect_loop net hs last log in
  Hosts.attempts run.1 ≤ Hosts.attempts log + length hs
  ∧ (hs ≠ [] → Hosts.attempts log + 1 ≤ Hosts.attempts run.1)
  ∧ ∀ h, run.2 = inr h → h ∈ hs ∧ net h = Hosts.Accepts.
Proof.
  revert last log. induction hs as [|h hs IH]; intros last log; simpl.
  { split; [lia|]. split; done. }
  destruct (net h) as [|err] eqn:E; simpl.
  - rewrite attempts_app. change (Hosts.attempts [_; _]) with 1.
    split; [lia|]. split; [lia|]. intros h' [= <-]. split; [left|done].
  - destruct (IH (Some err) (log ++ [Hosts.Attempting h; Hosts.Failed h err]))
      as (Hle & Hge & Hin).
    rewrite attempts_app in Hle, Hge.
    change (Hosts.attempts [_; _]) with 1 in Hle, Hge.
    split; [lia|]. split.
    + intros _. destruct hs as [|h' hs'].
      * simpl. rewrite attempts_app. change (Hosts.attempts [_; _]) with 1. lia.
      * specialize (Hge ltac:(done)). lia.
    + intros h' Hh'. destruct (Hin h' Hh'). split; [by right|done].
Qed.

(** X7: with a loaded configuration, [connect] tries at least one host
    and at most four, and a connection it returns is bound to one of the
    configured hosts, one that accepted. *)
Theorem connect_loaded (file : Config.file)
    (config : Hosts.DatabaseConfig) (t : Hosts.tape) (net : Hosts.host → Hosts.dial) :
  load_db_config file = inr config →
  let run := Hosts.connect config t net in
  1 ≤ Hosts.attempts run.1 ≤ 4
  ∧ ∀ h, run.2 = inr h → h ∈ Hosts.hosts config ∧ net h = Hosts.Accepts.
Proof.
  intros Hload run.
  pose proof (load_db_config_outcome_hosts file config Hload) as Hlen.
  pose proof (ordered_hosts_Permutation config t) as Hperm.
  destruct (connect_loop_bounds net (Hosts.ordered_hosts config t) None [])
    as (Hle & Hge & Hin).
  fold (Hosts.connect config t net) in Hle, Hge, Hin. fold run in Hle, Hge, Hin.
  rewrite Hperm in Hle. change (Hosts.attempts []) with 0 in Hle, Hge.
  split.
  - split; [|lia]. apply Hge. intros Hnil. rewrite Hnil in Hperm.
    apply Permutation_nil_l in Hperm. rewrite <-Hperm in Hlen. simpl in Hlen. lia.
  - intros h Hh. destruct (Hin h Hh) as [Helem Hacc]. split; [|done].
    by rewrite <-Hperm.
Qed.

Lemma connect_loaded_witness :
  let run := Hosts.connect
               {| Hosts.user := "mydns"; Hosts.password := "pw";
                  Hosts.database := "mydns";
                  Hosts.hosts := [("db2", 3307%Z); ("db4", 3306%Z)];
                  Hosts.policy := "rr" |} [1] (λ _, Hosts.Accepts) in
  1 ≤ Hosts.attempts run.1 ≤ 4
  ∧ ∀ h, run.2 = inr h →
      h ∈ [("db2", 3307%Z); ("db4", 3306%Z)] ∧ Hosts.Accepts = Hosts.Accepts.
Proof. apply (connect_loaded (readable mydns_conf)). by vm_compute. Defined.


(** *** Account lists and Cloudflare credentials *)

(** An account id as [parse_account_list] hands it out. *)
Definition clean_id (a : string) : Prop :=
  a ≠ EmptyString ∧ strip a = a
  ∧ contains "," a = false ∧ contains "010" a = false.

Lemma split_list_separators current value :
  contains "," current = false → contains "010" current = false →
  Forall (λ a, contains "," a = false ∧ contains "010" a = false)
    (Engine.split_list current value).
Proof.
  revert current. induction value as [|c value IH]; intros current Hc Hn; simpl.
  - by repeat constructor.
  - destruct (Ascii.eqb c "," || Ascii.eqb c "010") eqn:Hsep.
    + constructor; [done|]. by apply IH.
    + apply orb_false_elim in Hsep as [Hsep1 Hsep2].
      apply IH; rewrite contains_app; simpl; rewrite ?Hc, ?Hn, ?Hsep1, ?Hsep2; done.
Qed.

Lemma parse_account_list_clean value :
  Forall clean_id (Engine.parse_account_list value).
Proof.
  unfold Engine.parse_account_list. destruct (is_empty value); [done|].
  pose proof (split_list_separators EmptyString value eq_refl eq_refl) as Hall.
  induction Hall as [|a l [Hc Hn] _ IH]; [done|].
  rewrite fmap_cons. simpl. destruct (is_empty (strip a)) eqn:He; simpl; [done|].
  constructor; [|done]. split; [by destruct (strip a)|].
  split; [apply strip_idem|]. split; by apply contains_strip.
Qed.

(** X8: every id that [parse_account_list] returns is non-empty, has no
    white space around it and holds neither a comma nor a line break. *)
Theorem parse_account_list_tokens (value : string) :
  Forall (λ a, a ≠ EmptyString ∧ strip a = a
               ∧ contains "," a = false ∧ contains "010" a = false)
    (Engine.parse_account_list value).
Proof. apply parse_account_list_clean. Qed.

Lemma app_empty_r (s : string) : s +:+ EmptyString = s.
Proof. induction s as [|c s IH]; [done|]. exact (f_equal (String c) IH). Qed.

Lemma app_char_assoc (s : string) c a :
  (s +:+ String c EmptyString) +:+ a = s +:+ String c a.
Proof. induction s as [|d s IH]; [done|]. exact (f_equal (String d) IH). Qed.

Lemma split_list_token current a value :
  contains "," a = false → contains "010" a = false →
  Engine.split_list current (a +:+ value)
  = match value with
    | EmptyString => [current +:+ a]
    | _ => Engine.split_list (current +:+ a) value
    end.
Proof.
  intros Hc Hn. revert current. induction a as [|c a IH]; intros current.
  - simpl. rewrite app_empty_r. by destruct value.
  - simpl in Hc, Hn.
    apply orb_false_elim in Hc as [Hc1 Hc2].
    apply orb_false_elim in Hn as [Hn1 Hn2].
    simpl. rewrite Hc1, Hn1. simpl. rewrite (IH Hc2 Hn2).
    by rewrite app_char_assoc.
Qed.

Lemma split_list_concat current a tokens :
  Forall clean_id (a :: tokens) →
  Engine.split_list current (a +:+ 
     match tokens with [] => EmptyString | _ => "," +:+ String.concat "," tokens end)
  = (current +:+ a) :: tokens.
Proof.
  revert current a. induction tokens as [|b tokens IH]; intros current a Hall.
  - inversion_clear Hall as [|?? (_ & _ & Hc & Hn) _].
    rewrite split_list_token by done. done.
  - inversion_clear Hall as [|?? (_ & _ & Hc & Hn) Hrest].
    rewrite split_list_token by done.
    change ("," +:+ String.concat "," (b :: tokens))
      with (String "," (String.concat "," (b :: tokens))).
    cbv beta iota. simpl Engine.split_list. f_equal.
    specialize (IH EmptyString b Hrest). simpl in IH.
    destruct tokens as [|b' tokens']; simpl; [|done].
    by rewrite app_empty_r in IH.
Qed.


Lemma load_cloudflare_config_credentials file config :
  load_cloudflare_config file = inr config →
  filled (Engine.api_token config) = true
  ∨ filled (Engine.email config) = true ∧ filled (Engine.api_key config) = true.
Proof.
  unfold load_cloudflare_config.
  destruct (parse_simple_config file) as [e|raw]; [done|].
  unfold cloudflare_config_of.
  destruct (Engine.parse_account_list _) as [|a ids]; [done|].
  destruct (negb (filled (raw !! "api_token")) && _) eqn:Hcred; [done|].
  intros [= <-]. simpl.
  destruct (filled (raw !! "api_token")); [by left|]. right.
  simpl in Hcred. apply orb_false_elim in Hcred as [H1 H2].
  by apply negb_false_iff in H1, H2.
Qed.

(** X9: a list of ids joined with commas parses back to those ids, in
    order, provided each id is non-empty, has no white space around it
    and holds neither a comma nor a line break. *)
Theorem parse_account_list_join (tokens : list string) :
  Forall (λ a, a ≠ EmptyString ∧ strip a = a
               ∧ contains "," a = false ∧ contains "010" a = false) tokens →
  Engine.parse_account_list (String.concat "," tokens) = tokens.
Proof.
  intros Hall. destruct tokens as [|a tokens]; [done|].
  assert (String.concat "," (a :: tokens)
          = a +:+ match tokens with
                  | [] => EmptyString
                  | _ => "," +:+ String.concat "," tokens
                  end) as ->.
  { destruct tokens; simpl; [by rewrite app_empty_r|done]. }
  unfold Engine.parse_account_list.
  rewrite (split_list_concat EmptyString a tokens Hall).
  assert (is_empty (a +:+ match tokens with
                          | [] => EmptyString
                          | _ => "," +:+ String.concat "," tokens
                          end) = false) as ->.
  { inversion_clear Hall as [|?? (Hne & _) _]. by destruct a. }
  change (EmptyString +:+ a) with a.
  induction Hall as [|b l (Hne & Ht & _) _ IH]; [done|].
  rewrite fmap_cons, Ht. simpl. destruct b; [done|]. simpl. by rewrite IH.
Qed.

Lemma parse_account_list_join_witness :
  Engine.parse_account_list (String.concat "," ["acct-1"; "acct-2"; "acct-3"])
  = ["acct-1"; "acct-2"; "acct-3"].
Proof.
  apply (parse_account_list_join ["acct-1"; "acct-2"; "acct-3"]).
  repeat constructor; by vm_compute.
Defined.


(** X10: what [load_cloudflare_config] raises is a [ConfigError] of its
    own, or the exception that opening or reading the file raised,
    which it does not catch. A configuration it returns lists at least
    one account id, each of them clean; holds a non-empty token, or
    else a non-empty email and a non-empty key; and has a base address
    without a trailing slash, which the client takes as it is. *)
Theorem load_cloudflare_config_outcome (file : Config.file) :
  match load_cloudflare_config file with
  | inl e => (∃ msg, e = ConfigError msg) ∨ isfile file = true ∧ read_fails file e
  | inr config =>
      Engine.account_ids config ≠ []
      ∧ Forall (λ a, a ≠ EmptyString ∧ strip a = a
                     ∧ contains "," a = false ∧ contains "010" a = false)
          (Engine.account_ids config)
      ∧ (filled (Engine.api_token config) = true
         ∨ filled (Engine.email config) = true
           ∧ filled (Engine.api_key config) = true)
      ∧ base config = Engine.base_url config
  end
  ∧ ∀ e, isfile file = true → read_fails file e →
         load_cloudflare_config file = inl e.
Proof.
  split.
  2:{ intros e Hfile Hfails. unfold load_cloudflare_config.
      by rewrite (parse_simple_config_fails _ _ Hfile Hfails). }
  unfold load_cloudflare_config.
  destruct (parse_simple_config file) as [e|raw] eqn:Hraw.
  { destruct (parse_simple_config_raises _ _ Hraw) as [->|?];
      [left; by eexists|by right]. }
  unfold cloudflare_config_of.
  pose proof (parse_account_list_clean (default EmptyString (raw !! "cf_account_ids")))
    as Hclean.
  destruct (Engine.parse_account_list _) as [|a ids]; [left; by eexists|].
  destruct (negb (filled (raw !! "api_token")) && _) eqn:Hcred;
    [left; by eexists|].
  split; [done|]. split; [done|]. split.
  - simpl. destruct (filled (raw !! "api_token")); [by left|]. right.
    simpl in Hcred. apply orb_false_elim in Hcred as [H1 H2].
    by apply negb_false_iff in H1, H2.
  - unfold base. simpl. apply rstrip_by_idem.
Qed.

(** X11: the headers of a loaded configuration carry exactly one
    complete way to authenticate. With a non-empty token it is the
    bearer token, and neither the email nor the key is sent, configured
    or not; without one it is the email and the key, both non-empty. *)
Theorem headers_of_loaded (file : Config.file)
    (config : Engine.CloudflareConfig) :
  load_cloudflare_config file = inr config →
  let h := headers config in
  h !! "Content-Type" = Some "application/json"
  ∧ match Engine.api_token config with
    | Some (String c token) =>
        h !! "Authorization" = Some ("Bearer " +:+ String c token)
        ∧ h !! "X-Auth-Email" = None ∧ h !! "X-Auth-Key" = None
    | _ =>
        ∃ email key,
          email ≠ EmptyString ∧ key ≠ EmptyString
          ∧ Engine.email config = Some email ∧ Engine.api_key config = Some key
          ∧ h !! "Authorization" = None
          ∧ h !! "X-Auth-Email" = Some email ∧ h !! "X-Auth-Key" = Some key
    end.
Proof.
  intros Hload h.
  pose proof (load_cloudflare_config_credentials file config Hload) as Hcred.
  subst h. unfold headers.
  destruct (Engine.api_token config) as [[|c token]|] eqn:Htok; simpl.
  - destruct Hcred as [?|[He Hk]]; [done|].
    destruct (Engine.email config) as [[|? email]|]; try done.
    destruct (Engine.api_key config) as [[|? key]|]; try done.
    split; [done|]. eexists _, _. repeat split; done.
  - split; [done|]. repeat split; done.
  - destruct Hcred as [?|[He Hk]]; [done|].
    destruct (Engine.email config) as [[|? email]|]; try done.
    destruct (Engine.api_key config) as [[|? key]|]; try done.
    split; [done|]. eexists _, _. repeat split; done.
Qed.

Definition cloudflare_ini : list string :=
  ["cf_account_ids = acct-1, acct-2"; "email = ops@example.org";
   "api_key = k3y"; "api_token = t0ken"; "api = https://cf.example/v4//"].

Lemma headers_of_loaded_witness :
  ∃ config,
    load_cloudflare_config (readable cloudflare_ini) = inr config
    ∧ headers config !! "Authorization" = Some "Bearer t0ken"
    ∧ headers config !! "X-Auth-Email" = None
    ∧ headers config !! "X-Auth-Key" = None.
Proof.
  destruct (load_cloudflare_config (readable cloudflare_ini)) as [e|config] eqn:E;
    [by vm_compute in E|].
  exists config. split; [done|].
  pose proof (headers_of_loaded (readable cloudflare_ini) config E) as [_ H].
  assert (Engine.api_token config = Some "t0ken") as Htok.
  { vm_compute in E. by injection E as <-. }
  rewrite Htok in H. exact H.
Defined.

End LoadedConfigurations.

(** ** What a run of the engine keeps *)

Section ReplacedRows.

Context {A : Type} (zone_of : A → nat).

Lemma replace_rows_own (table : list A) (e : nat * list A) :
  owned zone_of e →
  List.filter (λ r, zone_of r =? e.1) (replace_rows zone_of table e) = e.2.
Proof.
  intros He. unfold replace_rows. rewrite List.filter_app.
  assert (List.filter (λ r, zone_of r =? e.1)
            (List.filter (λ r, negb (zone_of r =? e.1)) table) = []) as ->.
  { induction table as [|r table IH]; [done|]. simpl.
    destruct (zone_of r =? e.1) eqn:E; simpl; [done|]. by rewrite E. }
  simpl. induction He as [|r l Hr _ IH]; [done|]. simpl.
  by rewrite Hr, Nat.eqb_refl, IH.
Qed.

Lemma replace_rows_others (table : list A) (e : nat * list A) (i : nat) :
  owned zone_of e → i = e.1 ∨ Forall (λ r, zone_of r ≠ i) e.2 →
  List.filter (λ r, negb (zone_of r =? i)) (replace_rows zone_of table e)
  = List.filter (λ r, negb (zone_of r =? i))
      (List.filter (λ r, negb (zone_of r =? e.1)) table)
    ++ (if decide (i = e.1) then [] else e.2).
Proof.
  destruct e as [j rows]. unfold owned, replace_rows. simpl.
  intros He Hi. rewrite List.filter_app. f_equal.
  destruct (decide (i = j)) as [->|Hne].
  - clear Hi. induction He as [|r l Hr _ IH]; [done|]. simpl.
    rewrite Hr, Nat.eqb_refl. simpl. apply IH.
  - destruct Hi as [?|Hall]; [done|]. clear He.
    induction Hall as [|r l Hr _ IH]; [done|]. simpl.
    apply Nat.eqb_neq in Hr. rewrite Hr. simpl. by rewrite IH.
Qed.

Lemma filter_negb_idem (f : A → bool) (table : list A) :
  List.filter f (List.filter f table) = List.filter f table.
Proof.
  induction table as [|r table IH]; [done|]. simpl.
  destruct (f r) eqn:E; simpl; [|done]. by rewrite E, IH.
Qed.

End ReplacedRows.

Section EngineRuns.
Import Py Db.

Variable now : nat.
Variable fromisoformat : string → option string.
Variable cf_client : Engine.CloudflareClient.

Lemma zlookup_elem key zs i :
  zlookup key zs = Some i →
  ∃ zr, zr ∈ zs ∧ Engine.z_id zr = i ∧ Engine.z_cf_zone_id zr = key.
Proof.
  induction zs as [|r zs IH]; [done|]. simpl.
  destruct (json_eqb (Engine.z_cf_zone_id r) key) eqn:E.
  - intros [= <-]. exists r. split; [left|]. split; [done|]. by apply json_eqb_eq.
  - intros (zr & ? & ? & ?)%IH. exists zr. split; [by right|done].
Qed.

(** X12: one [sync_zone] that returns, started on a connection without
    pending changes, leaves as the committed load balancers of the zone
    exactly the rows built from the list [B] the provider returned, in
    order, and reports their number; the load balancers of the other
    zones and the pool origins are as they were. *)
Theorem sync_zone_replaces_load_balancers (account_id : nat) (zone : dict)
    (B : list json) (d : Engine.db) (c' : conn Engine.db) (counts : nat * nat) :
  truthy (get_or_none zone "id") = true →
  Engine.list_load_balancers cf_client (get_or_none zone "id") = inr B →
  Engine.sync_zone now fromisoformat cf_client account_id zone (open d)
  = (c', inr counts) →
  counts.2 = length B
  ∧ ∃ local rows zr,
      Engine.balancer_payloads local B = inr rows
      ∧ zr ∈ Engine.zones (committed c')
      ∧ Engine.z_id zr = local
      ∧ Engine.z_cf_zone_id zr = get_or_none zone "id"
      ∧ List.filter (λ r, Engine.lb_zone_id r =? local)
          (Engine.load_balancers (committed c')) = rows
      ∧ List.filter (λ r, negb (Engine.lb_zone_id r =? local))
          (Engine.load_balancers (committed c'))
        = List.filter (λ r, negb (Engine.lb_zone_id r =? local))
            (Engine.load_balancers d)
      ∧ Engine.origins (committed c') = Engine.origins d.
Proof.
  intros Hid HB Hrun.
  pose proof (sync_zone_run fromisoformat cf_client now account_id zone d Hid)
    as Hspec.
  cbv zeta in Hspec. rewrite Hrun, HB in Hspec.
  destruct (Engine.list_records cf_client _) as [e|R]; [by injection Hspec|].
  destruct (Engine.zone_values zone) as [e|v]; [by destruct Hspec|].
  destruct (Engine.record_payloads fromisoformat 0 R) as [e|?];
    [by destruct Hspec|].
  pose proof (balancer_payloads_shift 0 (local_id (get_or_none zone "id") d) B)
    as Hshift.
  destruct (Engine.balancer_payloads 0 B) as [e|?]; [by destruct Hspec|].
  destruct Hshift as [rows Hrows].
  destruct Hspec as (d2 & [= -> ->] & _ & Hlb & Horigins & Hlook & _).
  simpl. split; [done|].
  destruct (zlookup_elem _ _ _ Hlook) as (zr & Hzr & Hzid & Hzkey).
  exists (local_id (get_or_none zone "id") d), rows, zr.
  split; [done|]. split; [done|]. split; [done|]. split; [done|].
  assert (balancer_rows (local_id (get_or_none zone "id") d) B = rows) as Hbr.
  { unfold balancer_rows. by rewrite Hrows. }
  pose proof (balancer_rows_owned (local_id (get_or_none zone "id") d) B) as Hown.
  rewrite Hbr in Hlb, Hown. rewrite Hlb.
  split; [apply (replace_rows_own Engine.lb_zone_id _ (_, rows) Hown)|].
  split; [|done].
  rewrite (replace_rows_others Engine.lb_zone_id _ (_, rows) _ Hown) by by left.
  simpl. rewrite decide_True by done. rewrite app_nil_r.
  apply filter_negb_idem.
Qed.

End EngineRuns.

Section EngineRunsExamples.
Import Py Db.

Definition balancer (lb_id : string) : json :=
  JObj [("id", JStr lb_id); ("name", JStr "www.example.org");
        ("enabled", JBool true)].

Definition provider_with_balancers : Engine.CloudflareClient :=
  {| Engine.list_zones := λ _, inr [JObj example_zone];
     Engine.list_records := λ _, inr three_left;
     Engine.list_load_balancers := λ _, inr [balancer "lb-1"; balancer "lb-2"] |}.

Lemma sync_zone_replaces_load_balancers_witness :
  let run := Engine.sync_zone 9 (λ _, None) provider_with_balancers 1
               example_zone (open store_with_five) in
  length (Engine.load_balancers (committed run.1)) = 2
  ∧ Engine.origins (committed run.1) = Engine.origins store_with_five.
Proof.
  pose proof (sync_zone_replaces_load_balancers 9 (λ _, None)
                provider_with_balancers 1 example_zone
                [balancer "lb-1"; balancer "lb-2"] store_with_five) as H.
  destruct (Engine.sync_zone _ _ _ _ _ _) as [c' [e|counts]] eqn:E;
    [by vm_compute in E|].
  destruct (H c' counts) as (_ & local & rows & zr & _ & _ & _ & _ & _ & _ & Ho);
    [by vm_compute..|done|].
  split; [|done]. vm_compute in E. by injection E as <- <-.
Defined.

End EngineRunsExamples.

(** *** Properties of the database that every statement of a run keeps *)

Section Kept.
Import Py Db.

Context {D : Type} (P : D → Prop).

(** Both the committed and the working copy satisfy [P]. *)
Definition kept (c : conn D) : Prop := P (committed c) ∧ P (working c).

Lemma kept_open d : P d → kept (open d).
Proof. by split. Qed.

Lemma kept_execute (g : D → D) :
  (∀ d, P d → P (g d)) → invariant kept (execute g).
Proof. intros Hg c [? ?]. split; simpl; auto. Qed.

Lemma kept_query {A} (g : D → D * A) :
  (∀ d, P d → P (g d).1) → invariant kept (query g).
Proof.
  intros Hg c [? ?]. unfold query. specialize (Hg (working c)).
  destruct (g (working c)). split; simpl in *; auto.
Qed.

Lemma kept_commit : invariant kept (@commit D).
Proof. by intros c [? ?]. Qed.

Lemma kept_rollback : invariant kept (@rollback D).
Proof. by intros c [? ?]. Qed.

End Kept.

Section EngineKeeps.
Import Py Db.

Variable now : nat.
Variable fromisoformat : string → option string.
Variable cf_client : Engine.CloudflareClient.

(** A property that depends on the accounts, the zones and the pool
    origins only, and that the two upserts keep. *)
Variable P : Engine.db → Prop.

Hypothesis P_tables :
  ∀ d d', Engine.accounts d' = Engine.accounts d →
          Engine.next_account_id d' = Engine.next_account_id d →
          Engine.zones d' = Engine.zones d →
          Engine.next_zone_id d' = Engine.next_zone_id d →
          Engine.origins d' = Engine.origins d →
          P d → P d'.

Hypothesis P_upsert_account :
  ∀ cf_account_id name d,
    P d → P ((Engine.upsert_account now cf_account_id name (open d)).1).(working).

Hypothesis P_upsert_zone :
  ∀ account_id zone d,
    P d → P ((Engine.upsert_zone now account_id zone (open d)).1).(working).

Hypothesis P_mark_synced :
  ∀ local d, P d → P (Engine.mark_synced now local d).

Lemma kept_upsert_account cf_account_id name :
  invariant (kept P) (Engine.upsert_account now cf_account_id name).
Proof.
  intros c [Hc Hw]. specialize (P_upsert_account cf_account_id name _ Hw).
  revert P_upsert_account. unfold Engine.upsert_account, query. simpl.
  destruct (List.find _ _); simpl; by split.
Qed.

Lemma kept_upsert_zone account_id zone :
  invariant (kept P) (Engine.upsert_zone now account_id zone).
Proof.
  intros c [Hc Hw]. specialize (P_upsert_zone account_id zone _ Hw).
  revert P_upsert_zone. unfold Engine.upsert_zone, bind, lift, query. simpl.
  destruct (Engine.zone_values zone) as [e|[[[[[? ?] ?] ?] ?] ?]]; [by split|].
  destruct (List.find _ _); simpl; by split.
Qed.

Lemma kept_replace_zone_records zid R :
  invariant (kept P) (Engine.replace_zone_records fromisoformat zid R).
Proof.
  unfold Engine.replace_zone_records.
  apply inv_bind; [apply kept_execute; intros d; by apply P_tables|].
  intros _. destruct R; [apply inv_ret|].
  apply inv_bind; [apply inv_lift|]. intros rows.
  apply inv_bind; [apply kept_execute; intros d; by apply P_tables|].
  intros _. apply inv_ret.
Qed.

Lemma kept_replace_zone_load_balancers zid B :
  invariant (kept P) (Engine.replace_zone_load_balancers zid B).
Proof.
  unfold Engine.replace_zone_load_balancers.
  apply inv_bind; [apply kept_execute; intros d; by apply P_tables|].
  intros _. destruct B; [apply inv_ret|].
  apply inv_bind; [apply inv_lift|]. intros rows.
  apply inv_bind; [apply kept_execute; intros d; by apply P_tables|].
  intros _. apply inv_ret.
Qed.

Lemma kept_sync_zone account_id zone :
  invariant (kept P) (Engine.sync_zone now fromisoformat cf_client account_id zone).
Proof.
  unfold Engine.sync_zone.
  apply inv_bind; [apply inv_lift|]. intros zid.
  apply inv_bind; [apply inv_lift|]. intros R.
  apply inv_bind; [apply inv_lift|]. intros B.
  apply inv_bind; [apply kept_upsert_zone|]. intros local.
  apply inv_bind; [apply kept_replace_zone_records|]. intros ?.
  apply inv_bind; [apply kept_replace_zone_load_balancers|]. intros ?.
  apply inv_bind; [apply kept_execute, P_mark_synced|]. intros ?.
  apply inv_bind; [apply kept_commit|]. intros ?. apply inv_ret.
Qed.

Lemma kept_sync_accounts account_ids :
  invariant (kept P) (Engine.sync_accounts now fromisoformat cf_client account_ids).
Proof.
  unfold Engine.sync_accounts. apply inv_for_each. intros account_id s.
  unfold Engine.sync_accounts_account. apply inv_bind.
  { apply inv_try_except; [|intros; apply inv_ret].
    apply inv_bind; [apply inv_lift|]. intros. apply inv_ret. }
  intros [zones|]; [|apply inv_ret].
  apply inv_for_each. intros zone s'. unfold Engine.sync_accounts_zone.
  apply inv_bind; [apply inv_lift|]. intros z.
  destruct (negb _); [apply inv_ret|].
  apply inv_bind; [apply inv_lift|]. intros account_data.
  apply inv_bind; [apply kept_upsert_account|]. intros db_account_id.
  apply inv_bind; [apply kept_commit|]. intros _.
  apply inv_try_except.
  - apply inv_bind; [apply kept_sync_zone|]. intros [? ?]. apply inv_ret.
  - intros e. apply inv_bind; [apply kept_rollback|]. intros _. apply inv_ret.
Qed.

End EngineKeeps.

(** *** Accounts and zones are only added *)

Section AppendOnly.
Import Py Db.

Variable now : nat.
Variable fromisoformat : string → option string.
Variable cf_client : Engine.CloudflareClient.

(** The local id and the provider id of every account and zone row. *)
Definition account_keys (d : Engine.db) : list (nat * json) :=
  (λ r, (Engine.a_id r, Engine.a_cf_account_id r)) <$> Engine.accounts d.

Definition zone_keys (d : Engine.db) : list (nat * json) :=
  (λ r, (Engine.z_id r, Engine.z_cf_zone_id r)) <$> Engine.zones d.

Lemma fmap_update_first {A B} (f : A → B) (p : A → bool) (g : A → A) (l : list A) :
  (∀ x, f (g x) = f x) → f <$> Engine.update_first p g l = f <$> l.
Proof.
  intros Hg. induction l as [|x l IH]; [done|].
  cbn [Engine.update_first]. destruct (p x); rewrite !fmap_cons.
  - by rewrite Hg.
  - by rewrite IH.
Qed.

(** What [upsert_account] does to the tables. *)
Lemma upsert_account_tables cf_account_id name d :
  let d' := working (Engine.upsert_account now cf_account_id name (open d)).1 in
  Engine.zones d' = Engine.zones d
  ∧ Engine.next_zone_id d' = Engine.next_zone_id d
  ∧ Engine.origins d' = Engine.origins d
  ∧ (account_keys d' = account_keys d
     ∨ account_keys d' = account_keys d ++ [(Engine.next_account_id d, cf_account_id)]).
Proof.
  unfold Engine.upsert_account, query, account_keys. simpl.
  destruct (List.find _ _); simpl.
  - repeat split. left. by apply fmap_update_first.
  - repeat split. right. by rewrite fmap_app.
Qed.

(** What [upsert_zone] does to the tables. *)
Lemma upsert_zone_tables account_id zone d :
  let d' := working (Engine.upsert_zone now account_id zone (open d)).1 in
  Engine.accounts d' = Engine.accounts d
  ∧ Engine.origins d' = Engine.origins d
  ∧ (zone_keys d' = zone_keys d ∧ Engine.next_zone_id d' = Engine.next_zone_id d
     ∨ ∃ key, zone_keys d' = zone_keys d ++ [(Engine.next_zone_id d, key)]
              ∧ Engine.next_zone_id d' = S (Engine.next_zone_id d)).
Proof.
  unfold Engine.upsert_zone, bind, lift, query, zone_keys. simpl.
  destruct (Engine.zone_values zone) as [e|[[[[[key ?] ?] ?] ?] ?]]; simpl.
  { repeat split. by left. }
  destruct (List.find _ _); simpl.
  - repeat split. left. split; [|done]. by apply fmap_update_first.
  - repeat split. right. exists key. by rewrite fmap_app.
Qed.

Lemma mark_synced_tables local d :
  Engine.accounts (Engine.mark_synced now local d) = Engine.accounts d
  ∧ Engine.origins (Engine.mark_synced now local d) = Engine.origins d
  ∧ zone_keys (Engine.mark_synced now local d) = zone_keys d
  ∧ Engine.next_zone_id (Engine.mark_synced now local d) = Engine.next_zone_id d.
Proof.
  unfold Engine.mark_synced, zone_keys. simpl. repeat split.
  rewrite <-list_fmap_compose. apply list_fmap_ext. intros i r _. simpl.
  by destruct (Engine.z_id r =? local).
Qed.

(** Nothing is removed from the accounts and the zones of [d0], and the
    pool origins are those of [d0]. *)
Definition grown_from (d0 d : Engine.db) : Prop :=
  Engine.origins d = Engine.origins d0
  ∧ account_keys d0 `prefix_of` account_keys d
  ∧ zone_keys d0 `prefix_of` zone_keys d.

Lemma grown_from_run d0 account_ids :
  invariant (kept (grown_from d0))
    (Engine.sync_accounts now fromisoformat cf_client account_ids).
Proof.
  apply kept_sync_accounts.
  - intros d d' Ha _ Hz _ Ho (? & ? & ?).
    unfold grown_from, account_keys, zone_keys. rewrite Ha, Hz, Ho. done.
  - intros k n d (Ho & Ha & Hz).
    destruct (upsert_account_tables k n d) as (Hz' & _ & Ho' & Ha').
    unfold grown_from, zone_keys. rewrite Hz', Ho'.
    split; [done|]. split; [|done].
    destruct Ha' as [->| ->]; [done|]. by apply prefix_app_r.
  - intros a z d (Ho & Ha & Hz).
    destruct (upsert_zone_tables a z d) as (Ha' & Ho' & Hz').
    unfold grown_from, account_keys. rewrite Ha', Ho'.
    split; [done|]. split; [done|].
    destruct Hz' as [[-> _]|(key & -> & _)]; [done|]. by apply prefix_app_r.
  - intros l d (Ho & Ha & Hz).
    destruct (mark_synced_tables l d) as (Ha' & Ho' & Hz' & _).
    unfold grown_from, account_keys. by rewrite Ha', Ho', Hz'.
Qed.

(** X13: a run of [sync_accounts] only adds to the accounts and the
    zones. Every account row and every zone row that was stored before
    the run is still there after it, in place, under its local id and
    its provider id, whatever the provider lists or fails to list; the
    run never deletes or renumbers one, and it never touches the pool
    origins. *)
Theorem sync_accounts_append_only (account_ids : list string) (d : Engine.db) :
  let d' := committed (Engine.sync_accounts now fromisoformat cf_client
                         account_ids (open d)).1 in
  Engine.origins d' = Engine.origins d
  ∧ account_keys d `prefix_of` account_keys d'
  ∧ zone_keys d `prefix_of` zone_keys d'.
Proof.
  intros d'.
  destruct (grown_from_run d account_ids (open d)) as [Hc _]; [|done].
  by apply kept_open.
Qed.

(** Local zone ids are unique and below the counter. *)
Definition zone_ids_fresh (d : Engine.db) : Prop :=
  NoDup (zone_keys d).*1
  ∧ Forall (λ i, i < Engine.next_zone_id d) (zone_keys d).*1.

Lemma zone_ids_fresh_run account_ids :
  invariant (kept zone_ids_fresh)
    (Engine.sync_accounts now fromisoformat cf_client account_ids).
Proof.
  apply kept_sync_accounts.
  - intros d d' _ _ Hz Hn _. unfold zone_ids_fresh, zone_keys. by rewrite Hz, Hn.
  - intros k n d Hd.
    destruct (upsert_account_tables k n d) as (Hz' & Hn' & _).
    unfold zone_ids_fresh, zone_keys. by rewrite Hz', Hn'.
  - intros a z d [Hnd Hlt].
    destruct (upsert_zone_tables a z d) as (_ & _ & Hz').
    unfold zone_ids_fresh.
    destruct Hz' as [[-> ->]|(key & -> & ->)]; [done|].
    rewrite fmap_app. simpl. split.
    + apply NoDup_app. split; [done|]. split; [|apply NoDup_singleton].
      intros i Hi ->%list_elem_of_singleton.
      rewrite Forall_forall in Hlt. specialize (Hlt _ Hi). lia.
    + apply Forall_app. split; [|by repeat constructor].
      eapply Forall_impl; [done|]. simpl. lia.
  - intros l d Hd.
    destruct (mark_synced_tables l d) as (_ & _ & Hz' & Hn').
    unfold zone_ids_fresh. by rewrite Hz', Hn'.
Qed.

End AppendOnly.

(** *** Zones that a run does not sync *)

Section UnsyncedZones.
Import Py Db.

Variable now : nat.
Variable fromisoformat : string → option string.
Variable cf_client : Engine.CloudflareClient.

Lemma trace_kinds (items : list item) s d (e : entry) :
  e ∈ trace fromisoformat cf_client now items s d →
  ∃ it account_data,
    it ∈ items
    ∧ kind_of fromisoformat cf_client it = Sync account_data e.1.1.1 e.1.2 e.2.
Proof.
  revert s d. induction items as [|it rest IH]; intros s d.
  { by intros ?%elem_of_nil. }
  cbn [trace]. intros [Hhere|Hrest]%elem_of_app.
  - unfold entry_of in Hhere.
    destruct (kind_of fromisoformat cf_client it) as [| | |a key R B] eqn:Hk;
      try by apply elem_of_nil in Hhere.
    apply list_elem_of_singleton in Hhere as ->.
    exists it, a. split; [left|done].
  - destruct (step fromisoformat cf_client now it s (open d)) as [c' [?|s']];
      [by apply elem_of_nil in Hrest|].
    destruct (IH _ _ Hrest) as (it' & a & Hin & Hk).
    exists it', a. split; [by right|done].
Qed.

(** A zone that is synced was listed, with records that could be
    fetched. *)
Lemma plan_sync account_ids it account_data key R B :
  it ∈ plan cf_client account_ids →
  kind_of fromisoformat cf_client it = Sync account_data key R B →
  ∃ account_id zones z,
    account_id ∈ account_ids
    ∧ Engine.list_zones cf_client account_id = inr zones
    ∧ JObj z ∈ zones
    ∧ key = get_or_none z "id"
    ∧ Engine.list_records cf_client key = inr R.
Proof.
  unfold plan. intros (account_id & Hit & Hid)%list_elem_of_bind.
  destruct (Engine.list_zones cf_client account_id) as [e|zones] eqn:Hz.
  { destruct (is_cloudflare_error e); [by apply elem_of_nil in Hit|].
    by apply list_elem_of_singleton in Hit as ->. }
  apply list_elem_of_fmap in Hit as (zone & -> & Hzone).
  simpl. unfold classify. destruct zone as [| | | | |z]; try done.
  cbv zeta. destruct (negb _); [done|].
  destruct (por _ _); try done.
  destruct (Engine.list_records cf_client _) as [?|R'] eqn:HR; [done|].
  destruct (Engine.list_load_balancers cf_client _); [done|].
  destruct (Engine.zone_values z); [done|].
  destruct (Engine.record_payloads _ _ _); [done|].
  destruct (Engine.balancer_payloads _ _); [done|].
  intros [= <- <- <- <-]. by exists account_id, zones, z.
Qed.

Lemma filter_replace_rows_other {A} (zone_of : A → nat) (i : nat)
    (T : list (nat * list A)) (table : list A) :
  Forall (owned zone_of) T → Forall (λ e, e.1 ≠ i) T →
  List.filter (λ r, zone_of r =? i) (foldl (replace_rows zone_of) table T)
  = List.filter (λ r, zone_of r =? i) table.
Proof.
  intros Hown. revert table.
  induction Hown as [|[j rows] T Hj _ IH]; intros table Hne; [done|].
  inversion_clear Hne as [|?? Hji Hrest]. simpl in Hji.
  cbn [foldl]. rewrite IH by done.
  unfold replace_rows. simpl. rewrite List.filter_app.
  assert (List.filter (λ r, zone_of r =? i) rows = []) as ->.
  { unfold owned in Hj. simpl in Hj.
    induction Hj as [|r l Hr _ IHl]; [done|]. simpl.
    rewrite Hr. destruct (Nat.eqb_spec j i); [done|]. done. }
  rewrite app_nil_r. clear -Hji.
  induction table as [|r table IH]; [done|]. simpl.
  destruct (Nat.eqb_spec (zone_of r) j) as [->|Hne]; simpl.
  - destruct (Nat.eqb_spec j i); [done|]. done.
  - by rewrite IH.
Qed.


Lemma NoDup_fst_eq {A B} (l : list (A * B)) a b b' :
  NoDup l.*1 → (a, b) ∈ l → (a, b') ∈ l → b = b'.
Proof.
  induction l as [|[x y] l IH]; [by intros _ ?%elem_of_nil|].
  rewrite fmap_cons. simpl. intros [Hx Hnd]%NoDup_cons.
  intros [E1|H1]%elem_of_cons [E2|H2]%elem_of_cons.
  - congruence.
  - injection E1 as -> ->. destruct Hx.
    apply list_elem_of_fmap. by exists (x, b').
  - injection E2 as -> ->. destruct Hx.
    apply list_elem_of_fmap. by exists (x, b).
  - by apply IH.
Qed.

(** X14: a stored zone that a run does not sync keeps its rows. For a
    database whose local zone ids are unique and below the counter, and
    a stored zone that the provider does not list for the accounts of
    the run, or lists but fails to return the records of, the records
    and the load balancers stored for that zone are after the run what
    they were before it. *)
Theorem unsynced_zone_keeps_its_rows (account_ids : list string)
    (d : Engine.db) (zr : Engine.zone_row) :
  NoDup (Engine.z_id <$> Engine.zones d) →
  Forall (λ r, Engine.z_id r < Engine.next_zone_id d) (Engine.zones d) →
  zr ∈ Engine.zones d →
  (∀ account_id zones z,
     account_id ∈ account_ids →
     Engine.list_zones cf_client account_id = inr zones →
     JObj z ∈ zones →
     get_or_none z "id" = Engine.z_cf_zone_id zr →
     ∃ e, Engine.list_records cf_client (Engine.z_cf_zone_id zr) = inl e) →
  let d' := committed (Engine.sync_accounts now fromisoformat cf_client
                         account_ids (open d)).1 in
  List.filter (λ r, Engine.r_zone_id r =? Engine.z_id zr) (Engine.records d')
  = List.filter (λ r, Engine.r_zone_id r =? Engine.z_id zr) (Engine.records d)
  ∧ List.filter (λ r, Engine.lb_zone_id r =? Engine.z_id zr)
      (Engine.load_balancers d')
    = List.filter (λ r, Engine.lb_zone_id r =? Engine.z_id zr)
        (Engine.load_balancers d).
Proof.
  intros Hnd Hlt Hzr Hunsynced d'.
  assert (zone_ids_fresh d) as Hfresh.
  { unfold zone_ids_fresh, zone_keys. rewrite <-list_fmap_compose.
    split; [done|]. by apply Forall_fmap. }
  destruct (zone_ids_fresh_run now fromisoformat cf_client account_ids (open d))
    as [[Hnd' _] _]; [by apply kept_open|].
  destruct (grown_from_run now fromisoformat cf_client d account_ids (open d))
    as [(_ & _ & Hprefix) _]; [by apply kept_open|].
  fold d' in Hnd', Hprefix.
  assert ((Engine.z_id zr, Engine.z_cf_zone_id zr) ∈ zone_keys d') as Hkept.
  { destruct Hprefix as [k ->]. apply elem_of_app. left.
    apply list_elem_of_fmap. by exists zr. }
  set (items := plan cf_client account_ids).
  set (s0 := {| Engine.s_zones := 0; Engine.s_records := 0;
                Engine.s_load_balancers := 0 |}).
  assert (d' = committed (for_each items (step fromisoformat cf_client now) s0
                            (open d)).1) as Hd'.
  { subst d'. unfold Engine.sync_accounts.
    by rewrite (sync_accounts_plan fromisoformat cf_client now). }
  destruct (run_tables fromisoformat cf_client now items s0 d)
    as (Hrec & Hlb & _ & _ & Hlook).
  rewrite <-Hd' in Hrec, Hlb, Hlook.
  set (T := trace fromisoformat cf_client now items s0 d) in *.
  assert (Forall (λ e : entry, e.1.1.2 ≠ Engine.z_id zr) T) as Hother.
  { apply Forall_forall. intros e He Heq.
    destruct (trace_kinds _ _ _ _ He) as (it & a & Hit & Hk).
    destruct (plan_sync _ _ _ _ _ _ Hit Hk) as (acc & zs & z & Hacc & Hzs & Hz & Hkey & HR).
    destruct (zlookup_elem _ _ _ (Hlook e He)) as (zr' & Hzr' & Hid' & Hkey').
    assert ((Engine.z_id zr, e.1.1.1) ∈ zone_keys d') as Hdup.
    { apply list_elem_of_fmap. exists zr'. by rewrite Hid', Hkey', Heq. }
    pose proof (NoDup_fst_eq _ _ _ _ Hnd' Hkept Hdup) as Hsame.
    destruct (Hunsynced acc zs z Hacc Hzs Hz) as [err Herr]; [congruence|].
    rewrite Hsame, HR in Herr. done. }
  rewrite Hrec, Hlb. split.
  - apply filter_replace_rows_other; [apply record_entries_owned|].
    unfold record_entries. apply Forall_fmap.
    eapply Forall_impl; [exact Hother|]. done.
  - apply filter_replace_rows_other; [apply balancer_entries_owned|].
    unfold balancer_entries. apply Forall_fmap.
    eapply Forall_impl; [exact Hother|]. done.
Qed.

End UnsyncedZones.

Section UnsyncedZonesExamples.
Import Py Db.

(** The provider lists one zone, which is not the stored one. *)
Definition provider_with_other_zone : Engine.CloudflareClient :=
  {| Engine.list_zones := λ _, inr [JObj (zone_named "zone-c" "c.example")];
     Engine.list_records := λ _, inr [dns_record "r9" "192.0.2.9"];
     Engine.list_load_balancers := λ _, inr [] |}.

Definition stored_zone : Engine.zone_row :=
  {| Engine.z_id := 1; Engine.z_account_id := 1;
     Engine.z_cf_zone_id := JStr "zone-a";
     Engine.z_name := JStr "example.org"; Engine.z_status := JStr "active";
     Engine.z_paused := false; Engine.z_zone_type := JNull;
     Engine.z_plan_name := JNull; Engine.z_last_synced := None;
     Engine.z_updated_at := None |}.

Lemma unsynced_zone_keeps_its_rows_witness :
  let d' := committed (Engine.sync_accounts 9 (λ _, None) provider_with_other_zone
                         ["acct"] (open store_with_five)).1 in
  List.filter (λ r, Engine.r_zone_id r =? 1) (Engine.records d')
  = stored_record <$> ["r1"; "r2"; "r3"; "r4"; "r5"]
  ∧ List.filter (λ r, Engine.lb_zone_id r =? 1) (Engine.load_balancers d') = [].
Proof.
  apply (unsynced_zone_keeps_its_rows 9 (λ _, None) provider_with_other_zone
           ["acct"] store_with_five stored_zone).
  - apply NoDup_singleton.
  - repeat constructor.
  - left.
  - intros account_id zones z _ [= <-] [= ->]%list_elem_of_singleton.
    by vm_compute.
Defined.

End UnsyncedZonesExamples.

(** ** Time stamps *)

Section Timestamps.
Import Py Db Config.

Variable fromisoformat : string → option string.

Lemma lstrip_by_app_stuck p a b :
  match b with String c _ => p c = false | EmptyString => False end →
  lstrip_by p (a +:+ b) = lstrip_by p a +:+ b.
Proof.
  intros Hb. induction a as [|c a IH].
  - destruct b as [|c b]; [done|]. simpl. by rewrite Hb.
  - change (String c a +:+ b) with (String c (a +:+ b)). simpl.
    destruct (p c); [apply IH|done].
Qed.

Lemma utc_suffix_app a b :
  b ≠ EmptyString → Engine.utc_suffix (a +:+ b) = a +:+ Engine.utc_suffix b.
Proof.
  intros Hb. induction a as [|c a IH]; [done|].
  change (String c a +:+ ?x) with (String c (a +:+ x)).
  simpl. rewrite IH. destruct (a +:+ b) eqn:E; [|done].
  destruct a, b; done.
Qed.

(** X16: [parse_timestamp] reads a trailing [Z] as the offset
    [+00:00]; it gives [None] for [None], for the empty text and for
    text of white space only; and on text it never raises. *)
Theorem parse_timestamp_utc (text : string) :
  Engine.parse_timestamp fromisoformat (JStr (text +:+ "Z"))
  = Engine.parse_timestamp fromisoformat (JStr (text +:+ "+00:00"))
  ∧ Engine.parse_timestamp fromisoformat JNull = inr None
  ∧ (strip text = EmptyString →
     Engine.parse_timestamp fromisoformat (JStr text) = inr None)
  ∧ ∃ r, Engine.parse_timestamp fromisoformat (JStr text) = inr r.
Proof.
  split; [|split; [done|split]].
  - assert (∀ b, trimmed b → b ≠ EmptyString →
              match b with String c _ => is_space c = false
                         | EmptyString => False end →
              strip (text +:+ b) = lstrip_by is_space text +:+ b) as Hstrip.
    { intros b Hb Hne Hhead. unfold strip, strip_by.
      rewrite lstrip_by_app_stuck by done.
      rewrite rstrip_by_app; rewrite (trimmed_rstrip b Hb); done. }
    unfold Engine.parse_timestamp.
    assert (∀ b, b ≠ EmptyString → truthy (JStr (text +:+ b)) = true) as Htruthy.
    { intros b Hb. simpl. destruct text, b; done. }
    rewrite !Htruthy by done. simpl negb. cbv iota.
    rewrite !Hstrip by done.
    assert (∀ b, b ≠ EmptyString →
              is_empty (lstrip_by is_space text +:+ b) = false) as Hfull.
    { intros b Hb. destruct (lstrip_by is_space text), b; done. }
    rewrite !Hfull by done. by rewrite !utc_suffix_app.
  - intros Hblank. unfold Engine.parse_timestamp.
    destruct (negb (truthy (JStr text))); [done|]. by rewrite Hblank.
  - unfold Engine.parse_timestamp.
    destruct (negb (truthy (JStr text))); [by eexists|].
    destruct (is_empty (strip text)); by eexists.
Qed.

End Timestamps.

(** ** Page requests, whatever the provider answers *)

Section PageRequests.
Import Py Client.

Variable w : http.
Variable p : path.
Variable params : gmap string string.
Variable per_page : nat.

(** Page [k] was answered with the batch [b]. *)
Definition answered (k : nat) (b : list json) : Prop :=
  ∃ d, request w "GET" p (page_params params per_page k) = inr d
       ∧ batch_of d = inr b.

Lemma paginated_loop_requests fuel k results sent :
  let run := paginated_loop fuel w p params per_page k results sent in
  ∃ n,
    n ≤ fuel
    ∧ run.1 = sent ++ (page_request p params per_page <$> seq k n)
    ∧ (0 < fuel → 0 < n)
    ∧ (run.2 = None → n = fuel)
    ∧ ∀ out, run.2 = Some (inr out) →
        ∃ batches,
          length batches = n
          ∧ out = results ++ concat batches
          ∧ ∀ i b, batches !! i = Some b → answered (k + i) b.
Proof.
  revert k results sent. induction fuel as [|fuel IH]; intros k results sent.
  { exists 0. simpl. rewrite app_nil_r. repeat split; try done; lia. }
  cbn [paginated_loop]. cbv zeta.
  set (q := page_params params per_page k).
  set (sent' := sent ++ [{| method := "GET"; url_path := p; query := q |}]).
  assert (∀ r : option (result (list json)),
            (∀ out, r = Some (inr out) →
                  ∃ d b, request w "GET" p q = inr d ∧ batch_of d = inr b
                         ∧ out = results ++ b) →
               r ≠ None →
               ∃ n, n ≤ S fuel
                 ∧ (sent', r).1
                   = sent ++ (page_request p params per_page <$> seq k n)
                 ∧ (0 < S fuel → 0 < n)
                 ∧ ((sent', r).2 = None → n = S fuel)
                 ∧ ∀ out, (sent', r).2 = Some (inr out) →
                     ∃ batches, length batches = n
                       ∧ out = results ++ concat batches
                       ∧ ∀ i b, batches !! i = Some b → answered (k + i) b)
    as Hstop.
  { intros r Hr Hsome. exists 1. split; [lia|]. split; [done|].
    split; [lia|]. split; [done|]. simpl. intros out Hout.
    destruct (Hr out Hout) as (d & b & Hd & Hb & ->).
    exists [b]. split; [done|]. split; [simpl; by rewrite app_nil_r|].
    intros [|i] b' [= <-]. rewrite Nat.add_0_r. by exists d. }
  destruct (request w "GET" p q) as [e|d] eqn:Hreq; [by apply Hstop|].
  destruct (batch_of d) as [e|batch] eqn:Hbatch; [by apply Hstop|].
  destruct (total_pages_of d) as [e|total_pages]; [by apply Hstop|].
  destruct (negb (truthy total_pages)).
  { apply Hstop; [|done]. intros out [= <-]. by exists d, batch. }
  destruct (int total_pages) as [e|n]; [by apply Hstop|].
  destruct (n <=? Z.of_nat k)%Z.
  { apply Hstop; [|done]. intros out [= <-]. by exists d, batch. }
  destruct (IH (k + 1) (results ++ batch) sent')
    as (m & Hm & Hsent & _ & Hnone & Hout).
  exists (S m). split; [lia|]. split.
  { rewrite Hsent. subst sent'. rewrite <-app_assoc. simpl.
    by rewrite Nat.add_1_r. }
  split; [lia|]. split; [intros H; rewrite (Hnone H); done|].
  intros out Hrun. destruct (Hout out Hrun) as (batches & Hlen & -> & Hall).
  exists (batch :: batches). split; [simpl; by rewrite Hlen|].
  split; [simpl; by rewrite app_assoc|].
  intros [|i] b; simpl.
  - intros [= <-]. rewrite Nat.add_0_r. by exists d.
  - intros Hb. replace (k + S i) with (k + 1 + i) by lia. by apply Hall.
Qed.

(** X17: whatever the provider answers, [paginated_get] asks for the
    pages 1, 2, ..., n in this order, each once, with the page size and
    the parameters it was given; it sends at least one request; and a
    list it returns is the concatenation, in page order, of the batches
    of exactly the pages it asked for. *)
Theorem paginated_get_requests (fuel : nat) :
  let run := paginated_get fuel w p params per_page in
  let n := length run.1 in
  run.1 = page_request p params per_page <$> seq 1 n
  ∧ n ≤ fuel
  ∧ (0 < fuel → 0 < n)
  ∧ (run.2 = None → n = fuel)
  ∧ ∀ out, run.2 = Some (inr out) →
      ∃ batches,
        length batches = n
        ∧ out = concat batches
        ∧ ∀ i b, batches !! i = Some b → answered (1 + i) b.
Proof.
  intros run n.
  destruct (paginated_loop_requests fuel 1 [] [])
    as (m & Hm & Hsent & Hpos & Hnone & Hout).
  fold (paginated_get fuel w p params per_page) in Hsent, Hnone, Hout.
  fold run in Hsent, Hnone, Hout. simpl in Hsent.
  assert (n = m) as ->.
  { subst n. by rewrite Hsent, length_fmap, length_seq. }
  done.
Qed.


Lemma paginated_loop_bounded (N : nat) :
  (∀ k d t n,
     1 ≤ k →
     request w "GET" p (page_params params per_page k) = inr d →
     total_pages_of d = inr t → int t = inr n → (n ≤ Z.of_nat N)%Z) →
  ∀ fuel k results sent,
    1 ≤ k → 1 ≤ fuel → N < k + fuel →
    let run := paginated_loop fuel w p params per_page k results sent in
    run.2 ≠ None ∧ length run.1 ≤ length sent + (1 `max` (N + 1 - k)).
Proof.
  intros Hcount. induction fuel as [|fuel IH]; intros k results sent Hk Hfuel HN;
    [lia|].
  cbn [paginated_loop]. cbv zeta.
  set (q := page_params params per_page k).
  set (sent' := sent ++ [{| method := "GET"; url_path := p; query := q |}]).
  assert (length sent' = length sent + 1) as Hlen.
  { subst sent'. rewrite length_app. done. }
  assert (∀ r : result (list json),
            (sent', Some r).2 ≠ None
            ∧ length (sent', Some r).1 ≤ length sent + (1 `max` (N + 1 - k)))
    as Hstop.
  { intros r. split; [done|]. simpl. lia. }
  destruct (request w "GET" p q) as [e|d] eqn:Hreq; [apply Hstop|].
  destruct (batch_of d) as [e|batch]; [apply Hstop|].
  destruct (total_pages_of d) as [e|total_pages] eqn:Htotal; [apply Hstop|].
  destruct (negb (truthy total_pages)); [apply Hstop|].
  destruct (int total_pages) as [e|n] eqn:Hint; [apply Hstop|].
  destruct (Z.leb_spec n (Z.of_nat k)) as [Hle|Hgt]; [apply Hstop|].
  pose proof (Hcount k d total_pages n Hk Hreq Htotal Hint) as HnN.
  destruct (IH (k + 1) (results ++ batch) sent') as [Hsome Hsent]; [lia..|].
  split; [done|]. rewrite Hlen in Hsent. lia.
Qed.

(** X18: when no answer announces more than [N] pages, [paginated_get]
    ends: it returns or raises within [N] requests, and within one
    request when [N] is 0. *)
Theorem paginated_get_bounded (N fuel : nat) :
  (∀ k d t n,
     1 ≤ k →
     request w "GET" p (page_params params per_page k) = inr d →
     total_pages_of d = inr t → int t = inr n → (n ≤ Z.of_nat N)%Z) →
  1 ≤ fuel → N ≤ fuel →
  let run := paginated_get fuel w p params per_page in
  run.2 ≠ None ∧ length run.1 ≤ 1 `max` N.
Proof.
  intros Hcount Hfuel HN run.
  destruct (paginated_loop_bounded N Hcount fuel 1 [] []) as [Hsome Hlen];
    [lia..|].
  split; [done|]. simpl in Hlen. fold (paginated_get fuel w p params per_page) in Hlen.
  fold run in Hlen. lia.
Qed.

Lemma paginated_loop_endless :
  (∀ k, 1 ≤ k →
     ∃ items total, page_ok w p params per_page k items total
                    ∧ (Z.of_nat k < total)%Z) →
  ∀ fuel k results sent,
    1 ≤ k →
    let run := paginated_loop fuel w p params per_page k results sent in
    run.2 = None ∧ length run.1 = length sent + fuel.
Proof.
  intros Hmore. induction fuel as [|fuel IH]; intros k results sent Hk.
  { simpl. split; [done|]. lia. }
  cbn [paginated_loop]. cbv zeta.
  destruct (Hmore k Hk) as (items & total & (d & info & -> & Hres & Hinfo & Htot) & Hlt).
  rewrite (batch_of_array _ _ Hres), (total_pages_of_num _ _ _ Hinfo Htot).
  assert (truthy (JNum total) = true) as ->.
  { simpl. apply negb_true_iff, Z.eqb_neq. lia. }
  simpl negb. cbv iota. simpl int. cbv iota.
  destruct (Z.leb_spec total (Z.of_nat k)) as [Hle|_]; [lia|].
  destruct (IH (k + 1) (results ++ items)
              (sent ++ [{| method := "GET"; url_path := p;
                           query := page_params params per_page k |}]))
    as [Hnone Hlen]; [lia|].
  split; [done|]. rewrite Hlen, length_app. simpl. lia.
Qed.

(** X19: the client has no page cap of its own. Against a provider
    whose every answer announces a page beyond the one asked for, the
    loop of [paginated_get] does not end: whatever number of requests
    it is allowed, it uses them all and has not returned. *)
Theorem paginated_get_endless (fuel : nat) :
  (∀ k, 1 ≤ k →
     ∃ items total, page_ok w p params per_page k items total
                    ∧ (Z.of_nat k < total)%Z) →
  let run := paginated_get fuel w p params per_page in
  run.2 = None ∧ length run.1 = fuel.
Proof.
  intros Hmore run.
  destruct (paginated_loop_endless Hmore fuel 1 [] []) as [Hnone Hlen]; [lia|].
  done.
Qed.

End PageRequests.

Section PageRequestsExamples.
Import Py Client.

(** Every answer announces two pages. *)
Definition two_pages_always : http :=
  λ _, Reply 200 "ok" (Some (page_body [JStr "a"] 2)).

Lemma paginated_get_bounded_witness :
  let run := paginated_get 7 two_pages_always Zones ∅ 50 in
  run.2 ≠ None ∧ length run.1 ≤ 1 `max` 2.
Proof.
  apply (paginated_get_bounded two_pages_always Zones ∅ 50 2 7); [|lia|lia].
  intros k d t n _ Hd. vm_compute in Hd. injection Hd as <-.
  intros Ht. vm_compute in Ht. injection Ht as <-.
  intros Hn. vm_compute in Hn. injection Hn as <-. lia.
Defined.

(** Every answer announces one page more than the page asked for. *)
Definition one_more_page : http :=
  λ r, Reply 200 "ok"
         (Some (page_body []
                  (default 0%Z (query r !! "page" ≫= digits_value 0 false) + 1))).

Lemma paginated_get_endless_witness :
  let run := paginated_get 5 one_more_page Zones ∅ 50 in
  run.2 = None ∧ length run.1 = 5.
Proof.
  apply (paginated_get_endless one_more_page Zones ∅ 50 5).
  intros k Hk. exists [], (Z.of_nat k + 1)%Z. split; [|lia].
  assert (page_params ∅ 50 k !! "page" = Some (pretty k)) as Hpage.
  { unfold page_params. rewrite (left_id ∅ (∪)). by rewrite lookup_insert. }
  assert (digits_value 0 false (pretty k) = Some (Z.of_nat k)) as Hint.
  { unfold pretty at 1, pretty_nat. rewrite digits_value_pretty. f_equal. lia. }
  eexists _, _. split.
  - unfold request, one_more_page. simpl query. rewrite Hpage. simpl.
    rewrite Hint. simpl. reflexivity.
  - repeat split; reflexivity.
Defined.

End PageRequestsExamples.

(** ** Stored API keys *)

Section StoredKeys.
Import Py Config.

Variable ENCRYPTION_KEY : string.
Variable decrypt_and_verify : string → list Z → list Z → list Z → option string.

Lemma split_colon_token current a rest :
  contains ":" a = false →
  MultiUser.split_colon current (a +:+ rest)
  = match rest with
    | EmptyString => [current +:+ a]
    | _ => MultiUser.split_colon (current +:+ a) rest
    end.
Proof.
  intros Hc. revert current. induction a as [|c a IH]; intros current.
  - simpl. rewrite app_empty_r. by destruct rest.
  - simpl in Hc. apply orb_false_elim in Hc as [Hc1 Hc2].
    simpl. rewrite Hc1. rewrite (IH Hc2). by rewrite app_char_assoc.
Qed.

Lemma split_colon_three p0 p1 p2 :
  contains ":" p0 = false → contains ":" p1 = false → contains ":" p2 = false →
  MultiUser.split_colon EmptyString (p0 +:+ ":" +:+ p1 +:+ ":" +:+ p2)
  = [p0; p1; p2].
Proof.
  intros H0 H1 H2.
  rewrite (split_colon_token EmptyString p0) by done.
  change (":" +:+ p1 +:+ ":" +:+ p2) with (String ":" (p1 +:+ ":" +:+ p2)).
  cbv iota. cbn [MultiUser.split_colon]. rewrite Ascii.eqb_refl. f_equal.
  rewrite (split_colon_token EmptyString p1) by done.
  change (":" +:+ p2) with (String ":" p2).
  cbv iota. cbn [MultiUser.split_colon]. rewrite Ascii.eqb_refl. f_equal.
  rewrite <-(app_empty_r p2) at 1.
  by rewrite (split_colon_token EmptyString p2).
Qed.

Lemma split_colon_parts current s :
  contains ":" current = false →
  Forall (λ a, contains ":" a = false) (MultiUser.split_colon current s)
  ∧ String.concat ":" (MultiUser.split_colon current s) = current +:+ s.
Proof.
  revert current. induction s as [|c s IH]; intros current Hcur; simpl.
  { split; [by repeat constructor|]. by rewrite app_empty_r. }
  destruct (Ascii.eqb_spec c ":") as [->|Hne].
  - destruct (IH EmptyString eq_refl) as [Hall Hjoin].
    split; [by constructor|].
    destruct (MultiUser.split_colon EmptyString s) as [|a l] eqn:E.
    { by destruct s; simpl in E; [|destruct (Ascii.eqb _ _)]. }
    change (String.concat ":" (current :: a :: l))
      with (current +:+ ":" +:+ String.concat ":" (a :: l)).
    by rewrite Hjoin.
  - destruct (IH (current +:+ String c EmptyString)) as [Hall Hjoin].
    { rewrite contains_app, Hcur. simpl.
      destruct (Ascii.eqb_spec c ":"); [done|]. done. }
    split; [done|]. by rewrite Hjoin, app_char_assoc.
Qed.

Lemma hex_value_range c v : MultiUser.hex_value c = Some v → (0 ≤ v < 16)%Z.
Proof.
  unfold MultiUser.hex_value. cbv zeta.
  generalize (nat_of_ascii c). intros n.
  destruct ((48 <=? n) && (n <=? 57)) eqn:E1.
  { apply andb_prop in E1 as [?%Nat.leb_le ?%Nat.leb_le]. intros [= <-]. lia. }
  destruct ((97 <=? n) && (n <=? 102)) eqn:E2.
  { apply andb_prop in E2 as [?%Nat.leb_le ?%Nat.leb_le]. intros [= <-]. lia. }
  destruct ((65 <=? n) && (n <=? 70)) eqn:E3; [|done].
  apply andb_prop in E3 as [?%Nat.leb_le ?%Nat.leb_le]. intros [= <-]. lia.
Qed.

Lemma fromhex_bytes s bytes :
  MultiUser.fromhex s = Some bytes → Forall (λ b, 0 ≤ b < 256)%Z bytes.
Proof.
  assert (∀ n s, String.length s ≤ n → ∀ bytes,
            MultiUser.fromhex s = Some bytes →
            Forall (λ b, 0 ≤ b < 256)%Z bytes) as H; [|by apply (H _ s (le_n _))].
  clear. induction n as [|n IH]; intros s Hlen bytes.
  { destruct s; [|simpl in Hlen; lia]. intros [= <-]. constructor. }
  destruct s as [|c s]; simpl.
  { intros [= <-]. constructor. }
  simpl in Hlen. destruct (MultiUser.is_ascii_space c).
  { apply IH. lia. }
  destruct s as [|c' s]; [done|]. simpl in Hlen.
  destruct (MultiUser.hex_value c) as [hi|] eqn:Hhi; [|done].
  destruct (MultiUser.hex_value c') as [lo|] eqn:Hlo; [|done].
  destruct (MultiUser.fromhex s) as [rest|] eqn:Hrest; [|done].
  intros [= <-]. constructor.
  - apply hex_value_range in Hhi, Hlo. lia.
  - apply (IH s); [lia|done].
Qed.

(** X20: [decrypt_api_key] returns a key exactly for stored text of the
    form [iv:tag:data] with two colons, whose three parts decode from
    hexadecimal and whose data the cipher, given the first part as the
    nonce and the second as the tag, accepts; the key returned is what
    the cipher gives, and every value handed to the cipher is a byte. *)
Theorem decrypt_api_key_format (encrypted_data plain : string) :
  MultiUser.decrypt_api_key ENCRYPTION_KEY decrypt_and_verify encrypted_data
  = inr plain
  ↔ ∃ p0 p1 p2 iv auth_tag encrypted,
      encrypted_data = p0 +:+ ":" +:+ p1 +:+ ":" +:+ p2
      ∧ contains ":" p0 = false ∧ contains ":" p1 = false
      ∧ contains ":" p2 = false
      ∧ MultiUser.fromhex p0 = Some iv
      ∧ MultiUser.fromhex p1 = Some auth_tag
      ∧ MultiUser.fromhex p2 = Some encrypted
      ∧ Forall (λ b, 0 ≤ b < 256)%Z (iv ++ auth_tag ++ encrypted)
      ∧ decrypt_and_verify ENCRYPTION_KEY iv encrypted auth_tag = Some plain.
Proof.
  unfold MultiUser.decrypt_api_key. split.
  - destruct (split_colon_parts EmptyString encrypted_data eq_refl)
      as [Hall Hjoin].
    destruct (MultiUser.split_colon EmptyString encrypted_data)
      as [|p0 [|p1 [|p2 [|? ?]]]]; try done.
    destruct (MultiUser.fromhex p0) as [iv|] eqn:H0; [|done].
    destruct (MultiUser.fromhex p1) as [auth_tag|] eqn:H1; [|done].
    destruct (MultiUser.fromhex p2) as [encrypted|] eqn:H2; [|done].
    destruct (decrypt_and_verify _ _ _ _) as [text|] eqn:Hd; [|done].
    intros [= <-]. exists p0, p1, p2, iv, auth_tag, encrypted.
    inversion_clear Hall as [|?? ? Hall']. inversion_clear Hall' as [|?? ? Hall''].
    inversion_clear Hall'' as [|?? ? _].
    repeat split; try done.
    repeat (apply Forall_app; split); by eapply fromhex_bytes.
  - intros (p0 & p1 & p2 & iv & auth_tag & encrypted
            & -> & H0 & H1 & H2 & Hiv & Htag & Hdata & _ & Hplain).
    rewrite split_colon_three by done. by rewrite Hiv, Htag, Hdata, Hplain.
Qed.

End StoredKeys.

(** ** What a multi-user run keeps *)

Section MultiUserKeeps.
Import Py Db.

Variable now : nat.
Variable ENCRYPTION_KEY : string.
Variable decrypt_and_verify : string → list Z → list Z → list Z → option string.
Variable api : Engine.CloudflareConfig → Engine.CloudflareClient.

(** A property of the database that each statement of the script
    keeps. *)
Variable P : MultiUser.db → Prop.

Hypothesis P_get_or_create_account :
  ∀ cf_account_id,
    invariant (kept P) (MultiUser.get_or_create_account cf_account_id).

Hypothesis P_upsert_zone :
  ∀ zone_id account_db_id zone_name status d,
    P d → P (MultiUser.upsert_zone now zone_id account_db_id zone_name status d).

Hypothesis P_upsert_record :
  ∀ record_id zone_db_id name type content ttl proxied priority d,
    P d →
    P (MultiUser.upsert_record now record_id zone_db_id name type content ttl
         proxied priority d).

Hypothesis P_update_status :
  ∀ cid status error,
    invariant (kept P) (MultiUser.update_credential_sync_status now cid status error).

Local Abbreviation Kf := (λ f : MultiUser.frame, kept P f.1).
Local Abbreviation Kt := (λ f : conn MultiUser.db * MultiUser.totals, kept P f.1).

Lemma kept_on_conn {A} (m : M (conn MultiUser.db) A) :
  invariant (kept P) m → invariant Kf (MultiUser.on_conn m).
Proof.
  intros Hm f Hf. unfold MultiUser.on_conn. specialize (Hm f.1 Hf).
  by destruct (m f.1).
Qed.

Lemma kept_on_db {A} (m : M (conn MultiUser.db) A) :
  invariant (kept P) m → invariant Kt (MultiUser.on_db m).
Proof.
  intros Hm f Hf. unfold MultiUser.on_db. specialize (Hm f.1 Hf).
  by destruct (m f.1).
Qed.

Lemma kept_sync_record zone_id record u :
  invariant Kf (MultiUser.sync_record now zone_id record u).
Proof.
  unfold MultiUser.sync_record. apply inv_try_except.
  - apply inv_bind; [apply inv_lift|]. intros r.
    destruct (negb _); [by intros f|].
    apply inv_bind.
    { apply kept_on_conn, kept_query. by intros d. }
    intros [z|]; [|by intros f].
    apply inv_bind.
    { apply kept_on_conn, kept_execute. intros d. apply P_upsert_record. }
    intros ?. apply inv_bind; [apply kept_on_conn, kept_commit|].
    intros ?. by intros f.
  - intros e. apply inv_bind; [apply inv_lift|]. intros ?. by intros f.
Qed.

Lemma kept_mu_sync_zone account_db_id cf_client cf_domain zone u :
  invariant Kf (MultiUser.sync_zone now account_db_id cf_client cf_domain zone u).
Proof.
  unfold MultiUser.sync_zone. apply inv_bind.
  { destruct cf_domain as [domain|]; [|apply inv_ret].
    destruct (Config.is_empty domain); [apply inv_ret|].
    apply inv_bind; [apply inv_lift|]. intros ?. apply inv_ret. }
  intros [|]; [apply inv_ret|].
  apply inv_try_except.
  - apply inv_bind; [apply inv_lift|]. intros z.
    destruct (_ || _); [by intros f|].
    apply inv_bind.
    { apply kept_on_conn, kept_execute. intros d. apply P_upsert_zone. }
    intros ?. apply inv_bind; [apply kept_on_conn, kept_commit|].
    intros ?. apply inv_bind; [by intros f|].
    intros ?. apply inv_bind; [apply inv_lift|].
    intros records. apply inv_for_each. intros. apply kept_sync_record.
  - intros e. apply inv_bind; [apply inv_lift|]. intros ?. by intros f.
Qed.

Lemma kept_sync_cloudflare_account cf_client cf_account_id cf_domain
    credential_id user_id :
  invariant (kept P)
    (MultiUser.sync_cloudflare_account now cf_client cf_account_id cf_domain
       credential_id user_id).
Proof.
  intros c Hc. unfold MultiUser.sync_cloudflare_account.
  match goal with
  | |- context [try_except ?m ?p ?h ?st] =>
      assert (invariant Kf (try_except m p h)) as Hinv;
      [|specialize (Hinv st Hc); by destruct (try_except m p h st) as [[? ?] ?]]
  end.
  apply inv_try_except.
  - apply inv_bind; [apply kept_on_conn, P_get_or_create_account|].
    intros ?. apply inv_bind; [apply inv_lift|].
    intros zones. apply inv_bind.
    { apply inv_for_each. intros. apply kept_mu_sync_zone. }
    intros ? f Hf. done.
  - intros e. apply inv_bind; [by intros f|]. intros ?.
    apply inv_bind; [|intros; apply inv_raise].
    destruct (MultiUser.has_credential credential_id) as [cid|];
      [|apply inv_ret].
    apply kept_on_conn, P_update_status.
Qed.

Lemma kept_sync_global cf_config :
  invariant Kt (MultiUser.sync_global now api cf_config).
Proof.
  unfold MultiUser.sync_global. apply inv_try_except.
  - apply inv_bind; [apply inv_lift|]. intros cfg.
    apply inv_for_each. intros cf_account_id ?.
    apply inv_bind; [|by intros ? f].
    apply kept_on_db, kept_sync_cloudflare_account.
  - intros e. by intros f.
Qed.

Lemma kept_sync_user cred u :
  invariant Kt (MultiUser.sync_user now api cred u).
Proof.
  unfold MultiUser.sync_user. apply inv_try_except.
  - apply inv_bind; [apply kept_on_db, kept_sync_cloudflare_account|].
    intros r. apply inv_bind; [by intros f|].
    intros ?. apply kept_on_db, P_update_status.
  - intros e. apply inv_bind; [|by intros ? f].
    apply kept_on_db, P_update_status.
Qed.

(** The property holds of the database that [main] leaves. *)
Lemma kept_main connected server skip_global skip_users cf_config_file :
  P server →
  P (MultiUser.main now ENCRYPTION_KEY decrypt_and_verify api connected server
       skip_global skip_users cf_config_file).2.
Proof.
  intros Hserver. unfold MultiUser.main. destruct connected as [?|h]; [done|].
  match goal with
  | |- context [?run (open server, ?t0)] =>
      assert (invariant Kt run) as Hinv;
      [|specialize (Hinv (open server, t0) (kept_open P server Hserver));
        destruct (run (open server, t0)) as [[c t] [e|[]]]; by destruct Hinv]
  end.
  apply inv_bind.
  { destruct cf_config_file as [cf_config|]; [|apply inv_ret].
    destruct skip_global; [apply inv_ret|apply kept_sync_global]. }
  intros _. destruct skip_users; [apply inv_ret|].
  apply inv_bind; [by intros f|]. intros user_creds.
  apply inv_for_each. intros. apply kept_sync_user.
Qed.

End MultiUserKeeps.

Section MultiUserKept.
Import Py Db.

Variable now : nat.
Variable ENCRYPTION_KEY : string.
Variable decrypt_and_verify : string → list Z → list Z → list Z → option string.
Variable api : Engine.CloudflareConfig → Engine.CloudflareClient.

(** The columns of a credential that the script reads. *)
Definition stored_columns (row : MultiUser.credential_row) :=
  (MultiUser.c_id row, MultiUser.c_user_id row, MultiUser.c_account_id row,
   MultiUser.c_cf_email row, MultiUser.c_cf_api_key row,
   MultiUser.c_cf_account_id row, MultiUser.c_cf_domain row,
   MultiUser.c_cf_api_url row, MultiUser.c_enabled row,
   MultiUser.c_auto_sync row).

(** The columns of a zone and of a record that an upsert leaves alone
    when the row is already there. *)
Definition mu_zone_keys (d : MultiUser.db) :=
  (λ r, (MultiUser.z_id r, MultiUser.z_cf_zone_id r,
         MultiUser.z_cf_account_id r, MultiUser.z_created_at r))
  <$> MultiUser.zones d.

Definition mu_record_keys (d : MultiUser.db) :=
  (λ r, (MultiUser.r_cf_record_id r, MultiUser.r_cf_zone_id r,
         MultiUser.r_created_at r))
  <$> MultiUser.records d.

Lemma get_or_create_account_kept (P : MultiUser.db → Prop) cf_account_id :
  (∀ d,
     P d →
     P (MultiUser.set_accounts
          (MultiUser.accounts d ++
           [{| MultiUser.a_id := MultiUser.next_account_id d;
               MultiUser.a_cf_account_id := cf_account_id;
               MultiUser.a_name := "Account " +:+ str_take 8 cf_account_id |}])
          (S (MultiUser.next_account_id d)) d)) →
  invariant (kept P) (MultiUser.get_or_create_account cf_account_id).
Proof.
  intros Hins. unfold MultiUser.get_or_create_account.
  apply inv_bind; [apply kept_query; by intros d|].
  intros [r|]; [apply inv_ret|].
  apply inv_bind; [apply kept_query; intros d; by apply Hins|].
  intros ?. apply inv_bind; [apply kept_commit|]. intros ?. apply inv_ret.
Qed.

Lemma update_status_kept (P : MultiUser.db → Prop) cid status error :
  (∀ d,
     P d →
     P (MultiUser.set_credentials
          ((MultiUser.update_credential_sync_status now cid status error
              (open d)).1.(working).(MultiUser.credentials)) d)) →
  invariant (kept P)
    (MultiUser.update_credential_sync_status now cid status error).
Proof.
  intros Hupd. unfold MultiUser.update_credential_sync_status.
  apply inv_bind; [|intros; apply kept_commit].
  apply kept_execute. intros d Hd. apply (Hupd d Hd).
Qed.

(** X21: a run of the multi-user script changes nothing of a stored
    credential but its last-sync time, status and error: the table has
    the same rows in the same order, each with its id, user, account,
    email, encrypted key, provider account, domain, address and its two
    flags as before. *)
Theorem main_keeps_credentials (connected : result Hosts.host)
    (server : MultiUser.db) (skip_global skip_users : bool)
    (cf_config_file : option (result Engine.CloudflareConfig)) :
  stored_columns
  <$> MultiUser.credentials
        (MultiUser.main now ENCRYPTION_KEY decrypt_and_verify api connected
           server skip_global skip_users cf_config_file).2
  = stored_columns <$> MultiUser.credentials server.
Proof.
  apply (kept_main now ENCRYPTION_KEY decrypt_and_verify api
           (λ d, stored_columns <$> MultiUser.credentials d
                 = stored_columns <$> MultiUser.credentials server));
    [| | | |done].
  - intros k. by apply get_or_create_account_kept.
  - intros ????? Hd. unfold MultiUser.upsert_zone.
    by destruct (List.find _ _).
  - intros ????????? Hd. unfold MultiUser.upsert_record.
    by destruct (List.find _ _).
  - intros cid status error. apply update_status_kept. intros d <-. simpl.
    rewrite <-list_fmap_compose. apply list_fmap_ext. intros i row _. simpl.
    by destruct (MultiUser.c_id row =? cid).
Qed.

(** X22: a run of the multi-user script deletes nothing and moves
    nothing. The accounts stored before the run are still there,
    unchanged and in place; so is every zone, with its local id, its
    provider id, the account it was first stored under and its time of
    creation; and so is every record, with its provider id, the zone it
    was first stored under and its time of creation, whether or not the
    provider still lists it. *)
Theorem main_append_only (connected : result Hosts.host)
    (server : MultiUser.db) (skip_global skip_users : bool)
    (cf_config_file : option (result Engine.CloudflareConfig)) :
  let out := (MultiUser.main now ENCRYPTION_KEY decrypt_and_verify api
                connected server skip_global skip_users cf_config_file).2 in
  MultiUser.accounts server `prefix_of` MultiUser.accounts out
  ∧ mu_zone_keys server `prefix_of` mu_zone_keys out
  ∧ mu_record_keys server `prefix_of` mu_record_keys out.
Proof.
  apply (kept_main now ENCRYPTION_KEY decrypt_and_verify api
           (λ d, MultiUser.accounts server `prefix_of` MultiUser.accounts d
                 ∧ mu_zone_keys server `prefix_of` mu_zone_keys d
                 ∧ mu_record_keys server `prefix_of` mu_record_keys d));
    [| | | |done].
  - intros k. apply get_or_create_account_kept. intros d (Ha & Hz & Hr).
    split; [|done]. simpl. by apply prefix_app_r.
  - intros ????? (Ha & Hz & Hr). unfold MultiUser.upsert_zone.
    destruct (List.find _ _); (split; [done|]); (split; [|done]).
    + unfold mu_zone_keys. simpl. by rewrite fmap_update_first.
    + unfold mu_zone_keys. simpl. rewrite fmap_app. by apply prefix_app_r.
  - intros ????????? (Ha & Hz & Hr). unfold MultiUser.upsert_record.
    destruct (List.find _ _); (split; [done|]); (split; [done|]).
    + unfold mu_record_keys. simpl. by rewrite fmap_update_first.
    + unfold mu_record_keys. simpl. rewrite fmap_app. by apply prefix_app_r.
  - intros cid status error. by apply update_status_kept.
Qed.

End MultiUserKept.

(** ** Credentials that were loaded *)

Section LoadedCredentials.
Import Py Db.

Variable now : nat.
Variable ENCRYPTION_KEY : string.
Variable decrypt_and_verify : string → list Z → list Z → list Z → option string.
Variable api : Engine.CloudflareConfig → Engine.CloudflareClient.

(** X23: every credential that was loaded gets its status written.
    When the connection succeeds, the part for the global credentials
    ends without an escaping exception and the user credentials are not
    skipped, then, the credential ids of the table being distinct, the
    row of each credential that [load_user_credentials] returned
    carries, in the database the run leaves, the time of the run as
    its last sync and one of the statuses success, partial and failed,
    with an error text exactly when the status is failed. *)
Theorem loaded_credentials_are_stamped (h : Hosts.host) (server : MultiUser.db)
    (skip_global : bool)
    (cf_config_file : option (result Engine.CloudflareConfig))
    (cred : MultiUser.UserCloudflareCredential)
    (row : MultiUser.credential_row) :
  NoDup (MultiUser.c_id <$> MultiUser.credentials server) →
  (global_part now api skip_global cf_config_file (open server, no_totals)).2
  = inr () →
  cred ∈ (MultiUser.load_user_credentials ENCRYPTION_KEY decrypt_and_verify
            server).1 →
  row ∈ MultiUser.credentials
          (MultiUser.main now ENCRYPTION_KEY decrypt_and_verify api (inr h)
             server skip_global false cf_config_file).2 →
  MultiUser.c_id row = MultiUser.id cred →
  stamped now row.
Proof.
  intros Hnd Hglobal Hcred Hrow Hid.
  assert (invariant (λ f : conn MultiUser.db * MultiUser.totals,
                       both MultiUser.credentials (MultiUser.credentials server) f.1)
            (global_part now api skip_global cf_config_file)) as Hkeep.
  { unfold global_part. destruct cf_config_file as [cf_config|]; [|apply inv_ret].
    destruct skip_global; [apply inv_ret|].
    apply (inv_sync_global now api MultiUser.credentials _ (λ _, False));
      [done|by intros]. }
  specialize (Hkeep (open server, no_totals) (conj eq_refl eq_refl)).
  revert Hrow. unfold MultiUser.main.
  fold (global_part now api skip_global cf_config_file). fold no_totals.
  unfold bind at 1.
  destruct (global_part now api skip_global cf_config_file (open server, no_totals))
    as [[c1 t1] [e|[]]]; [done|].
  destruct Hkeep as [_ Hw]. simpl in Hw.
  unfold bind.
  assert ((MultiUser.load_user_credentials ENCRYPTION_KEY decrypt_and_verify
             (working (c1, t1).1)).1
          = (MultiUser.load_user_credentials ENCRYPTION_KEY decrypt_and_verify
               server).1) as Hload.
  { unfold MultiUser.load_user_credentials. simpl. by rewrite Hw. }
  rewrite Hload.
  set (creds := (MultiUser.load_user_credentials ENCRYPTION_KEY
                   decrypt_and_verify server).1) in *.
  assert (NoDup (MultiUser.id <$> creds)) as Hids.
  { eapply sublist_NoDup; [|apply load_rows_sublist].
    eapply sublist_NoDup; [exact Hnd|].
    apply fmap_sublist. clear.
    induction (MultiUser.credentials server) as [|r l IH]; [done|]. simpl.
    destruct (_ && _); [by apply sublist_skip|by apply sublist_cons]. }
  pose proof (loop_stamps now api creds (c1, t1) Hids cred row Hcred) as Hstamp.
  destruct (for_each creds (MultiUser.sync_user now api) () (c1, t1))
    as [[c2 t2] [e|[]]]; simpl in *; intros Hrow; apply Hstamp;
    unfold with_id; apply list_elem_of_In, filter_In;
    (split; [by apply list_elem_of_In|by apply Nat.eqb_eq]).
Qed.

End LoadedCredentials.

Section StatusStampsExamples.
Import Py Db.

(** The second of [two_credentials] as [load_user_credentials] returns it. *)
Definition loaded_second : MultiUser.UserCloudflareCredential :=
  {| MultiUser.id := 2; MultiUser.user_id := 12; MultiUser.account_id := 1;
     MultiUser.cf_email := "user@example.org";
     MultiUser.cf_api_key := "api-key-of-user";
     MultiUser.cf_account_id := "acct";
     MultiUser.cf_domain := None;
     MultiUser.cf_api_url := MultiUser.DEFAULT_CF_API;
     MultiUser.enabled := true; MultiUser.auto_sync := true |}.

(** Its row after a run at time 9. *)
Definition synced_second : MultiUser.credential_row :=
  {| MultiUser.c_id := 2; MultiUser.c_user_id := 12;
     MultiUser.c_account_id := 1;
     MultiUser.c_cf_email := "user@example.org";
     MultiUser.c_cf_api_key := "00ff:aa:0102";
     MultiUser.c_cf_account_id := "acct";
     MultiUser.c_cf_domain := None; MultiUser.c_cf_api_url := None;
     MultiUser.c_enabled := true; MultiUser.c_auto_sync := true;
     MultiUser.c_last_sync_at := Some 9;
     MultiUser.c_last_sync_status := Some "success";
     MultiUser.c_last_sync_error := None |}.

Lemma loaded_credentials_are_stamped_witness :
  loaded_second
  ∈ (MultiUser.load_user_credentials "k" toy_cipher two_credentials).1
  ∧ synced_second
    ∈ MultiUser.credentials
        (MultiUser.main 9 "k" toy_cipher (λ _, provider_with_three)
           (inr ("db1", 3306%Z)) two_credentials true false None).2
  ∧ stamped 9 synced_second.
Proof.
  assert (loaded_second
          ∈ (MultiUser.load_user_credentials "k" toy_cipher two_credentials).1)
    as Hcred.
  { vm_compute. apply list_elem_of_here. }
  assert (synced_second
          ∈ MultiUser.credentials
              (MultiUser.main 9 "k" toy_cipher (λ _, provider_with_three)
                 (inr ("db1", 3306%Z)) two_credentials true false None).2)
    as Hrow.
  { vm_compute. apply list_elem_of_further, list_elem_of_here. }
  split; [exact Hcred|]. split; [exact Hrow|].
  apply (loaded_credentials_are_stamped 9 "k" toy_cipher
           (λ _, provider_with_three) ("db1", 3306%Z) two_credentials true None
           loaded_second synced_second).
  - change (NoDup [1; 2]). apply NoDup_cons. split; [|apply NoDup_singleton].
    intros Hin. apply list_elem_of_singleton in Hin. discriminate Hin.
  - reflexivity.
  - exact Hcred.
  - exact Hrow.
  - reflexivity.
Defined.

End StatusStampsExamples.

(** ** The two readers of the database configuration *)

Section TwoReaders.
Import Py Config Loader.






End TwoReaders.

Section TwoReadersExamples.
Import Py Config Loader.





End TwoReadersExamples.
